(** * PythonForge PSRP server: out-of-process transport, packet codec,
    pipeline executor and pipe-name derivation

  A shallow embedding of [src/PythonForge/psrp_server/_server.py].
  Python [bytes] are [list byte]; Python [str] values are [string]s whose
  characters are the bytes of their UTF-8 encoding, so [str.encode()] is
  [list_byte_of_string].  A [uuid.UUID] is its 128-bit integer together
  with the range check its constructor performs.  The PSRP codec
  ([psrpcore]), the XML parser and the threads are external to the file
  and appear as section variables or as logged actions. *)

From Stdlib Require Import NArith ZArith List Lia.
From Stdlib Require Import Strings.Byte Strings.String Strings.Ascii.
From Stdlib Require Import DecimalString.
From stdpp Require Import base option list gmap strings.

Local Open Scope N_scope.

(** ** Bytes *)

Module Bytes.

Abbreviation bytes := (list byte).

(** [s.encode()] for a [str] held as its UTF-8 bytes; also the reading of
    a bytes literal. *)
Definition encode (s : string) : bytes := list_byte_of_string s.

Definition LF : byte := x0a.
Definition HYPHEN : byte := x2d.
Definition ZERO : byte := x30.
Definition PAD : byte := x3d.

Lemma to_N_inj (a b : byte) : Byte.to_N a = Byte.to_N b → a = b.
Proof.
  intros H. apply (f_equal Byte.of_N) in H.
  rewrite !Byte.of_to_N in H. congruence.
Qed.

#[global] Instance byte_eq_dec : EqDecision byte.
Proof.
  intros a b. destruct (N.eq_dec (Byte.to_N a) (Byte.to_N b)) as [E|E].
  - left. by apply to_N_inj.
  - right. by intros ->.
Defined.

(** Number of occurrences of a byte, [bytes.count(c)]. *)
Definition count (c : byte) (l : bytes) : nat :=
  length (filter (λ x, x = c) l).

(** [s[i:j]] for [0 <= i <= j]. *)
Definition slice {A} (i j : nat) (l : list A) : list A :=
  take (j - i) (drop i l).

(** [s[i:]]. *)
Definition slice_from {A} (i : nat) (l : list A) : list A := drop i l.

(** [str.lower()] on ASCII text held as its bytes: upper-case letters are
    mapped to lower case. *)
Definition lower_byte (c : byte) : byte :=
  let n := Byte.to_N c in
  if (65 <=? n) && (n <=? 90)
  then default c (Byte.of_N (n + 32))
  else c.

Definition lower (l : bytes) : bytes := map lower_byte l.

End Bytes.
Import Bytes.

(** ** Hexadecimal rendering *)

Module Hex.

Definition lower_digits : bytes := encode "0123456789abcdef".
Definition upper_digits : bytes := encode "0123456789ABCDEF".

Definition digit (alphabet : bytes) (n : N) : byte :=
  nth (N.to_nat n) alphabet ZERO.

(** The [w] low hexadecimal digits of [v], most significant first: the
    rendering ['%0wx' % v] of a [v] below [16^w]. *)
Fixpoint fixed (alphabet : bytes) (w : nat) (v : N) : bytes :=
  match w with
  | O => []
  | S w' =>
      digit alphabet (N.land (N.shiftr v (4 * N.of_nat w')) 15)
        :: fixed alphabet w' v
  end.

(** Value of one hexadecimal digit character (either case). *)
Definition digit_value (c : byte) : option N :=
  let n := Byte.to_N c in
  if (48 <=? n) && (n <=? 57) then Some (n - 48)
  else if (97 <=? n) && (n <=? 102) then Some (n - 87)
  else if (65 <=? n) && (n <=? 70) then Some (n - 55)
  else None.

(** Value of a run of hexadecimal digits, [int(s, 16)] on plain digits. *)
Definition value (l : bytes) : option N :=
  foldl (λ acc c, a ← acc; d ← digit_value c; Some (16 * a + d)) (Some 0) l.

End Hex.

(** ** Base64 ([base64.b64encode]) *)

Module Base64.

Definition alphabet : bytes :=
  encode "ABCDEFGHIJKLMNOPQRSTUVWXYZabcdefghijklmnopqrstuvwxyz0123456789+/".

(** Character of a 6-bit group. *)
Definition enc (n : N) : byte := nth (N.to_nat n) alphabet PAD.

(** [base64.b64encode]: three octets become four characters; a final group
    of one or two octets is zero-filled and padded with [=]. *)
Fixpoint b64encode (d : bytes) : bytes :=
  match d with
  | [] => []
  | [a] =>
      let a := Byte.to_N a in
      [enc (N.shiftr a 2); enc (N.shiftl (N.land a 3) 4); PAD; PAD]
  | [a; b] =>
      let a := Byte.to_N a in
      let b := Byte.to_N b in
      [enc (N.shiftr a 2);
       enc (N.lor (N.shiftl (N.land a 3) 4) (N.shiftr b 4));
       enc (N.shiftl (N.land b 15) 2);
       PAD]
  | a :: b :: c :: rest =>
      let a := Byte.to_N a in
      let b := Byte.to_N b in
      let c := Byte.to_N c in
      enc (N.shiftr a 2)
        :: enc (N.lor (N.shiftl (N.land a 3) 4) (N.shiftr b 4))
        :: enc (N.lor (N.shiftl (N.land b 15) 2) (N.shiftr c 6))
        :: enc (N.land c 63)
        :: b64encode rest
  end.

End Base64.

(** ** [uuid.UUID] *)

Module Uuid.

(** A UUID is its [int] attribute; the constructor refuses integers outside
    [0 <= int < 1 << 128].  (The bound is written [not (1 << 128 <= int)]:
    the comparison then recurses on [int] and stays small when the
    instances below are evaluated.) *)
Record UUID := mkUUID {
  uuid_int : N;
  uuid_range : Is_true (negb (2 ^ 128 <=? uuid_int))
}.

Lemma uuid_int_lt (g : UUID) : uuid_int g < 2 ^ 128.
Proof.
  pose proof (uuid_range g) as H. apply Is_true_true_1, negb_true_iff in H.
  by apply N.leb_gt.
Qed.

Lemma UUID_eq (a b : UUID) : uuid_int a = uuid_int b → a = b.
Proof.
  destruct a as [x Hx], b as [y Hy]; simpl; intros ->.
  f_equal. apply proof_irrel.
Qed.

#[global] Instance UUID_eq_dec : EqDecision UUID.
Proof.
  intros a b. destruct (decide (uuid_int a = uuid_int b)) as [E|E].
  - left. by apply UUID_eq.
  - right. by intros ->.
Defined.

(** [uuid.UUID(int=v)]; [None] stands for the [ValueError]. *)
Definition UUID_of_int (v : N) : option UUID :=
  match decide (Is_true (negb (2 ^ 128 <=? v))) with
  | left H => Some (mkUUID v H)
  | right _ => None
  end.

Lemma UUID_of_int_uuid_int (g : UUID) : UUID_of_int (uuid_int g) = Some g.
Proof.
  unfold UUID_of_int. destruct g as [v H]; simpl.
  destruct (decide _) as [H'|H']; [|done]. f_equal. by apply UUID_eq.
Qed.

#[global] Instance UUID_countable : Countable UUID :=
  inj_countable uuid_int UUID_of_int UUID_of_int_uuid_int.

(** [uuid.UUID(int=0)], the runspace-pool address. *)
Definition zero : UUID := mkUUID 0 I.

(** [UUID.__str__]: [hex = '%032x' % self.int], then
    [hex[:8]-hex[8:12]-hex[12:16]-hex[16:20]-hex[20:]].  The text is
    ASCII and is held as the bytes [.encode()] gives. *)
Definition str (g : UUID) : bytes :=
  let hex := Hex.fixed Hex.lower_digits 32 (uuid_int g) in
  slice 0 8 hex ++ [HYPHEN] ++ slice 8 12 hex ++ [HYPHEN]
    ++ slice 12 16 hex ++ [HYPHEN] ++ slice 16 20 hex ++ [HYPHEN]
    ++ slice_from 20 hex.

(** [ps_guid or uuid.UUID(int=0)]: a UUID object is always truthy (the
    class defines neither [__bool__] nor [__len__]), so only [None] is
    replaced. *)
Definition or_zero (ps_guid : option UUID) : UUID := default zero ps_guid.

End Uuid.
Import Uuid.

(** ** Packet encoders *)

Module Packet.

(** [psrpcore.StreamType] *)
Inductive StreamType := st_default | st_prompt_response.

#[global] Instance StreamType_eq_dec : EqDecision StreamType.
Proof. solve_decision. Defined.

(** [ps_data_packet(data, stream_type, ps_guid)] *)
Definition ps_data_packet
    (data : bytes) (stream_type : StreamType) (ps_guid : option UUID) : bytes :=
  let ps_guid := or_zero ps_guid in
  let stream_name :=
    if decide (stream_type = st_default)
    then encode "Default" else encode "PromptResponse" in
  encode "<Data Stream='" ++ stream_name ++ encode "' PSGuid='"
    ++ lower (Uuid.str ps_guid) ++ encode "'>"
    ++ Base64.b64encode data ++ encode "</Data>" ++ [LF].

(** [ps_guid_packet(element, ps_guid)] *)
Definition ps_guid_packet (element : string) (ps_guid : option UUID) : bytes :=
  let ps_guid := or_zero ps_guid in
  encode "<" ++ encode element ++ encode " PSGuid='"
    ++ lower (Uuid.str ps_guid) ++ encode "' />" ++ [LF].

(** The packet grammar as the specification words it: the GUID as five
    groups of 8, 4, 4, 4 and 12 lower-case hexadecimal digits, most
    significant group first, joined by hyphens. *)
Definition guid_8_4_4_4_12 (g : UUID) : bytes :=
  let v := uuid_int g in
  Hex.fixed Hex.lower_digits 8 (N.shiftr v 96) ++ [HYPHEN]
    ++ Hex.fixed Hex.lower_digits 4 (N.shiftr v 80) ++ [HYPHEN]
    ++ Hex.fixed Hex.lower_digits 4 (N.shiftr v 64) ++ [HYPHEN]
    ++ Hex.fixed Hex.lower_digits 4 (N.shiftr v 48) ++ [HYPHEN]
    ++ Hex.fixed Hex.lower_digits 12 v.

Definition stream_attribute (st : StreamType) : bytes :=
  match st with
  | st_default => encode "Default"
  | st_prompt_response => encode "PromptResponse"
  end.

Definition spec_data_packet
    (payload : bytes) (st : StreamType) (g : option UUID) : bytes :=
  encode "<Data Stream='" ++ stream_attribute st ++ encode "' PSGuid='"
    ++ guid_8_4_4_4_12 (default zero g) ++ encode "'>"
    ++ Base64.b64encode payload ++ encode "</Data>" ++ [LF].

Definition spec_guid_packet (tag : string) (g : option UUID) : bytes :=
  encode "<" ++ encode tag ++ encode " PSGuid='"
    ++ guid_8_4_4_4_12 (default zero g) ++ encode "' />" ++ [LF].

End Packet.
Import Packet.

(** ** Python exceptions and results *)

Module Py.

(** The exception classes the file raises or catches.  [SyntaxError]
    stands for the class and its subclasses; [Exception_other] for any
    further class deriving from [Exception]; [BaseException_other] for a
    class that does not ([KeyboardInterrupt], [GeneratorExit]). *)
Inductive ExcClass :=
| BaseException_other (name : string)
| SystemExit
| SyntaxError
| KeyError
| ValueError
| RuntimeError
| ParseError
| BinasciiError
| StructError
| PlainException
| Exception_other (name : string).

(** An exception object: its class and [str(e)]. *)
Record PyExc := mkExc { exc_class : ExcClass; exc_str : string }.

(** [isinstance(e, Exception)] *)
Definition is_Exception (e : PyExc) : bool :=
  match exc_class e with
  | BaseException_other _ | SystemExit => false
  | _ => true
  end.

(** [isinstance(e, SyntaxError)] *)
Definition is_SyntaxError (e : PyExc) : bool :=
  match exc_class e with SyntaxError => true | _ => false end.

(** [isinstance(e, SystemExit)] *)
Definition is_SystemExit (e : PyExc) : bool :=
  match exc_class e with SystemExit => true | _ => false end.

(** Outcome of a call: a value or a raised exception. *)
Inductive Result (A : Type) :=
| Ok (a : A)
| Raise (e : PyExc).
Arguments Ok {A} a.
Arguments Raise {A} e.

(** [str(n)] of a non-negative [int]. *)
Definition str_of_N (n : N) : string :=
  NilEmpty.string_of_uint (N.to_uint n).

(** [str(z)] of an [int]. *)
Definition str_of_Z (z : Z) : string :=
  NilZero.string_of_int (Z.to_int z).

(** [s.startswith(c)] and [s.endswith(c)] for a one-character [c]. *)
Definition startswith (c : ascii) (s : string) : bool :=
  match s with
  | String x _ => bool_decide (x = c)
  | EmptyString => false
  end.

Fixpoint endswith (c : ascii) (s : string) : bool :=
  match s with
  | EmptyString => false
  | String x EmptyString => bool_decide (x = c)
  | String _ s' => endswith c s'
  end.

(** [s.lstrip(c)] for a one-character [c]. *)
Fixpoint lstrip (c : ascii) (s : string) : string :=
  match s with
  | String x s' => if bool_decide (x = c) then lstrip c s' else s
  | EmptyString => EmptyString
  end.

(** [s[i:j]] on [str], [0 <= i <= j]. *)
Definition str_slice (i j : nat) (s : string) : string :=
  String.substring i (j - i) s.

End Py.
Import Py.

(** ** Pipe-name derivation ([get_pipe_name]) *)

Module PipeName.

(** [datetime.timedelta]: its [days], [seconds] and [microseconds]. *)
Record timedelta := mkTimedelta {
  days : Z;
  seconds : Z;
  microseconds : Z
}.

(** The eight octets of [v], most significant first. *)
Definition octets_be (v : N) : bytes :=
  map (λ i : nat,
         default x00
           (Byte.of_N (N.land (N.shiftr v (8 * N.of_nat (7 - i))) 255)))
    (seq 0 8).

(** [struct.pack(">Q", v)]: [struct.error] outside [0 <= v < 2**64]. *)
Definition pack_Q_be (v : Z) : Result bytes :=
  if ((0 <=? v) && (v <? 2 ^ 64))%Z
  then Ok (octets_be (Z.to_N v))
  else Raise (mkExc StructError "argument out of range").

(** [base64.b16encode]: two upper-case digits per octet. *)
Definition b16encode (d : bytes) : bytes :=
  flat_map
    (λ b, [Hex.digit Hex.upper_digits (N.shiftr (Byte.to_N b) 4);
           Hex.digit Hex.upper_digits (N.land (Byte.to_N b) 15)])
    d.

(** [bytes.decode()] on ASCII text. *)
Definition decode (d : bytes) : string := string_of_list_byte d.

(** [os.path.join(a, b)] of [posixpath]. *)
Definition posix_join (a b : string) : string :=
  if startswith "/" b then b
  else if bool_decide (a = "") || endswith "/" a then a +:+ b
  else a +:+ "/" +:+ b.

(** [os.environ.get("TMPDIR", "/tmp")] *)
Definition environ_get_TMPDIR (TMPDIR : option string) : string :=
  default "/tmp" TMPDIR.

Definition EPOCH_FILETIME : Z := 116444736000000000.

(** Lines 724-726: the create time as Windows FILETIME ticks. *)
Definition start_time_ft (td : timedelta) : Z :=
  (EPOCH_FILETIME
   + (microseconds td + (seconds td + days td * 24 * 3600) * 10 ^ 6) * 10)%Z.

(** [get_pipe_name()], as a function of what it reads from its
    environment: [HAS_PSUTIL], [os.name], [TMPDIR], [os.getpid()],
    [proc.name()] and the create time as a duration [td] since the epoch
    (line 721). *)
Definition get_pipe_name
    (HAS_PSUTIL : bool) (os_name : string) (TMPDIR : option string)
    (pid : N) (process_name : string) (td : timedelta) : Result string :=
  if negb HAS_PSUTIL
  then Raise (mkExc PlainException
    "Using --pipe without a custom pipe name requires the psutil package to be installed.")
  else
    let start_time_ft := start_time_ft td in
    if bool_decide (os_name = "nt")
    then
      let start_time := str_of_Z start_time_ft in
      Ok ("\\.\pipe\PSHost." +:+ start_time +:+ "." +:+ str_of_N pid
            +:+ ".DefaultAppDomain." +:+ process_name)
    else
      match pack_Q_be start_time_ft with
      | Raise e => Raise e
      | Ok packed =>
          let start_time :=
            str_slice 1 9 (lstrip "0" (decode (b16encode packed))) in
          let tmpdir := environ_get_TMPDIR TMPDIR in
          Ok (posix_join tmpdir
                ("CoreFxPipe_PSHost." +:+ start_time +:+ "." +:+ str_of_N pid
                   +:+ ".None." +:+ process_name))
      end.

(** The POSIX start-time field as the specification words it: the FILETIME
    as sixteen upper-case hexadecimal digits, leading zeros stripped,
    characters [1..9] of the remainder. *)
Definition spec_start_time (ft : Z) : string :=
  str_slice 1 9
    (lstrip "0" (decode (Hex.fixed Hex.upper_digits 16 (Z.to_N ft)))).

End PipeName.
Import PipeName.

(** ** The PSRP codec ([psrpcore]) as the server uses it *)

Module Codec.

(** [psrpcore.types.RunspacePoolState] *)
Inductive RunspacePoolState :=
| RP_BeforeOpen | RP_Opening | RP_Opened | RP_Closed | RP_Closing
| RP_Broken | RP_NegotiationSent | RP_NegotiationSucceeded
| RP_Connecting | RP_Disconnected.

(** [psrpcore.types.PSInvocationState] *)
Inductive PSInvocationState :=
| NotStarted | Running | Stopping | Stopped | Completed | Failed
| Disconnected.

(** [psrpcore.types.ErrorCategory], the members the server names. *)
Inductive ErrorCategory :=
| NotSpecified | ReadError | ParserError | OtherCategory (n : N).

#[global] Instance RunspacePoolState_eq_dec : EqDecision RunspacePoolState.
Proof. solve_decision. Defined.
#[global] Instance PSInvocationState_eq_dec : EqDecision PSInvocationState.
Proof. solve_decision. Defined.
#[global] Instance ErrorCategory_eq_dec : EqDecision ErrorCategory.
Proof. solve_decision. Defined.

(** [psrpcore.types.NETException(Message=..., StackTrace=...)] *)
Record NETException := mkNETException {
  Message : string;
  StackTrace : option string
}.

(** [psrpcore.types.ErrorCategoryInfo] *)
Record ErrorCategoryInfo := mkErrorCategoryInfo {
  Category : ErrorCategory;
  Activity : option string;
  Reason : option string;
  TargetName : option string;
  TargetType : option string
}.

(** [psrpcore.types.ErrorRecord] *)
Record ErrorRecord := mkErrorRecord {
  Exception : NETException;
  CategoryInfo : ErrorCategoryInfo;
  FullyQualifiedErrorId : option string
}.

#[global] Instance NETException_eq_dec : EqDecision NETException.
Proof. solve_decision. Defined.
#[global] Instance ErrorCategoryInfo_eq_dec : EqDecision ErrorCategoryInfo.
Proof. solve_decision. Defined.
#[global] Instance ErrorRecord_eq_dec : EqDecision ErrorRecord.
Proof. solve_decision. Defined.

(** A Python value of type [typing.Any] as the server handles it: script
    parameters and host-call results. *)
Inductive PyValue :=
| PyNone
| PyStr (s : string)
| PyInt (z : Z)
| PyErrorRecord (er : ErrorRecord)
| PyObject (repr : string).

#[global] Instance PyValue_eq_dec : EqDecision PyValue.
Proof. solve_decision. Defined.

(** [psrpcore.PSRPPayload], a named tuple. *)
Record PSRPPayload := mkPayload {
  payload_data : bytes;
  payload_stream_type : StreamType;
  payload_pipeline_id : option UUID
}.

(** [psrpcore.PSRPEvent] and the subclasses the server tests for.  A
    command of a pipeline is its text and its raw parameters. *)
Inductive PSRPEvent :=
| CreatePipelineEvent
    (no_input : bool) (command_text : string)
    (parameters : list (option string * PyValue))
| PipelineInputEvent (data : PyValue)
| EndOfPipelineInputEvent
| PipelineHostResponseEvent (ci : Z) (result : PyValue) (error : option ErrorRecord)
| RunspacePoolHostResponseEvent (ci : Z) (result : PyValue) (error : option ErrorRecord)
| OtherEvent (name : string).

(** Arguments of [ServerPipeline.write_error]. *)
Record WriteErrorArgs := mkWriteErrorArgs {
  we_exception : NETException;
  we_category_info : ErrorCategoryInfo;
  we_fully_qualified_error_id : option string
}.

(** The calls the server makes into the codec. *)
Inductive CodecCall :=
| receive_data (payload : PSRPPayload)
| next_event
| data_to_send
| pool_close
| set_broken (err : ErrorRecord)
| ServerPipeline (pipeline_id : UUID)
| pipeline_start (pipeline_id : UUID)
| pipeline_complete (pipeline_id : UUID)
| pipeline_stop (pipeline_id : UUID)
| pipeline_begin_stop (pipeline_id : UUID)
| pipeline_close (pipeline_id : UUID)
| pipeline_write_error (pipeline_id : UUID) (args : WriteErrorArgs)
| pipeline_change_state
    (pipeline_id : UUID) (state : PSInvocationState) (err : ErrorRecord)
    (emit : bool).

(** The codec is opaque: a state of some type [C] and, for each call, the
    value it returns or the exception it raises together with the state it
    leaves.  Pipelines are addressed by their id. *)
Record Ops (C : Type) := mkOps {
  do_receive_data : PSRPPayload → C → Result unit * C;
  do_next_event : C → Result (option PSRPEvent) * C;
  do_data_to_send : C → Result (option PSRPPayload) * C;
  do_pool_close : C → Result unit * C;
  do_set_broken : ErrorRecord → C → Result unit * C;
  pool_state : C → RunspacePoolState;
  runspace_pool_id : C → UUID;
  do_ServerPipeline : UUID → C → Result unit * C;
  pipeline_state : UUID → C → PSInvocationState;
  do_pipeline_start : UUID → C → Result unit * C;
  do_pipeline_complete : UUID → C → Result unit * C;
  do_pipeline_stop : UUID → C → Result unit * C;
  do_pipeline_begin_stop : UUID → C → Result unit * C;
  do_pipeline_close : UUID → C → Result unit * C;
  do_pipeline_write_error : UUID → WriteErrorArgs → C → Result unit * C;
  do_pipeline_change_state :
    UUID → PSInvocationState → ErrorRecord → bool → C → Result unit * C
}.
Arguments do_receive_data {C} _.
Arguments do_next_event {C} _.
Arguments do_data_to_send {C} _.
Arguments do_pool_close {C} _.
Arguments do_set_broken {C} _.
Arguments pool_state {C} _.
Arguments runspace_pool_id {C} _.
Arguments do_ServerPipeline {C} _.
Arguments pipeline_state {C} _.
Arguments do_pipeline_start {C} _.
Arguments do_pipeline_complete {C} _.
Arguments do_pipeline_stop {C} _.
Arguments do_pipeline_begin_stop {C} _.
Arguments do_pipeline_close {C} _.
Arguments do_pipeline_write_error {C} _.
Arguments do_pipeline_change_state {C} _.

End Codec.
Import Codec.

(** ** The server: transport, workers and script executor *)

Module Server.

(** The threads of the server. *)
Inductive ThreadId :=
| runspace_thread
| pipeline_thread (pipeline_id : UUID).

(** An [xml.etree.ElementTree.Element]: tag, attribute dictionary, text. *)
Record Element := mkElement {
  tag : string;
  attrib : gmap string string;
  text : option string
}.

(** Which waiter and result map a [PSHost] is bound to (lines 627-639). *)
Inductive HostScope := pipeline_host | runspace_host.

(** [PSCmdlet], the facade handed to the script. *)
Record PSCmdlet := mkPSCmdlet {
  cmdlet_pipeline : UUID;
  cmdlet_host : HostScope;
  cmdlet_args : list PyValue;
  cmdlet_params : gmap string PyValue
}.

(** What the modelled thread does to the world outside it, in order. *)
Inductive Action :=
| conn_send (data : bytes)
| codec_call (c : CodecCall)
| thread_start (t : ThreadId)
| thread_join (t : ThreadId)
| queue_put (target : option UUID) (item : option PSRPEvent)
| exec_script (code : string) (cmdlet : PSCmdlet)
| log_exception (msg : string).

(** A [PipelineThread] object: its pipeline and whether [start()] ran. *)
Record PipelineThread := mkPipelineThread {
  pt_pipeline_id : UUID;
  pt_started : bool
}.

(** Outcome of running modelled code: a value, a raised exception, or a
    loop that did not finish within the given number of iterations. *)
Inductive Outcome (A : Type) :=
| Returns (a : A)
| Raises (e : PyExc)
| OutOfFuel.
Arguments Returns {A} a.
Arguments Raises {A} e.
Arguments OutOfFuel {A}.

(** How the read loop stands after the reads given to it. *)
Inductive LoopState :=
| Exited
| Reading (buffer : list bytes).

(** [data.index(c)]: offset of the first [c], [None] for [ValueError]. *)
Fixpoint index (c : byte) (data : bytes) : option nat :=
  match data with
  | [] => None
  | x :: rest => if decide (x = c) then Some 0%nat else S <$> index c rest
  end.

Section WithCodec.

Context {C : Type} (ops : Ops C).

(** [ElementTree.fromstring], [uuid.UUID(hex)], [base64.b64decode] and
    [traceback.format_exc()] belong to the Python library. *)
Variable fromstring : bytes → Result Element.
Variable UUID_of_str : string → Result UUID.
Variable b64decode : string → Result bytes.
Variable format_exc : PyExc → string.

(** The state one thread of the server acts on: the codec, the transport's
    pipeline table, and the actions performed so far. *)
Record World := mkWorld {
  codec : C;
  pipelines : gmap UUID PipelineThread;
  trace : list Action
}.

Definition M (A : Type) : Type := World → Outcome A * World.

Definition ret {A} (a : A) : M A := λ w, (Returns a, w).

Definition bind {A B} (m : M A) (k : A → M B) : M B :=
  λ w, match m w with
       | (Returns a, w') => k a w'
       | (Raises e, w') => (Raises e, w')
       | (OutOfFuel, w') => (OutOfFuel, w')
       end.

Definition raise {A} (e : PyExc) : M A := λ w, (Raises e, w).

Definition out_of_fuel {A} : M A := λ w, (OutOfFuel, w).

Definition lift {A} (r : Result A) : M A :=
  match r with Ok a => ret a | Raise e => raise e end.

(** [try: m  except <class accepted by handles> as e: h e] *)
Definition try_except {A}
    (m : M A) (handles : PyExc → bool) (h : PyExc → M A) : M A :=
  λ w, match m w with
       | (Raises e, w') => if handles e then h e w' else (Raises e, w')
       | r => r
       end.

Definition act (a : Action) : M unit :=
  λ w, (Returns tt, mkWorld (codec w) (pipelines w) (trace w ++ [a])).

(** A call into the codec: recorded, then answered by the codec. *)
Definition call {A} (c : CodecCall) (f : C → Result A * C) : M A :=
  λ w,
    let '(r, c') := f (codec w) in
    let w' := mkWorld c' (pipelines w) (trace w ++ [codec_call c]) in
    match r with
    | Ok a => (Returns a, w')
    | Raise e => (Raises e, w')
    end.

Definition get_pipelines : M (gmap UUID PipelineThread) :=
  λ w, (Returns (pipelines w), w).

Definition set_pipelines (p : gmap UUID PipelineThread) : M unit :=
  λ w, (Returns tt, mkWorld (codec w) p (trace w)).

Definition get_codec : M C := λ w, (Returns (codec w), w).

Notation "x <- m ;; k" := (bind m (λ x, k))
  (at level 100, m at next level, right associativity, only parsing).
Notation "m ;; k" := (bind m (λ _, k))
  (at level 100, right associativity, only parsing).

(** [str(KeyError(key))] for a UUID key. *)
Definition KeyError_UUID (g : UUID) : PyExc :=
  mkExc KeyError ("UUID('" +:+ string_of_list_byte (Uuid.str g) +:+ "')").

(** *** [OutOfProcTransport]: outbound packets (lines 172-205) *)

Definition _write (data : bytes) : M unit := act (conn_send data).

Definition close_ack (pipeline_id : option UUID) : M unit :=
  _write (ps_guid_packet "CloseAck" pipeline_id).

Definition command_ack (pipeline_id : option UUID) : M unit :=
  _write (ps_guid_packet "CommandAck" pipeline_id).

Definition data (d : PSRPPayload) : M unit :=
  _write (ps_data_packet (payload_data d) (payload_stream_type d)
            (payload_pipeline_id d)).

Definition data_ack (pipeline_id : option UUID) : M unit :=
  _write (ps_guid_packet "DataAck" pipeline_id).

Definition signal_ack (pipeline_id : option UUID) : M unit :=
  _write (ps_guid_packet "SignalAck" pipeline_id).

(** [data = self.runspace.data_to_send(); if data: self.transport.data(data)] *)
Definition _send_data : M unit :=
  d <- call data_to_send (do_data_to_send ops) ;;
  match d with
  | Some d => data d
  | None => ret tt
  end.

(** *** [RunspaceThread.close] (lines 335-340) *)

Definition RunspaceThread_close : M unit :=
  call pool_close (do_pool_close ops) ;;
  d <- call data_to_send (do_data_to_send ops) ;;
  match d with
  | Some d => data d
  | None => ret tt
  end ;;
  act (queue_put None None).

(** *** [PipelineThread.close] and [PipelineThread.stop] (lines 521-531) *)

Definition PipelineThread_close (t : PipelineThread) : M unit :=
  let g := pt_pipeline_id t in
  c <- get_codec ;;
  (if decide (pipeline_state ops g c = Running)
   then call (pipeline_begin_stop g) (do_pipeline_begin_stop ops g)
   else ret tt) ;;
  call (pipeline_close g) (do_pipeline_close ops g) ;;
  _ <- call data_to_send (do_data_to_send ops) ;;
  act (queue_put (Some g) None).

Definition PipelineThread_stop (t : PipelineThread) : M unit :=
  let g := pt_pipeline_id t in
  call (pipeline_begin_stop g) (do_pipeline_begin_stop ops g) ;;
  _ <- call data_to_send (do_data_to_send ops) ;;
  ret tt.

(** [threading.Thread.join]: [RuntimeError] before [start()]. *)
Definition PipelineThread_join (t : PipelineThread) : M unit :=
  if pt_started t
  then act (thread_join (pipeline_thread (pt_pipeline_id t)))
  else raise (mkExc RuntimeError "cannot join thread before it is started").

(** [threading.Thread.start] on the thread object held in the table under
    [pipeline_id]: [RuntimeError] on a second start. *)
Definition PipelineThread_start (pipeline_id : UUID) (t : PipelineThread) :
    M unit :=
  if pt_started t
  then raise (mkExc RuntimeError "threads can only be started once")
  else
    p <- get_pipelines ;;
    set_pipelines
      (<[pipeline_id := mkPipelineThread (pt_pipeline_id t) true]> p) ;;
    act (thread_start (pipeline_thread (pt_pipeline_id t))).

(** *** [OutOfProcTransport._process_close] (lines 230-243) *)

Definition _process_close (pipeline_id : option UUID) : M unit :=
  match pipeline_id with
  | Some g =>
      p <- get_pipelines ;;
      match p !! g with
      | None => raise (KeyError_UUID g)
      | Some pipeline =>
          set_pipelines (delete g p) ;;
          PipelineThread_close pipeline ;;
          PipelineThread_join pipeline
      end
  | None =>
      RunspaceThread_close ;;
      act (thread_join runspace_thread)
  end ;;
  close_ack pipeline_id.

(** *** [OutOfProcTransport._process_command] (lines 245-255) *)

Definition _process_command (pipeline_id : option UUID) : M unit :=
  match pipeline_id with
  | Some g =>
      call (ServerPipeline g) (do_ServerPipeline ops g) ;;
      p <- get_pipelines ;;
      let t := default (mkPipelineThread g false) (p !! g) in
      set_pipelines (<[g := t]> p) ;;
      PipelineThread_start g t ;;
      command_ack (Some g)
  | None => ret tt
  end.

(** *** [OutOfProcTransport._process_data] (lines 257-284) *)

(** The [while True] loop of lines 273-282, at most [fuel] iterations. *)
Fixpoint drain_events (fuel : nat) (pipeline_id : option UUID) : M unit :=
  match fuel with
  | O => out_of_fuel
  | S fuel' =>
      event <- call next_event (do_next_event ops) ;;
      match event with
      | None => ret tt
      | Some event =>
          match pipeline_id with
          | Some g =>
              p <- get_pipelines ;;
              match p !! g with
              | None => raise (KeyError_UUID g)
              | Some _ => act (queue_put (Some g) (Some event))
              end
          | None => act (queue_put None (Some event))
          end ;;
          drain_events fuel' pipeline_id
      end
  end.

Definition _process_data
    (fuel : nat) (data : option string) (stream_type : string)
    (pipeline_id : option UUID) : M unit :=
  psrp_data <-
    match data with
    | None | Some "" => ret []
    | Some data => lift (b64decode data)
    end ;;
  let st :=
    if decide (stream_type = "PromptResponse")
    then st_prompt_response else st_default in
  let payload := mkPayload psrp_data st pipeline_id in
  call (receive_data payload) (do_receive_data ops payload) ;;
  drain_events fuel pipeline_id ;;
  data_ack pipeline_id.

(** *** [OutOfProcTransport._process_signal] (lines 286-293) *)

Definition _process_signal (pipeline_id : option UUID) : M unit :=
  match pipeline_id with
  | Some g =>
      p <- get_pipelines ;;
      match p !! g with
      | None => raise (KeyError_UUID g)
      | Some pipeline =>
          PipelineThread_stop pipeline ;;
          signal_ack (Some g)
      end
  | None => ret tt
  end.

(** *** [OutOfProcTransport._process] (lines 207-228) *)

(** (The [return] of line 219 ends a branch that has nothing after it.) *)

Definition _process (fuel : nat) (data : bytes) : M unit :=
  element <- lift (fromstring data) ;;
  PSGuid <-
    match attrib element !! "PSGuid" with
    | Some s => ret s
    | None => raise (mkExc KeyError "'PSGuid'")
    end ;;
  g <- lift (UUID_of_str PSGuid) ;;
  let ps_guid := if decide (g = zero) then None else Some g in
  if decide (tag element = "Close") then _process_close ps_guid
  else if decide (tag element = "Command") then _process_command ps_guid
  else if decide (tag element = "Data") then
    _process_data fuel (text element)
      (default "" (attrib element !! "Stream")) ps_guid
  else if decide (tag element = "Signal") then _process_signal ps_guid
  else ret tt.

(** *** [OutOfProcTransport.run] (lines 116-170) *)

(** The [ErrorRecord] of lines 142-155. *)
Definition process_failure_record (e : PyExc) (c : C) : ErrorRecord :=
  mkErrorRecord
    (mkNETException (exc_str e) (Some (format_exc e)))
    (mkErrorCategoryInfo ReadError
       (Some "Parsing PSRP msg")
       (Some "Unknown result")
       (Some ("RunspacePool("
                +:+ string_of_list_byte (Uuid.str (runspace_pool_id ops c))
                +:+ ")"))
       (Some "RunspaceThread"))
    (Some "ProcessRunspaceMessageFailure").

(** Lines 136-168: [true] to go on reading, [false] after [break]. *)
Definition process_guarded (fuel : nat) (raw_element : bytes) : M bool :=
  try_except (_process fuel raw_element ;; ret true) is_Exception
    (λ e,
       act (log_exception "Unknown exception during message processing") ;;
       c <- get_codec ;;
       let err := process_failure_record e c in
       if decide (pool_state ops c ∈ [RP_Opened; RP_Broken])
       then
         call (set_broken err) (do_set_broken ops err) ;;
         resp <- call data_to_send (do_data_to_send ops) ;;
         match resp with
         | Some resp => data resp
         | None => ret tt
         end ;;
         ret false
       else raise e).

(** The read loop over the successive results of [conn.read], with the
    packet handler as a parameter.  An empty read ends the loop; when the
    given reads are used up the loop is waiting in [conn.read]. *)
Fixpoint run_loop
    (handle : bytes → M bool) (reads : list bytes) (buffer : list bytes) :
    M LoopState :=
  match reads with
  | [] => ret (Reading buffer)
  | data :: reads' =>
      if decide (data = []) then ret Exited
      else
        match index LF data with
        | None => run_loop handle reads' (buffer ++ [data])
        | Some end_idx =>
            let raw_element := concat buffer ++ take end_idx data in
            let buffer := [drop (S end_idx) data] in
            continue <- handle raw_element ;;
            if continue : bool then run_loop handle reads' buffer
            else ret Exited
        end
  end.

Definition run (fuel : nat) (reads : list bytes) : M LoopState :=
  act (thread_start runspace_thread) ;;
  run_loop (process_guarded fuel) reads [].

(** *** [PipelineThread._exec] (lines 442-519) *)

(** The loop of lines 452-458 over the command's raw parameters. *)
Definition exec_parameters
    (raw_parameters : list (option string * PyValue)) :
    list PyValue * gmap string PyValue :=
  foldl
    (λ '(arguments, parameters) '(raw_name, raw_value),
       let arguments := arguments ++ [raw_value] in
       match raw_name with
       | Some raw_name => (arguments, <[raw_name := raw_value]> parameters)
       | None => (arguments, parameters)
       end)
    ([], ∅) raw_parameters.

(** Whether the pipeline carries host information of its own
    ([pipeline.metadata.host] present and not [UseRunspaceHost]). *)
Variable uses_pipeline_host : UUID → C → bool.

(** [PSCmdlet(_pipeline=self, input=..., host=PSHost(self), args=...,
    params=...)] *)
Definition exec_cmdlet
    (pipeline_id : UUID) (c : C)
    (raw_parameters : list (option string * PyValue)) : PSCmdlet :=
  let '(arguments, parameters) := exec_parameters raw_parameters in
  mkPSCmdlet pipeline_id
    (if uses_pipeline_host pipeline_id c then pipeline_host else runspace_host)
    arguments parameters.

(** [exec(code, exec_globals)]: the script acts on the world through the
    facade and returns or raises. *)
Variable exec : string → PSCmdlet → M unit.

(** The [ErrorRecord] of the [SyntaxError] handler (lines 484-494). *)
Definition invalid_syntax_record (e : PyExc) : ErrorRecord :=
  mkErrorRecord
    (mkNETException (exc_str e) (Some (format_exc e)))
    (mkErrorCategoryInfo ParserError None (Some "InvalidPythonSyntax")
       None None)
    (Some "InvalidPythonSyntax").

(** The arguments of [write_error] in the [Exception] handler
    (lines 503-513). *)
Definition uncaught_exception_args (e : PyExc) : WriteErrorArgs :=
  mkWriteErrorArgs
    (mkNETException (exc_str e) (Some (format_exc e)))
    (mkErrorCategoryInfo NotSpecified None (Some "UncaughtPythonException")
       None None)
    (Some "UncaughtPythonException").

(** The inner [try] statement (lines 475-514): the first [except] clause
    whose class matches handles the exception. *)
Definition run_script (pipeline_id : UUID) (code : string) (cmdlet : PSCmdlet) :
    M unit :=
  try_except
    (act (exec_script code cmdlet) ;;
     exec code cmdlet ;;
     call (pipeline_complete pipeline_id) (do_pipeline_complete ops pipeline_id))
    (λ e, is_SyntaxError e || is_SystemExit e || is_Exception e)
    (λ e,
       if is_SyntaxError e then
         act (log_exception "Attempted to run code with invalid syntax") ;;
         call
           (pipeline_change_state pipeline_id Failed
              (invalid_syntax_record e) true)
           (do_pipeline_change_state ops pipeline_id Failed
              (invalid_syntax_record e) true)
       else if is_SystemExit e then
         call (pipeline_stop pipeline_id) (do_pipeline_stop ops pipeline_id)
       else
         act (log_exception "Exception when running code") ;;
         call
           (pipeline_write_error pipeline_id (uncaught_exception_args e))
           (do_pipeline_write_error ops pipeline_id
              (uncaught_exception_args e)) ;;
         call (pipeline_complete pipeline_id)
           (do_pipeline_complete ops pipeline_id)).

Definition _exec
    (pipeline_id : UUID) (code : string)
    (raw_parameters : list (option string * PyValue)) : M unit :=
  try_except
    (call (pipeline_start pipeline_id) (do_pipeline_start ops pipeline_id) ;;
     _ <- call data_to_send (do_data_to_send ops) ;;
     c <- get_codec ;;
     let cmdlet := exec_cmdlet pipeline_id c raw_parameters in
     run_script pipeline_id code cmdlet ;;
     _send_data)
    is_Exception
    (λ e, act (log_exception "Unhandled exception in Python worker thread")).

End WithCodec.

End Server.

(** ** [PSHost._send_data_with_response] (lines 681-703) *)

Module Host.

(** What the waiting thread shares with the worker that stores host
    responses and with the codec: the bound result map and the state of
    the owning pipeline. *)
Record Shared := mkShared {
  _result : gmap Z PyValue;
  pipeline_state : PSInvocationState
}.

(** [threading.Condition.wait_for(predicate)].  The observations are the
    shared state when the call is made and at each later wake-up; the call
    returns at the first one that satisfies the predicate and is still
    waiting when none does. *)
Fixpoint wait_for (predicate : Shared → bool) (observations : list Shared) :
    option Shared :=
  match observations with
  | [] => None
  | s :: later => if predicate s then Some s else wait_for predicate later
  end.

(** The predicate of lines 686-688. *)
Definition response_or_not_running (call_id : Z) (s : Shared) : bool :=
  bool_decide (is_Some (_result s !! call_id))
  || bool_decide (pipeline_state s ≠ Running).

(** Truth value of a host result: [None], [0] and the empty string are
    false; an [ErrorRecord] defines neither [__bool__] nor [__len__]. *)
Definition truthy (v : PyValue) : bool :=
  match v with
  | PyNone => false
  | PyStr s => negb (bool_decide (s = ""))
  | PyInt z => negb (bool_decide (z = 0%Z))
  | PyErrorRecord _ => true
  | PyObject _ => true
  end.

(** How the call ends: the value returned or the exception raised, with
    the result map it leaves; or still blocked in [wait_for]. *)
Inductive HostCall :=
| host_returns (result : PyValue) (_result' : gmap Z PyValue)
| host_raises (e : PyExc) (_result' : gmap Z PyValue)
| host_blocked.

(** Lines 692-703, on the state the wait ended with. *)
Definition after_wait (call_id : Z) (s : Shared) : HostCall :=
  match _result s !! call_id with
  | Some result =>
      let _result' := delete call_id (_result s) in
      match result with
      | PyErrorRecord er =>
          if truthy result
          then host_raises
                 (mkExc PlainException
                    ("Received error from host call: "
                       +:+ Message (Exception er)))
                 _result'
          else host_returns result _result'
      | _ => host_returns result _result'
      end
  | None => host_raises (mkExc SystemExit "") (_result s)
  end.

(** The wait of lines 685-689 and what follows it.  (The [_send_data()]
    of line 683, made before the wait, is [Server._send_data].) *)
Definition _send_data_with_response
    (call_id : Z) (observations : list Shared) : HostCall :=
  match wait_for (response_or_not_running call_id) observations with
  | None => host_blocked
  | Some s => after_wait call_id s
  end.

End Host.

(** ** Concrete stand-ins for the library, used by the closed examples *)

Module Fixture.

Import Server.

(** [binascii.a2b_base64] in its default, lenient mode, which
    [base64.b64decode] calls: characters outside the alphabet are skipped,
    a pad that completes a quad ends the input, and leftover characters
    are an error. *)
Definition b64_value (c : byte) : option N :=
  N.of_nat <$> (fst <$> list_find (λ x, x = c) Base64.alphabet).

Fixpoint a2b_base64
    (s : bytes) (quad_pos leftchar pads : N) (bin_data : bytes) :
    Result bytes :=
  match s with
  | [] =>
      if quad_pos =? 0 then Ok bin_data
      else if quad_pos =? 1
      then
        Raise
          (mkExc BinasciiError
             ("Invalid base64-encoded string: number of data characters ("
                +:+ str_of_N (N.of_nat (length bin_data / 3 * 4 + 1))
                +:+ ") cannot be 1 more than a multiple of 4"))
      else Raise (mkExc BinasciiError "Incorrect padding")
  | this_ch :: rest =>
      if decide (this_ch = PAD) then
        if 2 <=? quad_pos then
          if 4 <=? quad_pos + (pads + 1) then Ok bin_data
          else a2b_base64 rest quad_pos leftchar (pads + 1) bin_data
        else a2b_base64 rest quad_pos leftchar pads bin_data
      else
        match b64_value this_ch with
        | None => a2b_base64 rest quad_pos leftchar pads bin_data
        | Some v =>
            let emit n := bin_data ++ [default x00 (Byte.of_N (N.land n 255))] in
            if quad_pos =? 0 then a2b_base64 rest 1 v 0 bin_data
            else if quad_pos =? 1 then
              a2b_base64 rest 2 (N.land v 15) 0
                (emit (N.lor (N.shiftl leftchar 2) (N.shiftr v 4)))
            else if quad_pos =? 2 then
              a2b_base64 rest 3 (N.land v 3) 0
                (emit (N.lor (N.shiftl leftchar 4) (N.shiftr v 2)))
            else
              a2b_base64 rest 0 0 0 (emit (N.lor (N.shiftl leftchar 6) v))
        end
  end.

(** [base64.b64decode(s)] for a [str]: the text must be ASCII. *)
Definition b64decode (s : string) : Result bytes :=
  if forallb (λ c, Byte.to_N c <? 128) (encode s)
  then a2b_base64 (encode s) 0 0 0 []
  else
    Raise
      (mkExc ValueError
         "string argument should contain only ASCII characters").

(** [uuid.UUID(hex)] on strings of hexadecimal digits and hyphens: the
    hyphens are dropped, 32 digits must remain, and they are read in
    base 16.  (The [urn:uuid:] prefix, braces and the sign, prefix and
    underscore syntax of [int()] are left out: such strings are reported
    as [ValueError] here.) *)
Definition UUID_of_str (s : string) : Result UUID :=
  let hex := filter (λ c, c ≠ HYPHEN) (encode s) in
  if decide (length hex = 32%nat) then
    match Hex.value hex ≫= UUID_of_int with
    | Some g => Ok g
    | None => Raise (mkExc ValueError "invalid literal for int() with base 16")
    end
  else Raise (mkExc ValueError "badly formed hexadecimal UUID string").

(** [ElementTree.fromstring] on the one-element documents of the wire
    grammar: [<Tag a='v' ... />] and [<Tag a='v' ...>text</Tag>], with
    either quote and no entity references.  Anything else is reported as
    [ParseError]. *)
Definition is_space (c : byte) : bool :=
  bool_decide (c ∈ [x20; x09; x0a; x0d]).

Definition is_name_start (c : byte) : bool :=
  let n := Byte.to_N c in
  ((65 <=? n) && (n <=? 90)) || ((97 <=? n) && (n <=? 122)) || (n =? 95).

Definition is_name_char (c : byte) : bool :=
  let n := Byte.to_N c in
  is_name_start c || ((48 <=? n) && (n <=? 57)) || (n =? 45) || (n =? 46).

Fixpoint span (p : byte → bool) (l : bytes) : bytes * bytes :=
  match l with
  | c :: rest =>
      if p c then let '(a, b) := span p rest in (c :: a, b) else ([], l)
  | [] => ([], [])
  end.

Definition plain_text (l : bytes) : bool :=
  forallb (λ c, negb (bool_decide (c ∈ [x26; x3c]))) l.

Fixpoint parse_attributes
    (fuel : nat) (l : bytes) (attrib : gmap string string) :
    option (gmap string string * bytes) :=
  match fuel with
  | O => None
  | S fuel' =>
      let '(spaces, l1) := span is_space l in
      match l1 with
      | c :: _ =>
          if is_name_start c then
            if decide (spaces = []) then None
            else
              let '(name, l2) := span is_name_char l1 in
              match l2 with
              | eq :: quote :: l3 =>
                  if bool_decide (eq = x3d)
                     && bool_decide (quote ∈ [x27; x22])
                  then
                    let '(value, l4) :=
                      span (λ c, negb (bool_decide (c = quote))) l3 in
                    match l4 with
                    | _ :: l5 =>
                        let name := string_of_list_byte name in
                        if plain_text value
                           && bool_decide (attrib !! name = None)
                        then
                          parse_attributes fuel' l5
                            (<[name := string_of_list_byte value]> attrib)
                        else None
                    | [] => None
                    end
                  else None
              | _ => None
              end
          else Some (attrib, l1)
      | [] => Some (attrib, [])
      end
  end.

Definition fromstring (data : bytes) : Result Element :=
  let malformed := Raise (mkExc ParseError "not well-formed") in
  match data with
  | lt :: l =>
      let '(name, l1) := span is_name_char l in
      if bool_decide (lt = x3c) && forallb is_name_start (take 1 name)
         && negb (bool_decide (name = []))
      then
        match parse_attributes (S (length l1)) l1 ∅ with
        | Some (attrib, l2) =>
            let tag := string_of_list_byte name in
            match l2 with
            | c1 :: c2 :: l3 =>
                if bool_decide (c1 = x2f) && bool_decide (c2 = x3e) then
                  if forallb is_space l3
                  then Ok (mkElement tag attrib None)
                  else malformed
                else if bool_decide (c1 = x3e) then
                  let '(text, l4) :=
                    span (λ c, negb (bool_decide (c = x3c))) (c2 :: l3) in
                  let '(close, l5) := span is_name_char (drop 2 l4) in
                  let '(_, l6) := span is_space l5 in
                  if bool_decide (take 2 l4 = [x3c; x2f])
                     && bool_decide (close = name)
                     && bool_decide (take 1 l6 = [x3e])
                     && forallb is_space (drop 1 l6)
                     && plain_text text
                  then
                    Ok (mkElement tag attrib
                          (if decide (text = []) then None
                           else Some (string_of_list_byte text)))
                  else malformed
                else malformed
            | _ => malformed
            end
        | None => malformed
        end
      else malformed
  | [] => malformed
  end.

(** [traceback.format_exc()], as a fixed text. *)
Definition format_exc (e : PyExc) : string :=
  "Traceback (most recent call last): " +:+ exc_str e.

(** A small codec: outbound payloads queue up and [data_to_send] hands
    out the oldest; [next_event] hands out events from a given list. *)
Record ToyCodec := mkToy {
  toy_state : RunspacePoolState;
  toy_id : UUID;
  toy_pipelines : gmap UUID PSInvocationState;
  toy_events : list PSRPEvent;
  toy_outbound : list PSRPPayload
}.

Definition toy_emit (text : string) (g : option UUID) (c : ToyCodec) :
    ToyCodec :=
  mkToy (toy_state c) (toy_id c) (toy_pipelines c) (toy_events c)
    (toy_outbound c ++ [mkPayload (encode text) st_default g]).

Definition toy_set_state (st : RunspacePoolState) (c : ToyCodec) : ToyCodec :=
  mkToy st (toy_id c) (toy_pipelines c) (toy_events c) (toy_outbound c).

Definition toy_set_pipeline
    (g : UUID) (st : option PSInvocationState) (c : ToyCodec) : ToyCodec :=
  mkToy (toy_state c) (toy_id c)
    (match st with
     | Some st => <[g := st]> (toy_pipelines c)
     | None => delete g (toy_pipelines c)
     end)
    (toy_events c) (toy_outbound c).

Definition toy_ops : Ops ToyCodec := {|
  do_receive_data := λ _ c, (Ok tt, c);
  do_next_event := λ c,
    match toy_events c with
    | [] => (Ok None, c)
    | e :: rest =>
        (Ok (Some e),
         mkToy (toy_state c) (toy_id c) (toy_pipelines c) rest
           (toy_outbound c))
    end;
  do_data_to_send := λ c,
    match toy_outbound c with
    | [] => (Ok None, c)
    | d :: rest =>
        (Ok (Some d),
         mkToy (toy_state c) (toy_id c) (toy_pipelines c) (toy_events c) rest)
    end;
  do_pool_close := λ c,
    (Ok tt, toy_emit "pool-closed" None (toy_set_state RP_Closed c));
  do_set_broken := λ _ c,
    (Ok tt, toy_emit "pool-broken" None (toy_set_state RP_Broken c));
  pool_state := toy_state;
  runspace_pool_id := toy_id;
  do_ServerPipeline := λ g c, (Ok tt, toy_set_pipeline g (Some NotStarted) c);
  Codec.pipeline_state := λ g c, default NotStarted (toy_pipelines c !! g);
  do_pipeline_start := λ g c, (Ok tt, toy_set_pipeline g (Some Running) c);
  do_pipeline_complete := λ g c,
    (Ok tt,
     toy_emit "pipeline-completed" (Some g)
       (toy_set_pipeline g (Some Completed) c));
  do_pipeline_stop := λ g c,
    (Ok tt,
     toy_emit "pipeline-stopped" (Some g)
       (toy_set_pipeline g (Some Stopped) c));
  do_pipeline_begin_stop := λ g c,
    (Ok tt, toy_set_pipeline g (Some Stopping) c);
  do_pipeline_close := λ g c, (Ok tt, toy_set_pipeline g None c);
  do_pipeline_write_error := λ g _ c,
    (Ok tt, toy_emit "error-record" (Some g) c);
  do_pipeline_change_state := λ g st _ emit c,
    (Ok tt,
     (if emit : bool then toy_emit "pipeline-state" (Some g) else id)
       (toy_set_pipeline g (Some st) c))
|}.

End Fixture.

(** ** Observations on traces *)

Module Trace.

Import Server.

(** The byte strings written to the connection, in order. *)
Definition sends (tr : list Action) : list bytes :=
  omap (λ a, match a with conn_send d => Some d | _ => None end) tr.

(** What was put on the event queues, in order: the queue (a pipeline's
    or, for [None], the runspace's) and the item ([None] is the
    sentinel). *)
Definition queue_puts (tr : list Action) :
    list (option UUID * option PSRPEvent) :=
  omap (λ a, match a with queue_put t i => Some (t, i) | _ => None end) tr.

Definition ack_tags : list string :=
  ["CloseAck"; "CommandAck"; "DataAck"; "SignalAck"].

Definition has_prefix (p l : bytes) : bool :=
  bool_decide (take (length p) l = p).

(** A written packet is an ack when it opens with one of the ack tags. *)
Definition is_ack_packet (d : bytes) : bool :=
  existsb (λ t, has_prefix (encode ("<" +:+ t +:+ " PSGuid='")) d) ack_tags.

(** The ack packets written to the connection, in order. *)
Definition acks (tr : list Action) : list bytes :=
  filter (λ d, is_ack_packet d = true) (sends tr).

(** [if ps_guid == uuid.UUID(int=0): ps_guid = None] (lines 211-212) *)
Definition pipeline_scope (g : UUID) : option UUID :=
  if decide (g = zero) then None else Some g.

(** The table holds started threads under their own pipeline id, and
    never under the all-zero GUID. *)
Definition table_ok (p : gmap UUID PipelineThread) : Prop :=
  ∀ g t, p !! g = Some t →
    pt_pipeline_id t = g ∧ pt_started t = true ∧ g ≠ zero.

End Trace.

(** ** Predicates on the computations of the server *)

Module ServerLogic.

Import Server Trace.

Section WithCodec.

Context {C : Type} (ops : Ops C).

(** [emits m P]: whatever [m] does, it only appends to the trace, and
    what it appends satisfies [P]. *)
Definition emits {A} (m : M (C:=C) A) (P : list Action → Prop) : Prop :=
  ∀ w r w', m w = (r, w') → ∃ delta, trace w' = trace w ++ delta ∧ P delta.

(** Sending no ack packet. *)
Definition ackless (delta : list Action) : Prop := acks delta = [].

(** [returns_acks m l]: whenever [m] returns, it has appended to the
    trace, and the ack packets among what it wrote are exactly [l]. *)
Definition returns_acks {A} (m : M (C:=C) A) (l : list bytes) : Prop :=
  ∀ w a w', m w = (Returns a, w') →
    ∃ delta, trace w' = trace w ++ delta ∧ acks delta = l.

(** [same_table m]: [m] leaves the pipeline table as it is. *)
Definition same_table {A} (m : M (C:=C) A) : Prop :=
  ∀ w r w', m w = (r, w') → pipelines w' = pipelines w.

(** [finishes m]: [m] returns or raises; no loop of it is cut short. *)
Definition finishes {A} (m : M (C:=C) A) : Prop :=
  ∀ w, (m w).1 ≠ OutOfFuel.

(** [events_end c n]: from codec state [c], [next_event] hands out [n]
    events and then answers [None] or raises. *)
Inductive events_end : C → nat → Prop :=
| events_end_now c c' :
    do_next_event ops c = (Ok None, c') → events_end c 0
| events_end_raise c e c' :
    do_next_event ops c = (Raise e, c') → events_end c 0
| events_end_later c event c' n :
    do_next_event ops c = (Ok (Some event), c') →
    events_end c' n → events_end c (S n).

End WithCodec.

End ServerLogic.

(** ** Packet framing of the read loop *)

Module Framing.

Import Server.

(** The raw elements the read loop of [run] hands to its packet handler
    for the given reads, as long as the handler lets it continue, and the
    state the loop is left in. *)
Fixpoint framed (reads : list bytes) (buffer : list bytes) :
    list bytes * LoopState :=
  match reads with
  | [] => ([], Reading buffer)
  | data :: reads' =>
      if decide (data = []) then ([], Exited)
      else
        match index LF data with
        | None => framed reads' (buffer ++ [data])
        | Some end_idx =>
            let raw_element := concat buffer ++ take end_idx data in
            let '(later, state) := framed reads' [drop (S end_idx) data] in
            (raw_element :: later, state)
        end
  end.

(** Handling the given packets in order until the handler says stop. *)
Fixpoint feed {C} (handle : bytes → M (C:=C) bool)
    (packets : list bytes) (final : LoopState) : M LoopState :=
  match packets with
  | [] => ret final
  | p :: later =>
      bind (handle p)
        (λ continue : bool, if continue then feed handle later final
                            else ret Exited)
  end.

(** The packets of a byte stream as the wire format defines them: the
    runs between line feeds, each ended by its line feed. *)
Fixpoint packets_of_stream (stream : bytes) (current : bytes) : list bytes :=
  match stream with
  | [] => []
  | c :: rest =>
      if decide (c = LF) then current :: packets_of_stream rest []
      else packets_of_stream rest (current ++ [c])
  end.

End Framing.

(** ** The script executor as the specification words it *)

Module ExecutorSpec.

(** The [write_error] arguments the specification names for an uncaught
    script exception. *)
Definition spec_uncaught_exception_args
    (message : string) (stack_trace : option string) : WriteErrorArgs :=
  mkWriteErrorArgs
    (mkNETException message stack_trace)
    (mkErrorCategoryInfo NotSpecified None (Some "UncaughtScriptException")
       None None)
    (Some "UncaughtScriptException").

(** "The values of the unnamed pairs, in order". *)
Definition unnamed_values (L : list (option string * PyValue)) : list PyValue :=
  omap (λ '(name, value), match name with None => Some value | Some _ => None end) L.

(** The value a name is bound to by the named pairs: that of the last pair
    carrying the name. *)
Definition named_value (L : list (option string * PyValue)) (name : string) :
    option PyValue :=
  last (omap (λ '(n, value), if decide (n = Some name) then Some value else None) L).

(** What one pair of the list does to the named-parameter map. *)
Definition bind_parameter
    (parameters : gmap string PyValue) (pair : option string * PyValue) :
    gmap string PyValue :=
  match pair.1 with
  | Some raw_name => <[raw_name := pair.2]> parameters
  | None => parameters
  end.

End ExecutorSpec.

(** ** Concrete packets and worlds for the closed examples *)

Module Scenario.

Import Server Trace Fixture.

Definition pool_guid : UUID := mkUUID 0xa0000000000000000000000000000000 I.
Definition P1 : UUID := mkUUID 1 I.

(** A pool that is Opened, with no pipeline and nothing pending. *)
Definition codec0 : ToyCodec := mkToy RP_Opened pool_guid ∅ [] [].
Definition world0 : World := mkWorld codec0 ∅ [].

(** Pipeline [P1] is live and Running, and the codec holds one outbound
    payload of that pipeline that has not been sent yet. *)
Definition pending : PSRPPayload :=
  mkPayload (encode "output") st_default (Some P1).
Definition codec_live : ToyCodec :=
  mkToy RP_Opened pool_guid {[P1 := Running]} [] [pending].
Definition world_live : World :=
  mkWorld codec_live {[P1 := mkPipelineThread P1 true]} [].

Definition process_packet (fuel : nat) (raw : string) :
    World → Outcome unit * World :=
  _process toy_ops fromstring UUID_of_str b64decode fuel (encode raw).

(** One read holding the packet and its line feed. *)
Definition chunk (raw : string) : bytes := encode raw ++ [LF].

Definition read_loop (fuel : nat) (reads : list bytes) :
    World → Outcome LoopState * World :=
  run_loop (process_guarded toy_ops fromstring UUID_of_str b64decode
              format_exc fuel)
    reads [].

Definition Command_P1 : string :=
  "<Command PSGuid='00000000-0000-0000-0000-000000000001' />".
Definition Close_P1 : string :=
  "<Close PSGuid='00000000-0000-0000-0000-000000000001' />".
Definition Signal_P1 : string :=
  "<Signal PSGuid='00000000-0000-0000-0000-000000000001' />".
Definition Signal_pool : string :=
  "<Signal PSGuid='00000000-0000-0000-0000-000000000000' />".
Definition Bogus_P1 : string :=
  "<Bogus PSGuid='00000000-0000-0000-0000-000000000001' />".
Definition Close_bad_guid : string := "<Close PSGuid='not-a-guid' />".
Definition Data_not_base64 : string :=
  "<Data Stream='Default' PSGuid='00000000-0000-0000-0000-000000000000'>!!!!</Data>".

Definition Data_P1 : string :=
  "<Data Stream='Default' PSGuid='00000000-0000-0000-0000-000000000001'>aGkh</Data>".
Definition Close_pool : string :=
  "<Close PSGuid='00000000-0000-0000-0000-000000000000' />".

(** The pool holds the CreatePipeline event that the first Data packet
    will release. *)
Definition create_pipeline : PSRPEvent :=
  CreatePipelineEvent true "cmdlet.write_output(1 + 1)" [].
Definition world_session : World :=
  mkWorld (mkToy RP_Opened pool_guid ∅ [create_pipeline] []) ∅ [].

(** A script that raises [ValueError("boom")] at once. *)
Definition raising_script : string → PSCmdlet → M (C:=ToyCodec) unit :=
  λ _ _, raise (mkExc ValueError "boom").

Definition run_raising_script : World → Outcome unit * World :=
  run_script toy_ops format_exc raising_script P1 "raise ValueError('boom')"
    (mkPSCmdlet P1 runspace_host [] ∅).

(** Host-call observations: twice nothing yet, then the response to call
    7 has been stored. *)
Definition waiting : Host.Shared := Host.mkShared ∅ Running.

End Scenario.

(** ** The events a Data packet releases *)

Module Events.

Import Server.

(** [events_from ops c es c']: from codec state [c], [next_event] hands
    out the events [es], in order, then answers [None], leaving the codec
    in state [c']. *)
Inductive events_from {C} (ops : Ops C) : C → list PSRPEvent → C → Prop :=
| events_from_nil c c' :
    do_next_event ops c = (Ok None, c') → events_from ops c [] c'
| events_from_cons c e c1 es c' :
    do_next_event ops c = (Ok (Some e), c1) →
    events_from ops c1 es c' → events_from ops c (e :: es) c'.

(** What the event loop of [_process_data] does for the events [es]: a
    [next_event] call and a [put] for each, and the [next_event] call that
    is answered [None]. *)
Definition drained (pipeline_id : option UUID) (es : list PSRPEvent) :
    list Action :=
  flat_map
    (λ e, [codec_call next_event; queue_put pipeline_id (Some e)]) es
    ++ [codec_call next_event].

End Events.

(** ** Packets as an XML parser reads them *)

Module Wire.

Import Server.

(** The element an XML parser reads from the packet
    [ps_data_packet data stream_type ps_guid]: tag [Data], the two
    attributes, and the base64 body as text ([None] when it is empty). *)
Definition data_element
    (data : bytes) (stream_type : StreamType) (ps_guid : option UUID) :
    Element :=
  mkElement "Data"
    (<["Stream" := string_of_list_byte (stream_attribute stream_type)]>
       {["PSGuid" := string_of_list_byte (lower (Uuid.str (or_zero ps_guid)))]})
    (match Base64.b64encode data with
     | [] => None
     | body => Some (string_of_list_byte body)
     end).

(** A packet without the line feed that ends it. *)
Definition unframed (packet : bytes) : bytes :=
  take (length packet - 1) packet.

End Wire.

(** ** The connections ([StdioConnection], [PipeConnection]) *)

Module Connections.

Import Server.

(** [OutOfProcTransport._BUFFER] *)
Definition _BUFFER : N := 32768.

(** [sys.stdin.buffer.readline()] on what is left of standard input: the
    bytes up to and including the next line feed, or all that is left
    when there is none ([b""] at the end of input); and what is left
    afterwards. *)
Definition readline (stdin : bytes) : bytes * bytes :=
  match index LF stdin with
  | Some i => (take (S i) stdin, drop (S i) stdin)
  | None => (stdin, [])
  end.

(** [StdioConnection.read(length)] (lines 93-94): [length] is not used. *)
Definition StdioConnection_read (length : N) (stdin : bytes) :
    bytes * bytes :=
  readline stdin.

(** The results of [n] successive [conn.read(self._BUFFER)] calls. *)
Fixpoint StdioConnection_reads (n : nat) (stdin : bytes) : list bytes :=
  match n with
  | O => []
  | S n' =>
      let '(data, stdin') := StdioConnection_read _BUFFER stdin in
      data :: StdioConnection_reads n' stdin'
  end.

(** A socket object. *)
Definition Socket := N.

(** The operating system as [PipeConnection] uses it: a state of some
    type [S] and, for each call, the value it returns or the exception it
    raises together with the state it leaves. *)
Record SocketOps (S : Type) := mkSocketOps {
  do_unlink : string → S → Result unit * S;
  do_socket : S → Result Socket * S;
  do_bind : Socket → string → S → Result unit * S;
  do_listen : Socket → N → S → Result unit * S;
  do_accept : Socket → S → Result Socket * S;
  do_close : Socket → S → Result unit * S;
  do_recv : Socket → N → S → Result bytes * S;
  do_sendall : Socket → bytes → S → Result unit * S
}.
Arguments do_unlink {S} _.
Arguments do_socket {S} _.
Arguments do_bind {S} _.
Arguments do_listen {S} _.
Arguments do_accept {S} _.
Arguments do_close {S} _.
Arguments do_recv {S} _.
Arguments do_sendall {S} _.

(** The attributes of a [PipeConnection] object. *)
Record PipeConnection := mkPipeConnection {
  _name : string;
  _sock : Socket;
  _conn : option Socket
}.

(** [isinstance(e, FileNotFoundError)] *)
Definition is_FileNotFoundError (e : PyExc) : bool :=
  match exc_class e with
  | Exception_other name => String.eqb name "FileNotFoundError"
  | _ => false
  end.

Section WithSockets.

Context {S : Type} (sys : SocketOps S).

(** A method acts on the object and on the operating system. *)
Definition IO (A : Type) : Type :=
  PipeConnection * S → Result A * (PipeConnection * S).

Definition io_ret {A} (a : A) : IO A := λ st, (Ok a, st).

Definition io_bind {A B} (m : IO A) (k : A → IO B) : IO B :=
  λ st, match m st with
        | (Ok a, st') => k a st'
        | (Raise e, st') => (Raise e, st')
        end.

Definition io_raise {A} (e : PyExc) : IO A := λ st, (Raise e, st).

(** A call into the operating system. *)
Definition syscall {A} (f : S → Result A * S) : IO A :=
  λ '(self, s), let '(r, s') := f s in (r, (self, s')).

Definition get_self : IO PipeConnection := λ st, (Ok st.1, st).

Definition set_sock (sock : Socket) : IO unit :=
  λ '(self, s), (Ok tt, (mkPipeConnection (_name self) sock (_conn self), s)).

Definition set_conn (conn : option Socket) : IO unit :=
  λ '(self, s), (Ok tt, (mkPipeConnection (_name self) (_sock self) conn, s)).

(** [try: m  except FileNotFoundError: pass] *)
Definition ignore_FileNotFoundError (m : IO unit) : IO unit :=
  λ st, match m st with
        | (Raise e, st') =>
            if is_FileNotFoundError e then (Ok tt, st') else (Raise e, st')
        | r => r
        end.

(** [PipeConnection.__init__] (lines 46-49), from the operating-system
    state alone. *)
Definition PipeConnection_init (name : string) (s : S) :
    Result PipeConnection * S :=
  match do_socket sys s with
  | (Ok sock, s') => (Ok (mkPipeConnection name sock None), s')
  | (Raise e, s') => (Raise e, s')
  end.

(** [PipeConnection.__enter__] (lines 51-63) *)
Definition PipeConnection_enter (os_name : string) : IO unit :=
  io_bind get_self (λ self,
  io_bind
    (if bool_decide (os_name ≠ "nt")
     then ignore_FileNotFoundError (syscall (do_unlink sys (_name self)))
     else io_ret tt) (λ _,
  io_bind (syscall (do_socket sys)) (λ sock,
  io_bind (set_sock sock) (λ _,
  io_bind (syscall (do_bind sys sock (_name self))) (λ _,
  io_bind (syscall (do_listen sys sock 1)) (λ _,
  io_bind (syscall (do_accept sys sock)) (λ conn,
  set_conn (Some conn)))))))).

(** [PipeConnection.__exit__] (lines 65-69) *)
Definition PipeConnection_exit : IO unit :=
  io_bind get_self (λ self,
  io_bind
    match _conn self with
    | Some conn => syscall (do_close sys conn)
    | None => io_ret tt
    end (λ _,
  io_bind (set_conn None) (λ _,
  io_bind get_self (λ self,
  syscall (do_close sys (_sock self)))))).

(** [PipeConnection._get_conn] (lines 79-83) *)
Definition _get_conn : IO Socket :=
  io_bind get_self (λ self,
  match _conn self with
  | None => io_raise (mkExc PlainException "Connection has not been opened")
  | Some conn => io_ret conn
  end).

(** [PipeConnection.read] (lines 71-73) *)
Definition PipeConnection_read (length : N) : IO bytes :=
  io_bind _get_conn (λ conn, syscall (do_recv sys conn length)).

(** [PipeConnection.send] (lines 75-77) *)
Definition PipeConnection_send (data : bytes) : IO unit :=
  io_bind _get_conn (λ conn, syscall (do_sendall sys conn data)).

End WithSockets.

End Connections.

(** ** The worker threads' event loops ([RunspaceThread.run],
    [PipelineThread.run]) *)

Module Threads.

Import Server.

(** [event.error if event.error is not None else event.result] *)
Definition host_response_value
    (result : PyValue) (error : option ErrorRecord) : PyValue :=
  match error with
  | Some er => PyErrorRecord er
  | None => result
  end.

(** How a thread's loop over its event queue stands: left through
    [break], or blocked in [event_queue.get()]. *)
Inductive LoopEnd := Ended | Waiting.

(** The variables of [PipelineThread.run] and the attributes of the
    thread it changes: [pipeline_input], [pipeline_complete],
    [_host_result], and the worker threads it has started, each given by
    the script and the parameters passed to [_exec]. *)
Record Locals := mkLocals {
  pipeline_input : list PyValue;
  pipeline_complete : bool;
  _host_result : gmap Z PyValue;
  workers : list (string * list (option string * PyValue))
}.

(** The state [PipelineThread.run] starts its loop with (lines 367-368);
    [_host_result] is the attribute as it stands. *)
Definition Locals_init (_host_result : gmap Z PyValue) : Locals :=
  mkLocals [] true _host_result [].

(** What a call of [next()] on the generator [pipeline_iter] gives. *)
Inductive IterResult :=
| Yield (value : PyValue)
| StopIteration
| Blocked.

(** The generator [pipeline_iter] (lines 371-384): its [idx], or [None]
    once it has returned. *)
Definition Generator := option nat.

(** One [next()] on the generator, against the variables of the thread
    as they stand. *)
Definition pipeline_iter_next (st : Locals) (gen : Generator) :
    IterResult * Generator :=
  match gen with
  | None => (StopIteration, None)
  | Some idx =>
      match pipeline_input st !! idx with
      | Some value => (Yield value, Some (S idx))
      | None =>
          if pipeline_complete st then (StopIteration, None)
          else (Blocked, Some idx)
      end
  end.

Section WithCodec.

Context {C : Type} (ops : Ops C).

(** [textwrap.dedent] belongs to the Python library. *)
Variable dedent : string → string.

(** What [RunspaceThread.run] does to [_host_result] for an event
    (lines 323-327). *)
Definition RunspaceThread_handle
    (event : PSRPEvent) (_host_result : gmap Z PyValue) : gmap Z PyValue :=
  match event with
  | RunspacePoolHostResponseEvent ci result error =>
      <[ci := host_response_value result error]> _host_result
  | _ => _host_result
  end.

(** [RunspaceThread.run] (lines 310-333) over the items put on its
    [event_queue], in order, with the [_host_result] attribute as it goes
    along. *)
Fixpoint RunspaceThread_run
    (queue : list (option PSRPEvent)) (_host_result : gmap Z PyValue) :
    M (LoopEnd * gmap Z PyValue) :=
  match queue with
  | [] => ret (Waiting, _host_result)
  | None :: _ => ret (Ended, _host_result)
  | Some event :: queue' =>
      let _host_result := RunspaceThread_handle event _host_result in
      bind (_send_data ops) (λ _, RunspaceThread_run queue' _host_result)
  end.

(** [PipelineThread.start_pwsh_pipeline] (lines 429-440): the worker
    thread is started on [_exec] with the dedented text of the first
    command and its parameters. *)
Definition start_pwsh_pipeline
    (command_text : string) (parameters : list (option string * PyValue))
    (st : Locals) : Locals :=
  let script := dedent command_text in
  mkLocals (pipeline_input st) (pipeline_complete st) (_host_result st)
    (workers st ++ [(script, parameters)]).

(** The [if]/[elif] chain of [PipelineThread.run] (lines 402-423). *)
Definition PipelineThread_handle (event : PSRPEvent) (st : Locals) : Locals :=
  match event with
  | CreatePipelineEvent no_input command_text parameters =>
      start_pwsh_pipeline command_text parameters
        (mkLocals (pipeline_input st) no_input (_host_result st) (workers st))
  | PipelineInputEvent data =>
      mkLocals (pipeline_input st ++ [data]) (pipeline_complete st)
        (_host_result st) (workers st)
  | EndOfPipelineInputEvent =>
      mkLocals (pipeline_input st) true (_host_result st) (workers st)
  | PipelineHostResponseEvent ci result error =>
      mkLocals (pipeline_input st) (pipeline_complete st)
        (<[ci := host_response_value result error]> (_host_result st))
        (workers st)
  | _ => st
  end.

(** [PipelineThread.run] (lines 364-427) over the items put on its
    [event_queue], in order. *)
Fixpoint PipelineThread_run
    (queue : list (option PSRPEvent)) (st : Locals) : M (LoopEnd * Locals) :=
  match queue with
  | [] => ret (Waiting, st)
  | None :: _ =>
      ret (Ended,
           mkLocals (pipeline_input st) true (_host_result st) (workers st))
  | Some event :: queue' =>
      let st := PipelineThread_handle event st in
      bind (_send_data ops) (λ _, PipelineThread_run queue' st)
  end.

End WithCodec.

(** [n] calls of [next()] in a row, the variables of the thread staying
    as they are. *)
Fixpoint nexts (n : nat) (st : Locals) (gen : Generator) : list IterResult :=
  match n with
  | O => []
  | S n' =>
      let '(result, gen') := pipeline_iter_next st gen in
      result :: nexts n' st gen'
  end.

(** The worker's iteration against the pipeline thread.  A schedule says
    which of the two moves next: the thread takes the next item of its
    queue (the variables change as [PipelineThread_handle] says; a
    sentinel ends the loop), or the worker calls [next()].  (The generator
    keeps the lock [add_condition] while it is suspended at [yield]; the
    schedules are not restricted by the lock, so they include every order
    the lock allows.) *)
Inductive Move := thread_move | next_move.

Record Race := mkRace {
  race_queue : list (option PSRPEvent);
  race_ended : bool;
  race_locals : Locals;
  race_generator : Generator;
  race_results : list IterResult
}.

Definition race_step (dedent : string → string) (m : Move) (r : Race) :
    Race :=
  match m with
  | thread_move =>
      if race_ended r then r
      else
        match race_queue r with
        | [] => r
        | None :: queue' =>
            let st := race_locals r in
            mkRace queue' true
              (mkLocals (pipeline_input st) true (_host_result st)
                 (workers st))
              (race_generator r) (race_results r)
        | Some event :: queue' =>
            mkRace queue' false
              (PipelineThread_handle dedent event (race_locals r))
              (race_generator r) (race_results r)
        end
  | next_move =>
      let '(result, gen) :=
        pipeline_iter_next (race_locals r) (race_generator r) in
      mkRace (race_queue r) (race_ended r) (race_locals r) gen
        (race_results r ++ [result])
  end.

Definition race (dedent : string → string) (schedule : list Move) (r : Race) :
    Race :=
  foldl (λ r m, race_step dedent m r) r schedule.

(** The values among the results of [next()]. *)
Definition yielded (results : list IterResult) : list PyValue :=
  omap (λ r, match r with Yield v => Some v | _ => None end) results.

(** The data of the input events among the queue items that come before
    the first sentinel. *)
Fixpoint inputs_of (queue : list (option PSRPEvent)) : list PyValue :=
  match queue with
  | [] => []
  | None :: _ => []
  | Some (PipelineInputEvent data) :: queue' => data :: inputs_of queue'
  | Some _ :: queue' => inputs_of queue'
  end.

(** What holds of a race all along, [total] being the input there is to
    deliver: the thread has stored a part of it and the rest is still in
    its queue, and the values yielded are the first [idx] stored ones. *)
Definition race_invariant (total : list PyValue) (r : Race) : Prop :=
  (if race_ended r
   then pipeline_input (race_locals r) `prefix_of` total
   else pipeline_input (race_locals r) ++ inputs_of (race_queue r) = total)
  ∧ match race_generator r with
    | Some idx =>
        yielded (race_results r) = take idx (pipeline_input (race_locals r))
        ∧ (idx ≤ length (pipeline_input (race_locals r)))%nat
    | None =>
        yielded (race_results r) `prefix_of` pipeline_input (race_locals r)
    end.

(** [n] times the same step, one after the other. *)
Fixpoint times {C} (n : nat) (m : M (C:=C) unit) : M unit :=
  match n with
  | O => ret tt
  | S n' => bind m (λ _, times n' m)
  end.

End Threads.

(** ** The facades handed to the script ([PSCmdlet], [PSHost]) *)

Module Facade.

Import Server.

(** [psrpcore.types.HostInfo] as the server reads it: [UseRunspaceHost]
    and the attributes looked up by name with [getattr]. *)
Record HostInfo := mkHostInfo {
  UseRunspaceHost : bool;
  host_attributes : gmap string bool
}.

(** [WriteErrorException(message)] (lines 40-42):
    [NETException(Message=message, HResult=-2146233087)]. *)
Record WriteErrorException := mkWriteErrorException {
  wee_Message : string;
  wee_HResult : Z
}.

Definition WriteErrorException_init (message : string) : WriteErrorException :=
  mkWriteErrorException message (-2146233087)%Z.

(** [psrpcore.types.ErrorDetails(Message=..., RecomendedAction=...)] *)
Record ErrorDetails := mkErrorDetails {
  ed_Message : string;
  ed_RecomendedAction : string
}.

(** The keyword arguments [PSCmdlet.write_error] passes on to
    [ServerPipeline.write_error]. *)
Record PipelineWriteError := mkPipelineWriteError {
  pwe_exception : WriteErrorException;
  pwe_category_info : ErrorCategoryInfo;
  pwe_target_object : PyValue;
  pwe_fully_qualified_error_id : string;
  pwe_error_details : option ErrorDetails
}.

(** The arguments of [PSHost.prompt_for_credential]. *)
Record CredentialPrompt := mkCredentialPrompt {
  cp_caption : string;
  cp_message : string;
  cp_username : option string;
  cp_target_name : option string;
  cp_allowed_types : option N;
  cp_options : option N
}.

(** What the facades ask of the codec besides [Ops]: the host
    information of a pipeline ([pipeline.metadata.host]) and of the pool
    ([runspace.host]), the host requests of
    [psrpcore.ServerHostRequestor] made for the pipeline or for the pool,
    and the output and error writes of the pipeline. *)
Record FacadeOps (C : Type) := mkFacadeOps {
  pipeline_metadata_host : UUID → C → option HostInfo;
  runspace_host_info : C → option HostInfo;
  do_host_write_line :
    HostScope → UUID → option string → option N → option N →
    C → Result unit * C;
  do_host_prompt_for_credential :
    HostScope → UUID → CredentialPrompt → C → Result Z * C;
  do_pipeline_write_output : UUID → PyValue → C → Result unit * C;
  do_pipeline_write_error_record :
    UUID → PipelineWriteError → C → Result unit * C
}.
Arguments pipeline_metadata_host {C} _.
Arguments runspace_host_info {C} _.
Arguments do_host_write_line {C} _.
Arguments do_host_prompt_for_credential {C} _.
Arguments do_pipeline_write_output {C} _.
Arguments do_pipeline_write_error_record {C} _.

(** [recommended_action] is truthy: neither [None] nor empty. *)
Definition nonempty (s : option string) : bool :=
  match s with
  | Some s => negb (bool_decide (s = ""))
  | None => false
  end.

Section WithCodec.

Context {C : Type} (ops : Ops C) (fops : FacadeOps C).

(** [str(target_object)] and [type(target_object).__name__] belong to
    the objects. *)
Variable str_of : PyValue → string.
Variable type_name : PyValue → string.

(** A call of a facade into the codec: the codec answers and moves on. *)
Definition codec_op {A} (f : C → Result A * C) : M A :=
  λ w,
    let '(r, c') := f (codec w) in
    let w' := mkWorld c' (pipelines w) (trace w) in
    match r with
    | Ok a => (Returns a, w')
    | Raise e => (Raises e, w')
    end.

(** The test of [PSHost.__init__] (lines 627-628):
    [pipeline_host_info and not pipeline_host_info.UseRunspaceHost]. *)
Definition uses_pipeline_host (pipeline_id : UUID) (c : C) : bool :=
  match pipeline_metadata_host fops pipeline_id c with
  | Some info => negb (UseRunspaceHost info)
  | None => false
  end.

(** [PSHost._host_info] for a host bound as [scope] says.  ([__init__]
    stores the object the codec holds; it is read here through the
    codec.) *)
Definition _host_info (scope : HostScope) (pipeline_id : UUID) (c : C) :
    option HostInfo :=
  match scope with
  | pipeline_host => pipeline_metadata_host fops pipeline_id c
  | runspace_host => runspace_host_info fops c
  end.

(** [PSHost._check_host_present] (lines 673-679) *)
Definition _check_host_present
    (scope : HostScope) (pipeline_id : UUID) (method host_check : string) :
    M unit :=
  bind get_codec (λ c,
    match _host_info scope pipeline_id c with
    | Some info =>
        if default true (host_attributes info !! host_check)
        then raise (mkExc PlainException ("Host does not support " +:+ method))
        else ret tt
    | None => raise (mkExc PlainException ("Host does not support " +:+ method))
    end).

(** [PSHost.write_line] (lines 641-650) *)
Definition PSHost_write_line
    (scope : HostScope) (pipeline_id : UUID) (line : option string)
    (foreground_color background_color : option N) : M unit :=
  bind (_check_host_present scope pipeline_id "write_line" "IsHostUINull")
    (λ _,
  bind (codec_op
          (do_host_write_line fops scope pipeline_id line foreground_color
             background_color)) (λ _,
  _send_data ops)).


(** [if self._pipeline.pipeline.state == PSInvocationState.Stopping:
    sys.exit()] *)
Definition exit_if_stopping (pipeline_id : UUID) : M unit :=
  bind get_codec (λ c,
    if decide (Codec.pipeline_state ops pipeline_id c = Stopping)
    then raise (mkExc SystemExit "")
    else ret tt).

(** [PSCmdlet.write_host] (lines 547-553) *)
Definition write_host (cmdlet : PSCmdlet) (msg : string) : M unit :=
  bind (exit_if_stopping (cmdlet_pipeline cmdlet)) (λ _,
  PSHost_write_line (cmdlet_host cmdlet) (cmdlet_pipeline cmdlet) (Some msg)
    None None).

(** [PSCmdlet.write_output] (lines 555-562) *)
Definition write_output (cmdlet : PSCmdlet) (data : PyValue) : M unit :=
  bind (exit_if_stopping (cmdlet_pipeline cmdlet)) (λ _,
  bind (codec_op (do_pipeline_write_output fops (cmdlet_pipeline cmdlet) data))
    (λ _,
  _send_data ops)).

(** The record [PSCmdlet.write_error] builds (lines 580-615). *)
Definition write_error_record
    (message : string) (category : ErrorCategory) (error_id : string)
    (target_object : PyValue) (recommended_action : option string)
    (category_reason : string)
    (category_target_name category_target_type : option string) :
    PipelineWriteError :=
  let exception := WriteErrorException_init message in
  let cat_target_name : option string := None in
  let cat_target_type :=
    match category_target_type with
    | Some t => Some t
    | None => None
    end in
  let cat_target_name :=
    match category_target_name with
    | Some n => Some n
    | None => cat_target_name
    end in
  let '(cat_target_name, cat_target_type) :=
    if decide (target_object = PyNone)
    then (cat_target_name, cat_target_type)
    else
      (match cat_target_name with
       | None => Some (str_of target_object)
       | Some n => Some n
       end,
       match cat_target_type with
       | None => Some (type_name target_object)
       | Some t => Some t
       end) in
  let cat_info :=
    mkErrorCategoryInfo category (Some "Write-Error") (Some category_reason)
      cat_target_name cat_target_type in
  let error_details :=
    if nonempty recommended_action
    then Some (mkErrorDetails message (default "" recommended_action))
    else None in
  mkPipelineWriteError exception cat_info target_object error_id error_details.

(** [PSCmdlet.write_error] (lines 564-616) *)
Definition write_error
    (cmdlet : PSCmdlet) (message : string) (category : ErrorCategory)
    (error_id : string) (target_object : PyValue)
    (recommended_action : option string) (category_reason : string)
    (category_target_name category_target_type : option string) : M unit :=
  bind (exit_if_stopping (cmdlet_pipeline cmdlet)) (λ _,
  bind (codec_op
          (do_pipeline_write_error_record fops (cmdlet_pipeline cmdlet)
             (write_error_record message category error_id target_object
                recommended_action category_reason category_target_name
                category_target_type))) (λ _,
  _send_data ops)).

End WithCodec.

End Facade.

(** ** The entry point ([__main__.main]) *)

Module Main.

(** The connection [main] builds. *)
Inductive Connection :=
| StdioConnection
| PipeConnection (name : string).

(** The parsed arguments [main] reads: [--pipe] and [--pipe-name]. *)
Record Args := mkArgs {
  pipe : bool;
  pipe_name : option string
}.

(** Lines 99-106 of [__main__.py]: [args.pipe_name or get_pipe_name()]
    calls [get_pipe_name] only when the name is [None] or empty. *)
Definition main_connection
    (args : Args) (HAS_PSUTIL : bool) (os_name : string)
    (TMPDIR : option string) (pid : N) (process_name : string)
    (td : timedelta) : Result Connection :=
  if pipe args then
    match
      match pipe_name args with
      | Some name =>
          if bool_decide (name = "")
          then get_pipe_name HAS_PSUTIL os_name TMPDIR pid process_name td
          else Ok name
      | None => get_pipe_name HAS_PSUTIL os_name TMPDIR pid process_name td
      end
    with
    | Ok pipe_name => Ok (PipeConnection pipe_name)
    | Raise e => Raise e
    end
  else Ok StdioConnection.

End Main.
(** ** Concrete stand-ins for the closed examples of the parts above *)

Module Examples.

Import Server Fixture Scenario Connections Threads Facade.

(** An operating system that keeps a set of socket files and a log of the
    calls made: [unlink] of a missing file raises [FileNotFoundError],
    sockets are numbered as they are made, [recv] answers with nothing. *)
Inductive SysCall :=
| sys_unlink (name : string)
| sys_socket (sock : Socket)
| sys_bind (sock : Socket) (name : string)
| sys_listen (sock : Socket) (backlog : N)
| sys_accept (sock : Socket) (conn : Socket)
| sys_close (sock : Socket)
| sys_recv (sock : Socket) (length : N)
| sys_sendall (sock : Socket) (data : bytes).

Record ToySys := mkToySys {
  toy_files : list string;
  toy_next : Socket;
  toy_log : list SysCall
}.

Definition toy_sys : SocketOps ToySys := {|
  do_unlink := λ name s,
    if bool_decide (name ∈ toy_files s)
    then (Ok tt,
          mkToySys (filter (λ f, f ≠ name) (toy_files s)) (toy_next s)
            (toy_log s ++ [sys_unlink name]))
    else (Raise (mkExc (Exception_other "FileNotFoundError") name),
          mkToySys (toy_files s) (toy_next s)
            (toy_log s ++ [sys_unlink name]));
  do_socket := λ s,
    (Ok (toy_next s),
     mkToySys (toy_files s) (toy_next s + 1)
       (toy_log s ++ [sys_socket (toy_next s)]));
  do_bind := λ sock name s,
    if bool_decide (name ∈ toy_files s)
    then (Raise (mkExc (Exception_other "OSError") "Address already in use"),
          mkToySys (toy_files s) (toy_next s)
            (toy_log s ++ [sys_bind sock name]))
    else (Ok tt,
          mkToySys (name :: toy_files s) (toy_next s)
            (toy_log s ++ [sys_bind sock name]));
  do_listen := λ sock backlog s,
    (Ok tt,
     mkToySys (toy_files s) (toy_next s)
       (toy_log s ++ [sys_listen sock backlog]));
  do_accept := λ sock s,
    (Ok (toy_next s),
     mkToySys (toy_files s) (toy_next s + 1)
       (toy_log s ++ [sys_accept sock (toy_next s)]));
  do_close := λ sock s,
    (Ok tt,
     mkToySys (toy_files s) (toy_next s) (toy_log s ++ [sys_close sock]));
  do_recv := λ sock length s,
    (Ok [],
     mkToySys (toy_files s) (toy_next s)
       (toy_log s ++ [sys_recv sock length]));
  do_sendall := λ sock data s,
    (Ok tt,
     mkToySys (toy_files s) (toy_next s)
       (toy_log s ++ [sys_sendall sock data]))
|}.

(** The facade calls on the small codec: each write queues a payload of
    the pipeline; the host information is fixed. *)
Definition toy_fops (pipeline_info runspace_info : option HostInfo) :
    FacadeOps ToyCodec := {|
  pipeline_metadata_host := λ _ _, pipeline_info;
  runspace_host_info := λ _, runspace_info;
  do_host_write_line := λ _ g line _ _ c,
    (Ok tt, toy_emit ("host-line:" +:+ default "" line) (Some g) c);
  do_host_prompt_for_credential := λ _ g _ c,
    (Ok 7%Z, toy_emit "host-prompt" (Some g) c);
  do_pipeline_write_output := λ g _ c, (Ok tt, toy_emit "output" (Some g) c);
  do_pipeline_write_error_record := λ g _ c,
    (Ok tt, toy_emit "error" (Some g) c)
|}.

(** A host with a user interface, and one without. *)
Definition host_with_ui : HostInfo :=
  mkHostInfo false {["IsHostUINull" := false]}.

(** Pipeline [P1] is live and being stopped. *)
Definition world_stopping : World :=
  mkWorld (mkToy RP_Opened pool_guid {[P1 := Stopping]} [] [])
    {[P1 := mkPipelineThread P1 true]} [].

(** Pipeline [P1] is live and Running, with nothing pending. *)
Definition world_running : World :=
  mkWorld (mkToy RP_Opened pool_guid {[P1 := Running]} [] [])
    {[P1 := mkPipelineThread P1 true]} [].

(** Pipeline [P1] is live, and the codec holds two events that the next
    Data packet releases. *)
Definition world_with_input : World :=
  mkWorld
    (mkToy RP_Opened pool_guid {[P1 := Running]}
       [PipelineInputEvent (PyInt 1); EndOfPipelineInputEvent] [])
    {[P1 := mkPipelineThread P1 true]} [].

(** Scripts: one that writes a value, one that prints, one that does not
    parse, one that exits. *)
Definition writing_script (fops : FacadeOps ToyCodec) :
    string → PSCmdlet → M (C:=ToyCodec) unit :=
  λ _ cmdlet, write_output toy_ops fops cmdlet (PyInt 2).


Definition unparsable_script : string → PSCmdlet → M (C:=ToyCodec) unit :=
  λ _ _, raise (mkExc SyntaxError "invalid syntax (<string>, line 1)").

Definition exiting_script : string → PSCmdlet → M (C:=ToyCodec) unit :=
  λ _ _, raise (mkExc SystemExit "").

Definition P1_cmdlet : PSCmdlet := mkPSCmdlet P1 runspace_host [] ∅.

End Examples.

(** * Properties *)

(** ** Bytes, hexadecimal digits and base64 *)

Section BytesFacts.

Lemma count_app c (l1 l2 : bytes) :
  count c (l1 ++ l2) = (count c l1 + count c l2)%nat.
Proof. unfold count. by rewrite filter_app, length_app. Qed.

Lemma count_cons c x (l : bytes) :
  count c (x :: l) = ((if decide (x = c) then 1 else 0) + count c l)%nat.
Proof. unfold count. rewrite filter_cons. by case_decide. Qed.

Lemma count_zero_Forall c (l : bytes) :
  Forall (λ x, x ≠ c) l ↔ count c l = 0%nat.
Proof.
  induction l as [|x l IH]; [by split; [|constructor]|].
  rewrite count_cons, Forall_cons, IH. case_decide; split; try lia.
  - intros [? _]. done.
  - intros ?; split; [done|lia].
Qed.

Lemma filter_all {A} (P : A → Prop) `{!∀ x, Decision (P x)} (l : list A) :
  Forall P l → filter P l = l.
Proof.
  induction 1 as [|x l Hx _ IH]; [done|].
  by rewrite filter_cons_True, IH.
Qed.

End BytesFacts.

(** Closes [Forall P l] for a literal list [l] by checking each element. *)
Ltac forall_literal :=
  match goal with
  | |- Forall ?P ?l => let l' := eval vm_compute in l in change (Forall P l')
  end;
  repeat first
    [ apply Forall_nil_2
    | apply Forall_cons_2;
      [vm_compute; first [reflexivity | congruence | tauto]|] ].

Section HexFacts.

Lemma digit_in alphabet n :
  n < N.of_nat (length alphabet) → Hex.digit alphabet n ∈ alphabet.
Proof.
  intros H. unfold Hex.digit. apply list_elem_of_In, nth_In. lia.
Qed.

Lemma land_15_lt v : N.land v 15 < 16.
Proof.
  change 15 with (N.ones 4). rewrite N.land_ones.
  apply N.mod_lt. discriminate.
Qed.

Lemma length_fixed alphabet w v : length (Hex.fixed alphabet w v) = w.
Proof. induction w; simpl; congruence. Qed.

Lemma fixed_in alphabet w v :
  length alphabet = 16%nat →
  Forall (λ c, c ∈ alphabet) (Hex.fixed alphabet w v).
Proof.
  intros Hl. induction w as [|w IH]; simpl; constructor; [|done].
  apply digit_in. rewrite Hl. apply land_15_lt.
Qed.

(** [Hex.fixed] reads only the low [4 w] bits, so a wide rendering splits
    into the rendering of the high part followed by that of the low part. *)
Lemma fixed_app alphabet a b v :
  Hex.fixed alphabet (a + b) v
  = Hex.fixed alphabet a (N.shiftr v (4 * N.of_nat b))
      ++ Hex.fixed alphabet b v.
Proof.
  induction a as [|a IH]; simpl; [done|].
  rewrite IH. f_equal. f_equal. f_equal.
  rewrite N.shiftr_shiftr. f_equal. lia.
Qed.

Lemma digit_value_digit alphabet n :
  alphabet = Hex.lower_digits ∨ alphabet = Hex.upper_digits →
  n < 16 → Hex.digit_value (Hex.digit alphabet n) = Some n.
Proof.
  intros Ha H.
  assert (Hn : (N.to_nat n < 16)%nat) by lia.
  rewrite <- (N2Nat.id n) at 2. unfold Hex.digit.
  generalize dependent (N.to_nat n). intros k Hk.
  destruct Ha as [-> | ->];
    do 16 (destruct k as [|k]; [reflexivity|]); lia.
Qed.

Lemma value_snoc l c :
  Hex.value (l ++ [c])
  = a ← Hex.value l; d ← Hex.digit_value c; Some (16 * a + d).
Proof. unfold Hex.value. by rewrite foldl_app. Qed.

(** Reading the digits back gives the rendered bits. *)
Lemma value_fixed alphabet w v :
  alphabet = Hex.lower_digits ∨ alphabet = Hex.upper_digits →
  Hex.value (Hex.fixed alphabet w v) = Some (v mod 16 ^ N.of_nat w).
Proof.
  intros Ha. revert v. induction w as [|w IH]; intros v.
  - simpl. by rewrite N.mod_1_r.
  - replace (S w) with (w + 1)%nat by lia.
    rewrite fixed_app. cbn [Hex.fixed]. rewrite value_snoc, IH. simpl.
    rewrite digit_value_digit by (done || apply land_15_lt). simpl. f_equal.
    rewrite N.shiftr_0_r.
    change 15 with (N.ones 4). rewrite N.land_ones.
    rewrite N.shiftr_div_pow2. change (2 ^ (4 * 1)) with 16.
    change (2 ^ 4) with 16.
    replace (N.of_nat (w + 1)) with (N.succ (N.of_nat w)) by lia.
    rewrite N.pow_succ_r'.
    rewrite (N.Div0.mod_mul_r v 16 (16 ^ N.of_nat w)).
    change (2 ^ (4 * N.of_nat 1)) with 16. lia.
Qed.

End HexFacts.

Section Base64Facts.

(** Induction following the three-octet groups of [b64encode]. *)
Lemma octet_groups_ind (P : bytes → Prop) :
  P [] → (∀ a, P [a]) → (∀ a b, P [a; b]) →
  (∀ a b c rest, P rest → P (a :: b :: c :: rest)) →
  ∀ d, P d.
Proof.
  intros H0 H1 H2 H3.
  fix IH 1. intros [|a [|b [|c rest]]]; [exact H0 | apply H1 | apply H2 |].
  apply H3, IH.
Qed.

Lemma enc_alphabet_or_pad n :
  Base64.enc n ∈ Base64.alphabet ∨ Base64.enc n = PAD.
Proof.
  unfold Base64.enc.
  destruct (nth_in_or_default (N.to_nat n) Base64.alphabet PAD) as [H|H].
  - left. by apply list_elem_of_In.
  - by right.
Qed.

Lemma alphabet_no_LF : Forall (λ c, c ≠ LF) (PAD :: Base64.alphabet).
Proof. forall_literal. Qed.

Lemma enc_not_LF n : Base64.enc n ≠ LF.
Proof.
  pose proof alphabet_no_LF as H. rewrite Forall_forall in H.
  apply H. destruct (enc_alphabet_or_pad n) as [Hn| ->]; [by right | by left].
Qed.

(** The encoder emits alphabet characters and padding only: no line feed. *)
Lemma b64encode_no_LF d : Forall (λ c, c ≠ LF) (Base64.b64encode d).
Proof.
  induction d as [|a|a b|a b c rest IH] using octet_groups_ind;
    cbn [Base64.b64encode];
    repeat first [apply Forall_nil_2 | assumption
                 | apply Forall_cons_2;
                   [first [apply enc_not_LF | discriminate]|]].
Qed.

(** Four characters for every started group of three octets. *)
Lemma length_b64encode d :
  length (Base64.b64encode d) = (4 * ((length d + 2) / 3))%nat.
Proof.
  induction d as [|a|a b|a b c rest IH] using octet_groups_ind;
    [reflexivity..|].
  cbn [Base64.b64encode length]. rewrite IH.
  replace (S (S (S (length rest))) + 2)%nat
    with (1 * 3 + (length rest + 2))%nat by lia.
  rewrite Nat.div_add_l by done. lia.
Qed.

End Base64Facts.

(** ** Packet encoders *)

Section PacketFacts.

Local Abbreviation hexl := (Hex.fixed Hex.lower_digits).

Lemma hex32_groups v :
  hexl 32 v
  = hexl 8 (N.shiftr v 96) ++ hexl 4 (N.shiftr v 80)
      ++ hexl 4 (N.shiftr v 64) ++ hexl 4 (N.shiftr v 48) ++ hexl 12 v.
Proof.
  change 32%nat with (8 + (4 + (4 + (4 + 12))))%nat.
  rewrite !fixed_app. reflexivity.
Qed.

(** [UUID.__str__] is the grouped rendering of the specification. *)
Lemma str_grouped g : Uuid.str g = guid_8_4_4_4_12 g.
Proof.
  unfold Uuid.str, guid_8_4_4_4_12, slice, slice_from.
  rewrite hex32_groups.
  set (A := hexl 8 _). set (B := hexl 4 _). set (C := hexl 4 _).
  set (D := hexl 4 _). set (E := hexl 12 _).
  assert (HA : length A = 8%nat) by apply length_fixed.
  assert (HB : length B = 4%nat) by apply length_fixed.
  assert (HC : length C = 4%nat) by apply length_fixed.
  assert (HD : length D = 4%nat) by apply length_fixed.
  assert (H8 : drop 8 (A ++ B ++ C ++ D ++ E) = B ++ C ++ D ++ E)
    by (by rewrite drop_app_length').
  assert (H12 : drop 12 (A ++ B ++ C ++ D ++ E) = C ++ D ++ E).
  { change 12%nat with (8 + 4)%nat. rewrite <- drop_drop, H8.
    by rewrite drop_app_length'. }
  assert (H16 : drop 16 (A ++ B ++ C ++ D ++ E) = D ++ E).
  { change 16%nat with (12 + 4)%nat. rewrite <- drop_drop, H12.
    by rewrite drop_app_length'. }
  assert (H20 : drop 20 (A ++ B ++ C ++ D ++ E) = E).
  { change 20%nat with (16 + 4)%nat. rewrite <- drop_drop, H16.
    by rewrite drop_app_length'. }
  rewrite H8, H12, H16, H20, drop_0.
  by rewrite !take_app_length'.
Qed.

Lemma lower_digits_fixed_by_lower :
  Forall (λ c, lower_byte c = c) (HYPHEN :: Hex.lower_digits).
Proof. forall_literal. Qed.

Lemma lower_digits_no_LF : Forall (λ c, c ≠ LF) (HYPHEN :: Hex.lower_digits).
Proof. forall_literal. Qed.

(** Every character of the rendering is a lower-case digit or a hyphen. *)
Lemma guid_chars g :
  Forall (λ c, c ∈ HYPHEN :: Hex.lower_digits) (guid_8_4_4_4_12 g).
Proof.
  unfold guid_8_4_4_4_12.
  repeat first
    [ apply Forall_app_2
    | apply Forall_cons_2; [by left|]
    | apply Forall_nil_2
    | eapply Forall_impl; [by apply fixed_in|]; intros c Hc; by right ].
Qed.

Lemma lower_guid g : lower (guid_8_4_4_4_12 g) = guid_8_4_4_4_12 g.
Proof.
  unfold lower. rewrite <- (map_id (guid_8_4_4_4_12 g)) at 2.
  apply map_ext_in. intros c Hc%list_elem_of_In.
  pose proof (guid_chars g) as H. rewrite Forall_forall in H.
  pose proof lower_digits_fixed_by_lower as HL. rewrite Forall_forall in HL.
  auto.
Qed.

Lemma guid_no_LF g : count LF (guid_8_4_4_4_12 g) = 0%nat.
Proof.
  apply count_zero_Forall.
  pose proof lower_digits_no_LF as HL. rewrite Forall_forall in HL.
  eapply Forall_impl; [apply guid_chars|]. auto.
Qed.

Lemma length_guid g : length (guid_8_4_4_4_12 g) = 36%nat.
Proof.
  unfold guid_8_4_4_4_12. rewrite !length_app, !length_fixed. reflexivity.
Qed.

(** Hyphens sit at offsets 8, 13, 18 and 23. *)
Lemma guid_hyphens g i :
  i ∈ [8; 13; 18; 23]%nat → guid_8_4_4_4_12 g !! i = Some HYPHEN.
Proof.
  intros Hi. rewrite !elem_of_cons, elem_of_nil in Hi.
  destruct Hi as [->|[->|[->|[->|[]]]]]; reflexivity.
Qed.

(** The digits of the rendering, read back, are the GUID's integer. *)
Lemma guid_value g :
  Hex.value (filter (λ c, c ≠ HYPHEN) (guid_8_4_4_4_12 g)) = Some (uuid_int g).
Proof.
  assert (Hf : ∀ w v, filter (λ c, c ≠ HYPHEN) (hexl w v) = hexl w v).
  { intros w v. apply filter_all.
    eapply Forall_impl; [apply fixed_in; reflexivity|].
    intros c Hc. revert c Hc. apply Forall_forall. forall_literal. }
  assert (Hd : filter (λ c, c ≠ HYPHEN) (guid_8_4_4_4_12 g)
               = hexl 32 (uuid_int g)).
  { unfold guid_8_4_4_4_12. rewrite !filter_app, !Hf, hex32_groups.
    reflexivity. }
  rewrite Hd, value_fixed by by left.
  f_equal. apply N.mod_small.
  change (16 ^ N.of_nat 32) with (2 ^ 128). apply uuid_int_lt.
Qed.

End PacketFacts.

Section PacketTheorems.

Lemma ps_data_packet_spec data st g :
  ps_data_packet data st g = spec_data_packet data st g.
Proof.
  unfold ps_data_packet, spec_data_packet, or_zero.
  rewrite str_grouped, lower_guid. by destruct st.
Qed.

Lemma ps_guid_packet_spec element g :
  ps_guid_packet element g = spec_guid_packet element g.
Proof.
  unfold ps_guid_packet, spec_guid_packet, or_zero.
  by rewrite str_grouped, lower_guid.
Qed.

Lemma count_LF_data_packet data st g :
  count LF (spec_data_packet data st g) = 1%nat.
Proof.
  unfold spec_data_packet. rewrite !count_app, guid_no_LF.
  rewrite (proj1 (count_zero_Forall LF _) (b64encode_no_LF data)).
  by destruct st.
Qed.

Lemma count_LF_guid_packet tag g :
  count LF (spec_guid_packet tag g) = S (count LF (encode tag)).
Proof.
  unfold spec_guid_packet. rewrite !count_app, guid_no_LF.
  change (count LF (encode "<")) with 0%nat.
  change (count LF (encode " PSGuid='")) with 0%nat.
  change (count LF (encode "' />")) with 0%nat.
  change (count LF [LF]) with 1%nat. lia.
Qed.

(** C2. Both packet encoders return exactly the framed bytes of the wire
    grammar: [<Data Stream='Default'|'PromptResponse' PSGuid='g'>] followed
    by the base64 text of the payload, [</Data>] and one line feed, and
    [<Tag PSGuid='g' />] followed by one line feed.  [g] is the GUID as 36
    characters, lower-case hexadecimal digits in groups of 8-4-4-4-12 with
    hyphens at offsets 8, 13, 18 and 23, whose digits read back to the
    GUID's integer; a missing GUID gives the all-zero GUID.  The Data packet
    holds exactly one line feed (its last byte); a guid packet holds one
    more than its tag does, hence exactly one for a tag without line feed. *)
Theorem ps_packet_encoders_exact
    (data : bytes) (st : StreamType) (g : option UUID) (element : string) :
  ps_data_packet data st g
    = encode "<Data Stream='" ++ stream_attribute st ++ encode "' PSGuid='"
        ++ guid_8_4_4_4_12 (default zero g) ++ encode "'>"
        ++ Base64.b64encode data ++ encode "</Data>" ++ [LF]
  ∧ ps_guid_packet element g
    = encode "<" ++ encode element ++ encode " PSGuid='"
        ++ guid_8_4_4_4_12 (default zero g) ++ encode "' />" ++ [LF]
  ∧ guid_8_4_4_4_12 (default zero None)
    = encode "00000000-0000-0000-0000-000000000000"
  ∧ length (guid_8_4_4_4_12 (default zero g)) = 36%nat
  ∧ Forall (λ c, c ∈ HYPHEN :: Hex.lower_digits)
      (guid_8_4_4_4_12 (default zero g))
  ∧ Forall (λ i, guid_8_4_4_4_12 (default zero g) !! i = Some HYPHEN)
      [8; 13; 18; 23]%nat
  ∧ Hex.value (filter (λ c, c ≠ HYPHEN) (guid_8_4_4_4_12 (default zero g)))
    = Some (uuid_int (default zero g))
  ∧ count LF (ps_data_packet data st g) = 1%nat
  ∧ count LF (ps_guid_packet element g) = S (count LF (encode element)).
Proof.
  split; [apply ps_data_packet_spec|].
  split; [apply ps_guid_packet_spec|].
  split; [reflexivity|].
  split; [apply length_guid|].
  split; [apply guid_chars|].
  split.
  { apply Forall_forall. intros i Hi. by apply guid_hyphens. }
  split; [apply guid_value|].
  split.
  - rewrite ps_data_packet_spec. apply count_LF_data_packet.
  - rewrite ps_guid_packet_spec. apply count_LF_guid_packet.
Qed.

Example ps_data_packet_example :
  ps_data_packet (encode "hi!") st_default None
  = encode "<Data Stream='Default' PSGuid='00000000-0000-0000-0000-000000000000'>aGkh</Data>"
      ++ [LF].
Proof. reflexivity. Qed.

Example ps_guid_packet_example :
  ps_guid_packet "CloseAck" (UUID_of_int 0x0123456789abcdef0123456789ABCDEF)
  = encode "<CloseAck PSGuid='01234567-89ab-cdef-0123-456789abcdef' />"
      ++ [LF].
Proof. reflexivity. Qed.

Example b64encode_padding :
  Base64.b64encode (encode "a") = encode "YQ=="
  ∧ Base64.b64encode (encode "ab") = encode "YWI="
  ∧ Base64.b64encode (encode "abc") = encode "YWJj"
  ∧ Base64.b64encode [xff; xfe; xfd; x00] = encode "//79AA==".
Proof. repeat split. Qed.

End PacketTheorems.

(** ** Pipe-name derivation *)

Section PipeNameFacts.

Local Abbreviation hexu := (Hex.fixed Hex.upper_digits).

Lemma to_N_octet x :
  Byte.to_N (default x00 (Byte.of_N (N.land x 255))) = N.land x 255.
Proof.
  pose proof (Byte.to_of_N_option_map (N.land x 255)) as H.
  assert (Hle : N.land x 255 <= 255).
  { change 255 with (N.ones 8) at 1. rewrite N.land_ones.
    pose proof (N.mod_lt x (2 ^ 8)). change (2 ^ 8) with 256 in *. lia. }
  apply N.leb_le in Hle. rewrite Hle in H.
  destruct (Byte.of_N (N.land x 255)) as [b|] eqn:E; simpl in H |- *; [congruence|discriminate].
Qed.
Lemma octet_high_nibble x :
  N.shiftr (N.land x 255) 4 = N.land (N.shiftr x 4) 15.
Proof. rewrite N.shiftr_land. reflexivity. Qed.

Lemma octet_low_nibble x : N.land (N.land x 255) 15 = N.land x 15.
Proof. rewrite <- N.land_assoc. reflexivity. Qed.
(** The two digits of each packed octet are the digits of the integer:
    [b16encode(struct.pack(">Q", v))] is [v] in sixteen digits. *)
Lemma b16encode_octets v : b16encode (octets_be v) = hexu 16 v.
Proof.
  unfold octets_be.
  cbn [seq map b16encode flat_map app Nat.sub].
  rewrite !to_N_octet.
  rewrite !octet_high_nibble, !octet_low_nibble.
  rewrite !N.shiftr_shiftr. reflexivity.
Qed.
Lemma b16encode_pack v p :
  pack_Q_be v = Ok p → b16encode p = hexu 16 (Z.to_N v).
Proof.
  unfold pack_Q_be. destruct (_ && _); [|discriminate].
  intros H. assert (p = octets_be (Z.to_N v)) as -> by congruence.
  apply b16encode_octets.
Qed.

Lemma pack_Q_be_in_range v :
  (0 ≤ v < 2 ^ 64)%Z → ∃ p, pack_Q_be v = Ok p ∧ length p = 8%nat.
Proof.
  intros [H0 H1]. unfold pack_Q_be.
  apply Z.leb_le in H0. apply Z.ltb_lt in H1. rewrite H0, H1.
  eexists; split; [reflexivity|]. reflexivity.
Qed.

Lemma pack_Q_be_out_of_range v :
  ¬ (0 ≤ v < 2 ^ 64)%Z → ∃ e, pack_Q_be v = Raise e.
Proof.
  intros H. unfold pack_Q_be.
  destruct (0 <=? v)%Z eqn:H0, (v <? 2 ^ 64)%Z eqn:H1; simpl; eauto.
  apply Z.leb_le in H0. apply Z.ltb_lt in H1. lia.
Qed.

(** [os.path.join] puts exactly one separator after a non-empty directory
    that does not already end in one. *)
Lemma posix_join_separator a b :
  a ≠ "" → endswith "/" a = false → startswith "/" b = false →
  posix_join a b = a +:+ "/" +:+ b.
Proof.
  intros Ha He Hb. unfold posix_join. rewrite Hb, He.
  by rewrite bool_decide_eq_false_2.
Qed.

Lemma upper_digit_zero n :
  n < 16 → (Hex.digit Hex.upper_digits n = ZERO ↔ n = 0).
Proof.
  intros H. split; [|by intros ->].
  unfold Hex.digit.
  assert (Hn : n = N.of_nat (N.to_nat n)) by lia.
  assert (Hk : (N.to_nat n < 16)%nat) by lia.
  rewrite Hn at 2. clear Hn H.
  generalize dependent (N.to_nat n). intros k Hk.
  do 16 (destruct k as [|k];
         [intros E; first [reflexivity | discriminate E]|]). lia.
Qed.

Lemma ascii_of_byte_inj a b : ascii_of_byte a = ascii_of_byte b → a = b.
Proof.
  intros H. apply (f_equal byte_of_ascii) in H.
  by rewrite !byte_of_ascii_of_byte in H.
Qed.

Lemma substring_prefix l1 l2 :
  String.substring 0 (length l1) (string_of_list_byte (l1 ++ l2))
  = string_of_list_byte l1.
Proof.
  induction l1 as [|x l1 IH].
  - simpl. by destruct (string_of_list_byte l2).
  - change (string_of_list_byte ((x :: l1) ++ l2))
      with (String (ascii_of_byte x) (string_of_list_byte (l1 ++ l2))).
    change (string_of_list_byte (x :: l1))
      with (String (ascii_of_byte x) (string_of_list_byte l1)).
    cbn [length String.substring]. by rewrite IH.
Qed.

Lemma spec_start_time_modern ft :
  (16 ^ 14 ≤ ft < 16 ^ 15)%Z →
  spec_start_time ft = decode (hexu 8 (N.shiftr (Z.to_N ft) 24)).
Proof.
  intros [Hlo Hhi]. unfold spec_start_time.
  set (v := Z.to_N ft).
  assert (Hv : 16 ^ 14 ≤ v < 16 ^ 15) by (unfold v; lia).
  change 16%nat with (1 + (1 + (8 + 6)))%nat.
  rewrite !fixed_app.
  set (mid := hexu 8 _). set (low := hexu 6 _).
  cbn [Hex.fixed].
  rewrite !N.shiftr_shiftr.
  change (4 * N.of_nat (1 + (8 + 6)) + 4 * N.of_nat 0) with 60.
  change (4 * N.of_nat (8 + 6) + 4 * N.of_nat 0) with 56.
  change (4 * N.of_nat 6) with 24 in mid.
  assert (H15 : N.land (N.shiftr v 60) 15 = 0).
  { rewrite N.shiftr_div_pow2, N.div_small; [done|]. change (2 ^ 60) with (16 ^ 15). lia. }
  assert (H14 : N.land (N.shiftr v 56) 15 ≠ 0).
  { rewrite N.shiftr_div_pow2. change 15 with (N.ones 4). rewrite N.land_ones.
    change (2 ^ 56) with (16 ^ 14). change (2 ^ 4) with 16.
    assert (1 ≤ v / 16 ^ 14 < 16).
    { split.
      - apply N.div_le_lower_bound; lia.
      - apply N.Div0.div_lt_upper_bound. change (16 ^ 14 * 16) with (16 ^ 15). lia. }
    rewrite N.mod_small; lia. }
  rewrite H15.
  set (d14 := Hex.digit _ (N.land (N.shiftr v 56) 15)).
  assert (Hd : d14 ≠ ZERO).
  { unfold d14. rewrite upper_digit_zero; [done|apply land_15_lt]. }
  unfold decode. cbn [app string_of_list_byte].
  change (Hex.digit Hex.upper_digits 0) with ZERO.
  change (string_of_list_byte (ZERO :: d14 :: mid ++ low))
    with (String "0" (String (ascii_of_byte d14)
                        (string_of_list_byte (mid ++ low)))).
  cbn [lstrip]. rewrite bool_decide_eq_true_2 by done.
  rewrite bool_decide_eq_false_2.
  2:{ intros E. apply Hd, ascii_of_byte_inj. exact E. }
  unfold str_slice. cbn [Nat.sub String.substring].
  replace 8%nat with (length mid) by apply length_fixed.
  apply substring_prefix.
Qed.

End PipeNameFacts.

Section PipeNameTheorems.

(** C10. On POSIX (any [os.name] but [nt]) and for a create time whose
    FILETIME fits the eight packed octets, the deriver returns
    [os.path.join] of [TMPDIR] (or [/tmp] when unset) and
    [CoreFxPipe_PSHost.{start_time}.{pid}.None.{process-name}], where
    [start_time] is the value [116444736000000000 + 10 * microseconds-since-
    epoch] in sixteen upper-case hexadecimal digits, leading zeros
    stripped, characters [1..9] of the remainder.  With the default
    directory, and with any non-empty [TMPDIR] that lacks a trailing
    separator, that is the directory, one [/] and the name.  For every
    FILETIME of fifteen significant digits (years 1829 to 5254)
    [start_time] is the eight digits of bits 24..55.  Equal inputs give
    equal outputs. *)
Theorem get_pipe_name_posix
    (os_name : string) (TMPDIR : option string) (pid : N)
    (process_name : string) (td : timedelta) :
  os_name ≠ "nt" →
  (0 ≤ start_time_ft td < 2 ^ 64)%Z →
  let micro :=
    (microseconds td + (seconds td + days td * 24 * 3600) * 10 ^ 6)%Z in
  let ft := (116444736000000000 + 10 * micro)%Z in
  let name :=
    "CoreFxPipe_PSHost." +:+ spec_start_time ft +:+ "." +:+ str_of_N pid
      +:+ ".None." +:+ process_name in
  get_pipe_name true os_name TMPDIR pid process_name td
    = Ok (posix_join (default "/tmp" TMPDIR) name)
  ∧ posix_join "/tmp" name = "/tmp/" +:+ name
  ∧ (∀ dir, dir ≠ "" → endswith "/" dir = false →
       posix_join dir name = dir +:+ "/" +:+ name)
  ∧ ((16 ^ 14 ≤ ft < 16 ^ 15)%Z →
       spec_start_time ft
       = decode (Hex.fixed Hex.upper_digits 8 (N.shiftr (Z.to_N ft) 24)))
  ∧ (∀ pid' process_name' td',
       pid' = pid → process_name' = process_name → td' = td →
       get_pipe_name true os_name TMPDIR pid' process_name' td'
       = get_pipe_name true os_name TMPDIR pid process_name td).
Proof.
  intros Hos Hrange micro ft name.
  assert (Hft : start_time_ft td = ft).
  { unfold start_time_ft, EPOCH_FILETIME, ft, micro. lia. }
  split; [|split; [|split; [|split]]].
  - unfold get_pipe_name. cbn [negb].
    rewrite bool_decide_eq_false_2 by done.
    destruct (pack_Q_be_in_range _ Hrange) as (p & Hp & _).
    rewrite Hp. unfold environ_get_TMPDIR, name, spec_start_time.
    by rewrite (b16encode_pack _ _ Hp), Hft.
  - reflexivity.
  - intros dir Hd He. by apply posix_join_separator.
  - apply spec_start_time_modern.
  - by intros ? ? ? -> -> ->.
Qed.

(** The fixture of the specification: pid 1234, created 1 700 000 000
    seconds after the epoch, process name [pwsh], [TMPDIR] unset. *)
Lemma get_pipe_name_fixture :
  get_pipe_name true "posix" None 1234 "pwsh" (mkTimedelta 19675 80000 0)
  = Ok "/tmp/CoreFxPipe_PSHost.DA1747C6.1234.None.pwsh".
Proof.
  exact (proj1 (get_pipe_name_posix "posix" None 1234 "pwsh"
                  (mkTimedelta 19675 80000 0)
                  ltac:(discriminate)
                  ltac:(vm_compute; split; congruence))).
Defined.

(** A [TMPDIR] that ends in a separator (as on macOS) gets no second one,
    and an empty [TMPDIR] gives a relative name. *)
Example get_pipe_name_TMPDIR_edges :
  get_pipe_name true "posix" (Some "/var/T/") 1 "p" (mkTimedelta 19675 80000 0)
  = Ok "/var/T/CoreFxPipe_PSHost.DA1747C6.1.None.p"
  ∧ get_pipe_name true "posix" (Some "") 1 "p" (mkTimedelta 19675 80000 0)
    = Ok "CoreFxPipe_PSHost.DA1747C6.1.None.p".
Proof. split; reflexivity. Qed.

Example get_pipe_name_nt :
  get_pipe_name true "nt" None 1234 "pwsh" (mkTimedelta 19675 80000 0)
  = Ok "\\.\pipe\PSHost.133444736000000000.1234.DefaultAppDomain.pwsh".
Proof. reflexivity. Qed.

Example get_pipe_name_without_psutil :
  ∃ e, get_pipe_name false "posix" None 1234 "pwsh" (mkTimedelta 0 0 0)
       = Raise e.
Proof. eexists. reflexivity. Qed.

End PipeNameTheorems.

(** ** The server monad *)

Section MonadFacts.

Import Server Trace ServerLogic.

Context {C : Type}.

Implicit Types (w : World (C:=C)) (tr delta : list Action).

Local Abbreviation emits := (ServerLogic.emits (C:=C)).
Local Abbreviation returns_acks := (ServerLogic.returns_acks (C:=C)).

Lemma bind_inv {A B} (m : M (C:=C) A) (k : A → M (C:=C) B) w r w' :
  bind m k w = (r, w') →
  (∃ a w1, m w = (Returns a, w1) ∧ k a w1 = (r, w'))
  ∨ (∃ e, m w = (Raises e, w') ∧ r = Raises e)
  ∨ (m w = (OutOfFuel, w') ∧ r = OutOfFuel).
Proof.
  unfold bind. destruct (m w) as [[a|e|] w1]; intros H.
  - left. eauto.
  - right. left. injection H as <- <-. eauto.
  - right. right. by injection H as <- <-.
Qed.

Lemma bind_returns {A B} (m : M (C:=C) A) (k : A → M (C:=C) B) w b w' :
  bind m k w = (Returns b, w') →
  ∃ a w1, m w = (Returns a, w1) ∧ k a w1 = (Returns b, w').
Proof.
  intros H. apply bind_inv in H as [H|[(e & _ & H)|[_ H]]]; by try done.
Qed.

Lemma bind_call_Ok {A B} c (f : C → Result A * C) (k : A → M (C:=C) B) w a c' :
  f (codec w) = (Ok a, c') →
  bind (call c f) k w
  = k a (mkWorld c' (pipelines w) (trace w ++ [codec_call c])).
Proof. intros H. unfold bind, call. by rewrite H. Qed.

Lemma bind_act {B} a (k : unit → M (C:=C) B) w :
  bind (act a) k w
  = k tt (mkWorld (codec w) (pipelines w) (trace w ++ [a])).
Proof. reflexivity. Qed.

Lemma bind_get_codec {B} (k : C → M (C:=C) B) w :
  bind get_codec k w = k (codec w) w.
Proof. reflexivity. Qed.

Lemma emits_weaken {A} (m : M (C:=C) A) (P Q : list Action → Prop) :
  emits m P → (∀ d, P d → Q d) → emits m Q.
Proof. intros H HPQ w r w' E. destruct (H _ _ _ E) as (d & ? & ?). eauto. Qed.

Lemma emits_nothing {A} (m : M (C:=C) A) (P : list Action → Prop) :
  (∀ w r w', m w = (r, w') → trace w' = trace w) → P [] → emits m P.
Proof.
  intros Hm HP w r w' E. exists []. rewrite app_nil_r. eauto.
Qed.

Lemma emits_bind {A B} (m : M (C:=C) A) (k : A → M (C:=C) B) (P : list Action → Prop) :
  P [] → (∀ d1 d2, P d1 → P d2 → P (d1 ++ d2)) →
  emits m P → (∀ a, emits (k a) P) → emits (bind m k) P.
Proof.
  intros H0 Happ Hm Hk w r w' E.
  apply bind_inv in E as [(a & w1 & E1 & E2)|[(e & E1 & _)|[E1 _]]].
  - destruct (Hm _ _ _ E1) as (d1 & T1 & P1).
    destruct (Hk a _ _ _ E2) as (d2 & T2 & P2).
    exists (d1 ++ d2). rewrite T2, T1, app_assoc. auto.
  - by apply (Hm _ _ _ E1).
  - by apply (Hm _ _ _ E1).
Qed.

Lemma emits_act a (P : list Action → Prop) : P [a] → emits (act a) P.
Proof. intros HP w r w' [= <- <-]. by exists [a]. Qed.

Lemma emits_call {A} c (f : C → Result A * C) (P : list Action → Prop) :
  P [codec_call c] → emits (call c f) P.
Proof.
  intros HP w r w'. unfold call.
  destruct (f (codec w)) as [[a|e] c']; intros [= <- <-];
    by exists [codec_call c].
Qed.

Lemma emits_try_except {A} (m : M (C:=C) A) handles h (P : list Action → Prop) :
  P [] → (∀ d1 d2, P d1 → P d2 → P (d1 ++ d2)) →
  emits m P → (∀ e, emits (h e) P) → emits (try_except m handles h) P.
Proof.
  intros H0 Happ Hm Hh w r w'. unfold try_except.
  destruct (m w) as [[a|e|] w1] eqn:E1.
  - intros [= <- <-]. by apply (Hm _ _ _ E1).
  - destruct (handles e).
    + intros E2. destruct (Hm _ _ _ E1) as (d1 & T1 & P1).
      destruct (Hh e _ _ _ E2) as (d2 & T2 & P2).
      exists (d1 ++ d2). rewrite T2, T1, app_assoc. auto.
    + intros [= <- <-]. by apply (Hm _ _ _ E1).
  - intros [= <- <-]. by apply (Hm _ _ _ E1).
Qed.

Lemma acks_app d1 d2 : acks (d1 ++ d2) = acks d1 ++ acks d2.
Proof. unfold acks, sends. by rewrite omap_app, filter_app. Qed.

Lemma ackless_nil : ackless [].
Proof. reflexivity. Qed.

Lemma ackless_app d1 d2 : ackless d1 → ackless d2 → ackless (d1 ++ d2).
Proof. unfold ackless. rewrite acks_app. by intros -> ->. Qed.

Lemma returns_acks_ackless {A} (m : M (C:=C) A) :
  emits m ackless → returns_acks m [].
Proof. intros H w a w' E. exact (H _ _ _ E). Qed.

Lemma returns_acks_bind {A B} (m : M (C:=C) A) (k : A → M (C:=C) B) l1 l2 :
  returns_acks m l1 → (∀ a, returns_acks (k a) l2) →
  returns_acks (bind m k) (l1 ++ l2).
Proof.
  intros Hm Hk w b w' E.
  apply bind_returns in E as (a & w1 & E1 & E2).
  destruct (Hm _ _ _ E1) as (d1 & T1 & A1).
  destruct (Hk a _ _ _ E2) as (d2 & T2 & A2).
  exists (d1 ++ d2). rewrite T2, T1, app_assoc, acks_app, A1, A2. done.
Qed.

Lemma returns_acks_raise {A} e l : returns_acks (raise (A:=A) e) l.
Proof. by intros w a w' [=]. Qed.

Lemma returns_acks_write ack :
  is_ack_packet ack = true → returns_acks (_write ack) [ack].
Proof.
  intros Hack w a w' [= <- <-]. exists [conn_send ack]. split; [done|].
  unfold acks, sends. cbn [omap list_omap]. by rewrite filter_cons_True.
Qed.

End MonadFacts.

(** ** Packets on the wire *)

Section WireFacts.

Import Server Trace.

Lemma ack_packet_is_ack t g :
  t ∈ ack_tags → is_ack_packet (ps_guid_packet t g) = true.
Proof.
  unfold ack_tags. rewrite !elem_of_cons, elem_of_nil.
  intros [->|[->|[->|[->|[]]]]]; reflexivity.
Qed.

Lemma data_packet_is_no_ack d st g :
  is_ack_packet (ps_data_packet d st g) = false.
Proof. destruct st; reflexivity. Qed.

(** The GUID field of a guid packet determines the GUID. *)
Lemma guid_text_inj g1 g2 : guid_8_4_4_4_12 g1 = guid_8_4_4_4_12 g2 → g1 = g2.
Proof.
  intros H. apply UUID_eq.
  pose proof (guid_value g1) as H1. rewrite H, guid_value in H1. congruence.
Qed.

Lemma ack_packet_inj t1 t2 g1 g2 :
  t1 ∈ ack_tags → t2 ∈ ack_tags →
  ps_guid_packet t1 g1 = ps_guid_packet t2 g2 →
  t1 = t2 ∧ or_zero g1 = or_zero g2.
Proof.
  rewrite !ps_guid_packet_spec. unfold spec_guid_packet.
  unfold ack_tags. rewrite !elem_of_cons, !elem_of_nil.
  intros [->|[->|[->|[->|[]]]]] [->|[->|[->|[->|[]]]]] H.
  1:{ split; [done|]. apply guid_text_inj.
        do 3 apply app_inv_head in H.
        apply (f_equal (take 36)) in H.
        rewrite !(take_app_length' _ _ 36 (eq_sym (length_guid _))) in H. exact H. }
  all: try (exfalso; cbn in H; congruence).
  all: split; [done|]; apply guid_text_inj;
    do 3 apply app_inv_head in H;
    apply (f_equal (take 36)) in H;
    rewrite !(take_app_length' _ _ 36 (eq_sym (length_guid _))) in H; exact H.
Qed.

End WireFacts.

(** ** The event loop and its bound *)

Section EventLoopFacts.

Import Server Trace ServerLogic.

Context {C : Type} (ops : Ops C).
Variable fromstring : bytes → Result Element.
Variable UUID_of_str : string → Result UUID.
Variable b64decode : string → Result bytes.

Local Abbreviation _process :=
  (Server._process ops fromstring UUID_of_str b64decode).
Local Abbreviation _process_data := (Server._process_data ops b64decode).

Implicit Types (w : World (C:=C)).

Local Abbreviation finishes := (ServerLogic.finishes (C:=C)).

Lemma finishes_bind {A B} (m : M A) (k : A → M B) :
  finishes m → (∀ a, finishes (k a)) → finishes (bind m k).
Proof.
  intros Hm Hk w. unfold bind. specialize (Hm w).
  destruct (m w) as [[a|e|] w1]; [apply Hk|done|done].
Qed.

Lemma finishes_ret {A} (a : A) : finishes (ret a).
Proof. by intros w. Qed.

Lemma finishes_raise {A} e : finishes (raise (A:=A) e).
Proof. by intros w. Qed.

Lemma finishes_act a : finishes (act a).
Proof. by intros w. Qed.

Lemma finishes_call {A} c (f : C → Result A * C) : finishes (call c f).
Proof. intros w. unfold call. by destruct (f (codec w)) as [[a|e] c']. Qed.

Lemma finishes_get_pipelines : finishes get_pipelines.
Proof. by intros w. Qed.

Lemma finishes_set_pipelines p : finishes (set_pipelines p).
Proof. by intros w. Qed.

Lemma finishes_get_codec : finishes get_codec.
Proof. by intros w. Qed.

Ltac finish_step :=
  first
    [ apply finishes_bind; [|intros ?]
    | apply finishes_ret
    | apply finishes_raise
    | apply finishes_act
    | apply finishes_call
    | apply finishes_get_pipelines
    | apply finishes_set_pipelines
    | apply finishes_get_codec
    | match goal with
      | |- finishes (match ?x with _ => _ end) => destruct x
      end ].

Lemma finishes_process_close pipeline_id :
  finishes (_process_close ops pipeline_id).
Proof.
  unfold _process_close, RunspaceThread_close, PipelineThread_close,
    PipelineThread_join, close_ack, data, _write.
  cbv zeta. repeat finish_step.
Qed.

Lemma finishes_process_command pipeline_id :
  finishes (_process_command ops pipeline_id).
Proof.
  unfold _process_command, PipelineThread_start, command_ack, _write.
  cbv zeta. repeat finish_step.
Qed.

Lemma finishes_process_signal pipeline_id :
  finishes (_process_signal ops pipeline_id).
Proof.
  unfold _process_signal, PipelineThread_stop, signal_ack, _write.
  cbv zeta. repeat finish_step.
Qed.

(** A step that ends, followed by a continuation that ends where the step
    leaves off, ends. *)
Lemma bind_finishes_at {A B} (m : M A) (k : A → M B) w :
  (m w).1 ≠ OutOfFuel →
  (∀ a w1, m w = (Returns a, w1) → (k a w1).1 ≠ OutOfFuel) →
  (bind m k w).1 ≠ OutOfFuel.
Proof.
  unfold bind. destruct (m w) as [[a|e|] w1]; intros Hm Hk;
    [by apply Hk|done|done].
Qed.

(** A bound above the number of pending events lets the loop finish. *)
Lemma drain_events_finishes n pipeline_id w :
  events_end ops (codec w) n →
  (drain_events ops (S n) pipeline_id w).1 ≠ OutOfFuel.
Proof.
  intros H. remember (codec w) as c eqn:Hc. revert w Hc.
  induction H as [c c' E|c e c' E|c event c' n E _ IH]; intros w ->.
  - cbn [drain_events]. unfold bind, call. by rewrite E.
  - cbn [drain_events]. unfold bind, call. by rewrite E.
  - change (drain_events ops (S (S n)) pipeline_id w)
      with (bind (call next_event (do_next_event ops))
              (λ event,
                 match event with
                 | None => ret tt
                 | Some event =>
                     bind
                       match pipeline_id with
                       | Some g =>
                           bind get_pipelines
                             (λ p, match p !! g with
                                   | None => raise (KeyError_UUID g)
                                   | Some _ =>
                                       act (queue_put (Some g) (Some event))
                                   end)
                       | None => act (queue_put None (Some event))
                       end
                       (λ _, drain_events ops (S n) pipeline_id)
                 end) w).
    unfold bind at 1. unfold call. rewrite E.
    destruct pipeline_id as [g|].
    + unfold bind at 1 2. unfold get_pipelines. cbn [pipelines].
      destruct (pipelines w !! g); [|done].
      unfold act. by apply IH.
    + unfold bind at 1. unfold act. by apply IH.
Qed.

(** Replacing the continuation of a [bind] by one that agrees with it
    on the outcome at hand. *)
Lemma bind_continue {A B} (m : M (C:=C) A) (k k' : A → M B) w r w' :
  bind m k w = (r, w') →
  (∀ a w1, k a w1 = (r, w') → k' a w1 = (r, w')) →
  bind m k' w = (r, w').
Proof.
  unfold bind. destruct (m w) as [[a|e|] w1]; intros E Hk; [auto|done..].
Qed.

(** More iterations than needed change nothing. *)
Lemma drain_events_more_fuel fuel pipeline_id w r w' :
  drain_events ops fuel pipeline_id w = (r, w') → r ≠ OutOfFuel →
  drain_events ops (S fuel) pipeline_id w = (r, w').
Proof.
  intros E Hr. revert w E. induction fuel as [|fuel IH]; intros w E.
  - by injection E as <- <-.
  - revert E. cbn [drain_events]. intros E.
    apply (bind_continue _ _ _ _ _ _ E). intros [event|] w1; [|done].
    intros E1. apply (bind_continue _ _ _ _ _ _ E1). intros _ w2. apply IH.
Qed.

Lemma drain_events_enough_fuel fuel n pipeline_id w r w' :
  drain_events ops fuel pipeline_id w = (r, w') → r ≠ OutOfFuel →
  drain_events ops (fuel + n) pipeline_id w = (r, w').
Proof.
  intros E Hr. induction n as [|n IH].
  - by rewrite Nat.add_0_r.
  - rewrite Nat.add_succ_r. by apply drain_events_more_fuel.
Qed.

Lemma process_data_enough_fuel fuel n body stream_type pipeline_id w r w' :
  _process_data fuel body stream_type pipeline_id w = (r, w') →
  r ≠ OutOfFuel →
  _process_data (fuel + n) body stream_type pipeline_id w = (r, w').
Proof.
  intros E Hr. revert E. unfold Server._process_data. intros E.
  apply (bind_continue _ _ _ _ _ _ E). intros psrp_data w1 E1.
  apply (bind_continue _ _ _ _ _ _ E1). intros _ w2.
  unfold bind.
  destruct (drain_events ops fuel _ w2) as [[[]|e|] w3] eqn:E2; intros E3.
  - by rewrite (drain_events_enough_fuel _ n _ _ _ _ E2).
  - by rewrite (drain_events_enough_fuel _ n _ _ _ _ E2).
  - by injection E3 as <- <-.
Qed.

(** The outcome of [_process] does not depend on the bound given to the
    event loop, once the bound is large enough for the loop to finish. *)
Lemma process_enough_fuel fuel n raw w r w' :
  _process fuel raw w = (r, w') → r ≠ OutOfFuel →
  _process (fuel + n) raw w = (r, w').
Proof.
  intros E Hr. revert E. unfold Server._process. intros E.
  apply (bind_continue _ _ _ _ _ _ E). intros el w1 E1.
  apply (bind_continue _ _ _ _ _ _ E1). intros s w2 E2.
  apply (bind_continue _ _ _ _ _ _ E2). intros g w3.
  repeat case_decide; try done;
    intros E3; by apply process_data_enough_fuel.
Qed.

(** Any bound above the number of pending events will do. *)
Lemma drain_events_bounded fuel n pipeline_id w :
  events_end ops (codec w) n → (n < fuel)%nat →
  (drain_events ops fuel pipeline_id w).1 ≠ OutOfFuel.
Proof.
  intros H Hlt. pose proof (drain_events_finishes n pipeline_id w H) as Hf.
  destruct (drain_events ops (S n) pipeline_id w) as [r w'] eqn:E.
  replace fuel with (S n + (fuel - S n))%nat by lia.
  by rewrite (drain_events_enough_fuel _ (fuel - S n) _ _ _ _ E Hf).
Qed.

(** [_process_data] ends when the bound exceeds the number of events the
    codec holds once it has received the payload. *)
Lemma process_data_finishes fuel body stream_type pipeline_id w :
  (∀ payload c, do_receive_data ops payload (codec w) = (Ok tt, c) →
     ∃ n, events_end ops c n ∧ (n < fuel)%nat) →
  (_process_data fuel body stream_type pipeline_id w).1 ≠ OutOfFuel.
Proof.
  intros Hev. unfold Server._process_data. apply bind_finishes_at.
  { destruct body as [[|]|]; try done. unfold lift.
    by destruct (b64decode _). }
  intros psrp_data w1 E1.
  assert (w1 = w) as ->.
  { destruct body as [[|]|]; try by injection E1.
    unfold lift in E1. destruct (b64decode _); by injection E1. }
  cbv zeta. apply bind_finishes_at; [apply finishes_call|].
  intros [] w2 E2. unfold call in E2.
  destruct (do_receive_data ops _ (codec w)) as [[[]|e] c] eqn:E; [|done].
  injection E2 as <-. destruct (Hev _ _ E) as (n & Hn & Hlt).
  apply bind_finishes_at; [by apply (drain_events_bounded _ n)|].
  by intros.
Qed.

(** [_process] ends under the same bound. *)
Lemma process_finishes fuel raw w :
  (∀ payload c, do_receive_data ops payload (codec w) = (Ok tt, c) →
     ∃ n, events_end ops c n ∧ (n < fuel)%nat) →
  (_process fuel raw w).1 ≠ OutOfFuel.
Proof.
  intros Hev. unfold Server._process.
  unfold bind at 1. unfold lift at 1.
  destruct (fromstring raw) as [el|e]; [|done].
  cbn [ret]. unfold bind at 1.
  destruct (attrib el !! "PSGuid") as [s|]; [|done].
  cbn [ret]. unfold bind at 1. unfold lift at 1.
  destruct (UUID_of_str s) as [g|e]; [|done].
  cbn [ret]. cbv zeta.
  repeat case_decide;
    first
      [ apply (finishes_process_close _ w)
      | apply (finishes_process_command _ w)
      | by apply process_data_finishes
      | apply (finishes_process_signal _ w)
      | done ].
Qed.

End EventLoopFacts.

(** ** The transport *)

Section TransportFacts.

Import Server Trace ServerLogic.

Context {C : Type} (ops : Ops C).
Variable fromstring : bytes → Result Element.
Variable UUID_of_str : string → Result UUID.
Variable b64decode : string → Result bytes.
Variable format_exc : PyExc → string.

Local Abbreviation _process :=
  (Server._process ops fromstring UUID_of_str b64decode).
Local Abbreviation _process_data := (Server._process_data ops b64decode).
Local Abbreviation process_guarded :=
  (Server.process_guarded ops fromstring UUID_of_str b64decode format_exc).

Implicit Types (w : World (C:=C)).

Ltac ackless_step :=
  first
    [ apply emits_bind; [apply ackless_nil | apply ackless_app | | intros ?]
    | apply emits_act; reflexivity
    | apply emits_call; reflexivity
    | apply emits_nothing;
      [by intros ? ? ? [= <- <-] | apply ackless_nil]
    | match goal with
      | |- emits (match ?x with _ => _ end) _ => destruct x
      end ].

Lemma ackless_data (d : PSRPPayload) : emits (C:=C) (data d) ackless.
Proof.
  apply emits_act. unfold ackless, acks, sends. cbn [omap list_omap].
  rewrite filter_cons_False, filter_nil; [done|].
  by rewrite data_packet_is_no_ack.
Qed.

Lemma ackless_send_data : emits (_send_data ops) ackless.
Proof.
  unfold _send_data. ackless_step; [ackless_step|].
  destruct a; [apply ackless_data | ackless_step].
Qed.

Lemma ackless_RunspaceThread_close : emits (RunspaceThread_close ops) ackless.
Proof.
  unfold RunspaceThread_close.
  ackless_step; [ackless_step|].
  ackless_step; [ackless_step|].
  ackless_step; [|ackless_step].
  destruct a0; [apply ackless_data | ackless_step].
Qed.

Lemma ackless_PipelineThread_close t :
  emits (PipelineThread_close ops t) ackless.
Proof. unfold PipelineThread_close. repeat ackless_step. Qed.

Lemma ackless_PipelineThread_stop t :
  emits (PipelineThread_stop ops t) ackless.
Proof. unfold PipelineThread_stop. repeat ackless_step. Qed.

Lemma ackless_PipelineThread_join t :
  emits (C:=C) (PipelineThread_join t) ackless.
Proof. unfold PipelineThread_join. repeat ackless_step. Qed.

Lemma ackless_PipelineThread_start g t :
  emits (C:=C) (PipelineThread_start g t) ackless.
Proof. unfold PipelineThread_start. repeat ackless_step. Qed.

Lemma ackless_drain_events fuel pipeline_id :
  emits (drain_events ops fuel pipeline_id) ackless.
Proof.
  induction fuel as [|fuel IH]; cbn [drain_events].
  - ackless_step.
  - ackless_step; [ackless_step|].
    destruct a as [event|]; [|ackless_step].
    ackless_step; [|exact IH].
    repeat ackless_step.
Qed.

Lemma close_acks pipeline_id :
  returns_acks (_process_close ops pipeline_id)
    [ps_guid_packet "CloseAck" pipeline_id].
Proof.
  unfold _process_close.
  apply (returns_acks_bind _ _ []).
  - apply returns_acks_ackless. destruct pipeline_id as [g|].
    + ackless_step; [ackless_step|]. destruct (a !! g); [|ackless_step].
      ackless_step; [ackless_step|].
      ackless_step; [apply ackless_PipelineThread_close|].
      apply ackless_PipelineThread_join.
    + ackless_step; [apply ackless_RunspaceThread_close | ackless_step].
  - intros _. by apply returns_acks_write, ack_packet_is_ack; set_solver.
Qed.

Lemma command_acks pipeline_id :
  returns_acks (_process_command ops pipeline_id)
    (match pipeline_id with
     | Some g => [ps_guid_packet "CommandAck" (Some g)]
     | None => []
     end).
Proof.
  unfold _process_command. destruct pipeline_id as [g|].
  - apply (returns_acks_bind _ _ []);
      [apply returns_acks_ackless; ackless_step|intros _].
    apply (returns_acks_bind _ _ []);
      [apply returns_acks_ackless; ackless_step|intros p].
    apply (returns_acks_bind _ _ []);
      [apply returns_acks_ackless; ackless_step|intros _].
    apply (returns_acks_bind _ _ []);
      [apply returns_acks_ackless, ackless_PipelineThread_start|intros _].
    by apply returns_acks_write, ack_packet_is_ack; set_solver.
  - apply returns_acks_ackless. ackless_step.
Qed.

Lemma data_acks fuel body stream_type pipeline_id :
  returns_acks (_process_data fuel body stream_type pipeline_id)
    [ps_guid_packet "DataAck" pipeline_id].
Proof.
  unfold Server._process_data.
  apply (returns_acks_bind _ _ []).
  { apply returns_acks_ackless.
    destruct body as [[|]|]; try ackless_step.
    unfold lift. destruct (b64decode _); ackless_step. }
  intros psrp_data.
  apply (returns_acks_bind _ _ []);
    [apply returns_acks_ackless; ackless_step|intros _].
  apply (returns_acks_bind _ _ []);
    [apply returns_acks_ackless, ackless_drain_events|intros _].
  by apply returns_acks_write, ack_packet_is_ack; set_solver.
Qed.

Lemma signal_acks pipeline_id :
  returns_acks (_process_signal ops pipeline_id)
    (match pipeline_id with
     | Some g => [ps_guid_packet "SignalAck" (Some g)]
     | None => []
     end).
Proof.
  unfold _process_signal. destruct pipeline_id as [g|].
  - apply (returns_acks_bind _ _ []);
      [apply returns_acks_ackless; ackless_step|intros p].
    destruct (p !! g) as [t|]; [|apply returns_acks_raise].
    apply (returns_acks_bind _ _ []);
      [apply returns_acks_ackless, ackless_PipelineThread_stop|intros _].
    by apply returns_acks_write, ack_packet_is_ack; set_solver.
  - apply returns_acks_ackless. ackless_step.
Qed.

(** Once the element is parsed and its GUID read, [_process] is the
    handler its tag selects. *)
Lemma process_dispatch fuel raw el s g w :
  fromstring raw = Ok el → attrib el !! "PSGuid" = Some s →
  UUID_of_str s = Ok g →
  _process fuel raw w
  = (if decide (tag el = "Close") then _process_close ops (pipeline_scope g)
     else if decide (tag el = "Command")
     then _process_command ops (pipeline_scope g)
     else if decide (tag el = "Data")
     then _process_data fuel (text el)
            (default "" (attrib el !! "Stream")) (pipeline_scope g)
     else if decide (tag el = "Signal")
     then _process_signal ops (pipeline_scope g)
     else ret tt) w.
Proof.
  intros Hel Hs Hg. unfold Server._process, bind, lift.
  rewrite Hel. cbn. rewrite Hs. cbn. rewrite Hg. reflexivity.
Qed.

(** C1 (as amended).  Handling a well-formed packet of kind Close,
    Command, Data or Signal ends, by returning or by raising, once the
    event loop is allowed more iterations than the codec holds events.
    When it returns, the ack packets it wrote are exactly one ack of the
    matching kind carrying the packet's GUID; except that a Command and a
    Signal addressed to the runspace pool (all-zero GUID) write no ack at
    all. *)
Theorem process_acks_exactly_once fuel raw el s g w :
  fromstring raw = Ok el → attrib el !! "PSGuid" = Some s →
  UUID_of_str s = Ok g →
  tag el ∈ ["Close"; "Command"; "Data"; "Signal"] →
  (∀ payload c, do_receive_data ops payload (codec w) = (Ok tt, c) →
     ∃ n, events_end ops c n ∧ (n < fuel)%nat) →
  (_process fuel raw w).1 ≠ OutOfFuel
  ∧ ∀ w', _process fuel raw w = (Returns tt, w') →
      ∃ delta, trace w' = trace w ++ delta ∧
        acks delta
        = if bool_decide (tag el ∈ ["Command"; "Signal"])
             && bool_decide (g = zero)
          then []
          else [ps_guid_packet (tag el +:+ "Ack") (pipeline_scope g)].
Proof.
  intros Hel Hs Hg Htag Hev.
  split; [by apply process_finishes|]. intros w' H.
  rewrite (process_dispatch _ _ _ _ _ _ Hel Hs Hg) in H.
  rewrite !elem_of_cons, elem_of_nil in Htag.
  destruct Htag as [E|[E|[E|[E|[]]]]]; rewrite E in *.
  - rewrite decide_True in H by done.
    exact (close_acks _ _ _ _ H).
  - rewrite decide_False, decide_True in H by done.
    destruct (command_acks _ _ _ _ H) as (d & T & A). exists d.
    change (bool_decide ("Command" ∈ ["Command"; "Signal"])) with true.
    unfold pipeline_scope in *.
    destruct (decide (g = zero));
      [rewrite bool_decide_eq_true_2 by done
      |rewrite bool_decide_eq_false_2 by done]; by split.
  - rewrite decide_False, decide_False, decide_True in H by done.
    exact (data_acks _ _ _ _ _ _ _ H).
  - rewrite decide_False, decide_False, decide_False, decide_True in H by done.
    destruct (signal_acks _ _ _ _ H) as (d & T & A). exists d.
    change (bool_decide ("Signal" ∈ ["Command"; "Signal"])) with true.
    unfold pipeline_scope in *.
    destruct (decide (g = zero));
      [rewrite bool_decide_eq_true_2 by done
      |rewrite bool_decide_eq_false_2 by done]; by split.
Qed.

(** C6 (as amended).  Processing [<Close>] for a live pipeline [g] runs,
    in this order: [begin_stop] if the pipeline is Running, the codec's
    [close], one [data_to_send] whose result is dropped, the sentinel on
    the pipeline's event queue, the join of the pipeline thread, and then
    the write of [CloseAck(g)].  That ack is the only packet written: the
    bytes taken from the codec are not sent.  The table entry is
    removed.  (The table is as every processed packet leaves it:
    started threads under their own, non-zero pipeline id.) *)
Theorem close_pipeline_sequence fuel raw el s g t w c1 c2 c3 d :
  fromstring raw = Ok el → tag el = "Close" →
  attrib el !! "PSGuid" = Some s → UUID_of_str s = Ok g →
  table_ok (pipelines w) → pipelines w !! g = Some t →
  (if decide (pipeline_state ops g (codec w) = Running)
   then do_pipeline_begin_stop ops g (codec w)
   else (Ok tt, codec w)) = (Ok tt, c1) →
  do_pipeline_close ops g c1 = (Ok tt, c2) →
  do_data_to_send ops c2 = (Ok d, c3) →
  let delta :=
    (if decide (pipeline_state ops g (codec w) = Running)
     then [codec_call (pipeline_begin_stop g)] else [])
    ++ [codec_call (pipeline_close g);
        codec_call data_to_send;
        queue_put (Some g) None;
        thread_join (pipeline_thread g);
        conn_send (ps_guid_packet "CloseAck" (Some g))] in
  _process fuel raw w
  = (Returns tt, mkWorld c3 (delete g (pipelines w)) (trace w ++ delta))
  ∧ sends delta = [ps_guid_packet "CloseAck" (Some g)].
Proof.
  intros Hel Htag Hs Hg Hok Ht Hstop Hclose Hsend delta.
  destruct (Hok _ _ Ht) as (Hid & Hstarted & Hz).
  split.
  - rewrite (process_dispatch _ _ _ _ _ _ Hel Hs Hg), Htag.
    rewrite decide_True by done. unfold pipeline_scope.
    rewrite decide_False by done.
    unfold _process_close, bind, get_pipelines, set_pipelines. rewrite Ht.
    unfold close_ack, _write.
    unfold PipelineThread_close, PipelineThread_join, bind, get_codec, call,
      act, ret.
    rewrite Hid, Hstarted. subst delta. cbn [codec pipelines trace].
    destruct (decide (pipeline_state ops g (codec w) = Running));
      cbn [codec pipelines trace].
    + rewrite Hstop. cbn [codec pipelines trace]. rewrite Hclose.
      cbn [codec pipelines trace]. rewrite Hsend.
      cbn [codec pipelines trace]. by rewrite <- !app_assoc.
    + injection Hstop as <-. rewrite Hclose.
      cbn [codec pipelines trace]. rewrite Hsend.
      cbn [codec pipelines trace]. by rewrite <- !app_assoc.
  - subst delta. by destruct (decide _).
Qed.

(** C5 (as amended).  [_process] fails, leaving the world untouched, when
    the parser rejects the packet, when the [PSGuid] attribute is missing,
    when [uuid.UUID] rejects its value, and, for a Data packet with a
    non-empty body, when the base64 decoder rejects the body.  An element
    whose tag is none of Close, Command, Data and Signal is accepted: it
    is processed without any effect and without an error. *)
Theorem process_decode_failures fuel raw w :
  (∀ e, fromstring raw = Raise e → _process fuel raw w = (Raises e, w))
  ∧ (∀ el, fromstring raw = Ok el → attrib el !! "PSGuid" = None →
       _process fuel raw w = (Raises (mkExc KeyError "'PSGuid'"), w))
  ∧ (∀ el s e,
       fromstring raw = Ok el → attrib el !! "PSGuid" = Some s →
       UUID_of_str s = Raise e →
       _process fuel raw w = (Raises e, w))
  ∧ (∀ el s g body e,
       fromstring raw = Ok el → attrib el !! "PSGuid" = Some s →
       UUID_of_str s = Ok g →
       tag el = "Data" → text el = Some body → body ≠ "" →
       b64decode body = Raise e →
       _process fuel raw w = (Raises e, w))
  ∧ (∀ el s g,
       fromstring raw = Ok el → attrib el !! "PSGuid" = Some s →
       UUID_of_str s = Ok g →
       tag el ∉ ["Close"; "Command"; "Data"; "Signal"] →
       _process fuel raw w = (Returns tt, w)).
Proof.
  repeat split.
  - intros e He. unfold Server._process, bind, lift. by rewrite He.
  - intros el Hel Hs. unfold Server._process, bind, lift.
    rewrite Hel. cbn. by rewrite Hs.
  - intros el s e Hel Hs Hg. unfold Server._process, bind, lift.
    rewrite Hel. cbn. rewrite Hs. cbn. by rewrite Hg.
  - intros el s g body e Hel Hs Hg Htag Htext Hbody He.
    rewrite (process_dispatch _ _ _ _ _ _ Hel Hs Hg), Htag.
    rewrite decide_False, decide_False, decide_True by done.
    unfold Server._process_data, bind, lift. rewrite Htext.
    destruct body as [|a body]; [done|]. by rewrite He.
  - intros el s g Hel Hs Hg Htag.
    rewrite (process_dispatch _ _ _ _ _ _ Hel Hs Hg).
    rewrite !not_elem_of_cons in Htag.
    destruct Htag as (? & ? & ? & ? & _).
    by rewrite !decide_False by done.
Qed.

(** C4.  When processing a packet in the read loop raises an exception
    [e] (an instance of [Exception]), the handler builds the error record
    with category ReadError, activity "Parsing PSRP msg", reason "Unknown
    result", target "RunspacePool(<pool id>)" and fully-qualified error id
    ProcessRunspaceMessageFailure.  If the pool state is Opened or Broken
    it calls [set_broken] with that record, then [data_to_send], writes
    the resulting payload (if any) as a Data packet, and the loop exits
    without taking the remaining reads.  In any other pool state the
    exception leaves the loop. *)
Theorem read_loop_failure_policy fuel data reads buffer end_idx e w w1 :
  data ≠ [] → index LF data = Some end_idx →
  _process fuel (concat buffer ++ take end_idx data) w = (Raises e, w1) →
  is_Exception e = true →
  let err := process_failure_record ops format_exc e (codec w1) in
  let logged :=
    trace w1
      ++ [log_exception "Unknown exception during message processing"] in
  (Category (CategoryInfo err) = ReadError
   ∧ Activity (CategoryInfo err) = Some "Parsing PSRP msg"
   ∧ Reason (CategoryInfo err) = Some "Unknown result"
   ∧ TargetName (CategoryInfo err)
     = Some ("RunspacePool("
               +:+ string_of_list_byte
                     (guid_8_4_4_4_12 (runspace_pool_id ops (codec w1)))
               +:+ ")")
   ∧ FullyQualifiedErrorId err = Some "ProcessRunspaceMessageFailure"
   ∧ Message (Exception err) = exc_str e)
  ∧ (pool_state ops (codec w1) ∈ [RP_Opened; RP_Broken] →
     ∀ c2 c3 resp,
       do_set_broken ops err (codec w1) = (Ok tt, c2) →
       do_data_to_send ops c2 = (Ok resp, c3) →
       run_loop (process_guarded fuel) (data :: reads) buffer w
       = (Returns Exited,
          mkWorld c3 (pipelines w1)
            (logged
               ++ [codec_call (set_broken err); codec_call data_to_send]
               ++ match resp with
                  | Some r =>
                      [conn_send
                         (ps_data_packet (payload_data r)
                            (payload_stream_type r) (payload_pipeline_id r))]
                  | None => []
                  end)))
  ∧ (pool_state ops (codec w1) ∉ [RP_Opened; RP_Broken] →
     run_loop (process_guarded fuel) (data :: reads) buffer w
     = (Raises e, mkWorld (codec w1) (pipelines w1) logged)).
Proof.
  intros Hdata Hidx Hproc Hexc err logged.
  split; [|split].
  - repeat split.
  - intros Hstate c2 c3 resp Hbroken Hsend. subst err logged.
    cbn [run_loop]. rewrite decide_False by done. rewrite Hidx.
    unfold bind at 1. unfold Server.process_guarded, try_except.
    unfold bind at 1. rewrite Hproc, Hexc.
    unfold Server.data, _write. unfold bind, act, get_codec, call, ret.
    cbn [codec pipelines trace].
    rewrite decide_True by done. cbn [codec pipelines trace].
    rewrite Hbroken.
    cbn [codec pipelines trace]. rewrite Hsend.
    cbn [codec pipelines trace].
    destruct resp as [r|]; cbn [codec pipelines trace];
      by rewrite <- !app_assoc.
  - intros Hstate. subst err logged.
    cbn [run_loop]. rewrite decide_False by done. rewrite Hidx.
    unfold bind at 1. unfold Server.process_guarded, try_except.
    unfold bind at 1. rewrite Hproc, Hexc.
    unfold bind, act, get_codec, call, ret, raise.
    cbn [codec pipelines trace].
    by rewrite decide_False by done.
Qed.

End TransportFacts.

(** ** The pipeline table and the event loop *)

Section TableFacts.

Import Server Trace ServerLogic.

Context {C : Type} (ops : Ops C).
Variable fromstring : bytes → Result Element.
Variable UUID_of_str : string → Result UUID.
Variable b64decode : string → Result bytes.

Local Abbreviation _process :=
  (Server._process ops fromstring UUID_of_str b64decode).
Local Abbreviation _process_data := (Server._process_data ops b64decode).

Implicit Types (w : World (C:=C)) (p : gmap UUID PipelineThread).

Local Abbreviation same_table := (ServerLogic.same_table (C:=C)).

Lemma same_table_bind {A B} (m : M A) (k : A → M B) :
  same_table m → (∀ a, same_table (k a)) → same_table (bind m k).
Proof.
  intros Hm Hk w r w' E.
  apply bind_inv in E as [(a & w1 & E1 & E2)|[(e & E1 & _)|[E1 _]]].
  - by rewrite (Hk _ _ _ _ E2), (Hm _ _ _ E1).
  - exact (Hm _ _ _ E1).
  - exact (Hm _ _ _ E1).
Qed.

Lemma same_table_act a : same_table (act a).
Proof. by intros w r w' [= <- <-]. Qed.

Lemma same_table_call {A} c (f : C → Result A * C) : same_table (call c f).
Proof.
  intros w r w'. unfold call.
  by destruct (f (codec w)) as [[a|e] c']; intros [= <- <-].
Qed.

Lemma same_table_pure {A} (m : M A) :
  (∀ w, ∃ r, m w = (r, w)) → same_table m.
Proof.
  intros Hm w r w' E. destruct (Hm w) as [r' E']. congruence.
Qed.

Ltac table_step :=
  first
    [ apply same_table_bind; [|intros ?]
    | apply same_table_act
    | apply same_table_call
    | apply same_table_pure; intros ?; eexists; reflexivity
    | match goal with
      | |- same_table (match ?x with _ => _ end) => destruct x
      end ].

Lemma same_table_PipelineThread_close t :
  same_table (PipelineThread_close ops t).
Proof. unfold PipelineThread_close. repeat table_step. Qed.

Lemma same_table_PipelineThread_stop t :
  same_table (PipelineThread_stop ops t).
Proof. unfold PipelineThread_stop. repeat table_step. Qed.

Lemma same_table_PipelineThread_join t :
  same_table (PipelineThread_join (C:=C) t).
Proof. unfold PipelineThread_join. repeat table_step. Qed.

Lemma same_table_RunspaceThread_close :
  same_table (RunspaceThread_close ops).
Proof.
  unfold RunspaceThread_close, data, _write. repeat table_step.
Qed.

Lemma same_table_drain_events fuel pipeline_id :
  same_table (drain_events ops fuel pipeline_id).
Proof.
  induction fuel as [|fuel IH]; cbn [drain_events].
  - table_step.
  - table_step; [table_step|].
    destruct a as [event|]; [|table_step].
    table_step; [|exact IH]. repeat table_step.
Qed.

Lemma same_table_process_data fuel body stream_type pipeline_id :
  same_table (_process_data fuel body stream_type pipeline_id).
Proof.
  unfold Server._process_data, data_ack, _write.
  table_step.
  { destruct body as [[|]|]; try table_step.
    unfold lift. destruct (b64decode _); table_step. }
  table_step; [table_step|].
  table_step; [apply same_table_drain_events | table_step].
Qed.

Lemma same_table_process_signal pipeline_id :
  same_table (_process_signal ops pipeline_id).
Proof.
  unfold _process_signal, signal_ack, _write.
  destruct pipeline_id as [g|]; [|table_step].
  table_step; [table_step|]. destruct (a !! g); [|table_step].
  table_step; [apply same_table_PipelineThread_stop | table_step].
Qed.

Lemma table_ok_delete p g : table_ok p → table_ok (delete g p).
Proof.
  intros Hp g' t Hg'. apply lookup_delete_Some in Hg' as [_ Hg']. eauto.
Qed.

Lemma table_ok_insert p g :
  table_ok p → g ≠ zero → table_ok (<[g := mkPipelineThread g true]> p).
Proof.
  intros Hp Hz g' t Hg'.
  apply lookup_insert_Some in Hg' as [[<- <-]|[_ Hg']]; eauto.
Qed.

(** Closing removes the entry of the pipeline, if anything. *)
Lemma process_close_table pipeline_id w r w' :
  _process_close ops pipeline_id w = (r, w') →
  pipelines w' = pipelines w
  ∨ ∃ g, pipeline_id = Some g ∧ pipelines w' = delete g (pipelines w).
Proof.
  unfold _process_close. intros E.
  assert (Hack : same_table (close_ack (C:=C) pipeline_id))
    by apply same_table_act.
  destruct pipeline_id as [g|].
  - unfold bind at 1 2 in E. unfold get_pipelines in E.
    destruct (pipelines w !! g) as [t|] eqn:Ht.
    + right. exists g. split; [done|].
      assert (Hrest : same_table
                (bind (PipelineThread_close ops t)
                   (λ _, PipelineThread_join t))).
      { apply same_table_bind; [apply same_table_PipelineThread_close|].
        intros _. apply same_table_PipelineThread_join. }
      unfold bind at 1 in E. unfold set_pipelines at 1 in E.
      destruct (bind (PipelineThread_close ops t) _ _) as [[[]|e|] w1] eqn:E1.
      * by rewrite (Hack _ _ _ E), (Hrest _ _ _ E1).
      * injection E as <- <-. by rewrite (Hrest _ _ _ E1).
      * injection E as <- <-. by rewrite (Hrest _ _ _ E1).
    + left. by injection E as <- <-.
  - left. revert E. revert w r w'.
    change (same_table
              (bind (bind (RunspaceThread_close ops)
                       (λ _, act (thread_join runspace_thread)))
                 (λ _, close_ack None))).
    apply same_table_bind; [|intros _; exact Hack].
    apply same_table_bind; [apply same_table_RunspaceThread_close|].
    intros _. apply same_table_act.
Qed.

(** A Command leaves the table as it is (when it fails) or adds the
    started thread of the new pipeline. *)
Lemma process_command_table pipeline_id w r w' :
  table_ok (pipelines w) →
  _process_command ops pipeline_id w = (r, w') →
  pipelines w' = pipelines w
  ∨ ∃ g, pipeline_id = Some g
         ∧ pipelines w' = <[g := mkPipelineThread g true]> (pipelines w).
Proof.
  intros Hok. unfold _process_command.
  destruct pipeline_id as [g|]; [|intros [= <- <-]; by left].
  unfold bind at 1. unfold call at 1.
  destruct (do_ServerPipeline ops g (codec w)) as [[[]|e] c1];
    [|intros [= <- <-]; by left].
  unfold bind at 1 2. unfold get_pipelines, set_pipelines.
  cbn [codec pipelines trace].
  assert (Hack : same_table (command_ack (C:=C) (Some g)))
    by apply same_table_act.
  destruct (pipelines w !! g) as [t|] eqn:Ht; cbn [default from_option id].
  - destruct (Hok _ _ Ht) as (Hid & Hstarted & _).
    unfold PipelineThread_start, bind. rewrite Hstarted. unfold raise.
    intros [= <- <-]. left. cbn [pipelines]. by apply insert_id.
  - unfold PipelineThread_start. cbn [pt_started pt_pipeline_id].
    unfold bind at 1 2 3. unfold get_pipelines, set_pipelines, act.
    cbn [codec pipelines trace].
    intros E. right. exists g. split; [done|].
    rewrite (Hack _ _ _ E). cbn [pipelines]. by rewrite insert_insert_eq.
Qed.

(** The table invariant holds after every packet, processed or not. *)
Lemma process_keeps_table_ok fuel raw w r w' :
  table_ok (pipelines w) →
  _process fuel raw w = (r, w') → table_ok (pipelines w').
Proof.
  intros Hok. unfold Server._process.
  unfold bind at 1. unfold lift at 1.
  destruct (fromstring raw) as [el|e]; [|by intros [= <- <-]].
  cbn [ret]. unfold bind at 1.
  destruct (attrib el !! "PSGuid") as [s|]; [|by intros [= <- <-]].
  cbn [ret]. unfold bind at 1. unfold lift at 1.
  destruct (UUID_of_str s) as [g|e]; [|by intros [= <- <-]].
  cbn [ret].
  set (ps_guid := if decide (g = zero) then None else Some g).
  assert (Hz : ∀ g', ps_guid = Some g' → g' ≠ zero).
  { unfold ps_guid. intros g'. by case_decide; intros [= <-]. }
  clearbody ps_guid.
  destruct (decide (tag el = "Close")).
  { intros E. destruct (process_close_table _ _ _ _ E) as [->|(g' & _ & ->)];
      [done|by apply table_ok_delete]. }
  destruct (decide (tag el = "Command")).
  { intros E.
    destruct (process_command_table _ _ _ _ Hok E) as [->|(g' & Hg' & ->)];
      [done|].
    apply table_ok_insert; [done|]. by apply Hz. }
  destruct (decide (tag el = "Data")).
  { intros E. by rewrite (same_table_process_data _ _ _ _ _ _ _ E). }
  destruct (decide (tag el = "Signal")).
  { intros E. by rewrite (same_table_process_signal _ _ _ _ E). }
  by intros [= <- <-].
Qed.

End TableFacts.

(** ** The script executor *)

Section ExecutorFacts.

Import Server Trace ExecutorSpec.

Context {C : Type} (ops : Ops C).
Variable format_exc : PyExc → string.
Variable uses_pipeline_host : UUID → C → bool.
Variable exec : string → PSCmdlet → M (C:=C) unit.

Local Abbreviation run_script := (Server.run_script ops format_exc exec).
Local Abbreviation _exec :=
  (Server._exec ops format_exc uses_pipeline_host exec).
Local Abbreviation exec_cmdlet := (Server.exec_cmdlet uses_pipeline_host).

Implicit Types (w : World (C:=C)) (L : list (option string * PyValue)).

Lemma exec_parameters_fold L arguments parameters :
  foldl
    (λ '(arguments, parameters) '(raw_name, raw_value),
       let arguments := arguments ++ [raw_value] in
       match raw_name with
       | Some raw_name => (arguments, <[raw_name := raw_value]> parameters)
       | None => (arguments, parameters)
       end)
    (arguments, parameters) L
  = (arguments ++ map snd L, foldl bind_parameter parameters L).
Proof.
  revert arguments parameters.
  induction L as [|[[n|] v] L IH]; intros arguments parameters; cbn.
  - by rewrite app_nil_r.
  - by rewrite IH, <- app_assoc.
  - by rewrite IH, <- app_assoc.
Qed.

Lemma named_value_cons n v L name :
  named_value ((n, v) :: L) name
  = match named_value L name with
    | Some x => Some x
    | None => if decide (n = Some name) then Some v else None
    end.
Proof.
  unfold named_value. cbn [omap list_omap].
  destruct (decide (n = Some name)); [|by destruct (last _)].
  destruct (omap _ L) as [|y l] eqn:E; [done|].
  change (last (v :: y :: l)) with (last (y :: l)).
  by destruct (last (y :: l)) eqn:E'; [|apply last_None in E'].
Qed.

Lemma lookup_bound_parameters L parameters name :
  foldl bind_parameter parameters L !! name
  = match named_value L name with
    | Some v => Some v
    | None => parameters !! name
    end.
Proof.
  revert parameters. induction L as [|[n v] L IH]; intros parameters; [done|].
  cbn [foldl]. rewrite IH, named_value_cons.
  destruct (named_value L name); [done|].
  unfold bind_parameter; cbn. destruct n as [n|].
  - destruct (decide (Some n = Some name)) as [[= ->]|Hne].
    + by rewrite lookup_insert_eq.
    + rewrite lookup_insert_ne; [done|congruence].
  - by rewrite decide_False.
Qed.

(** C9 (as amended).  The Cmdlet Facade built for the script has as
    positional arguments the values of all pairs of the parameter list, in
    order, whether the pair is named or not; its named-parameter map binds
    each name that occurs in the list to the value of the last pair
    carrying it, and nothing else.  This facade is the one [_exec] runs
    the script with, once the pipeline has been started. *)
Theorem exec_cmdlet_parameters g c L :
  cmdlet_args (exec_cmdlet g c L) = map snd L
  ∧ (∀ name, cmdlet_params (exec_cmdlet g c L) !! name = named_value L name)
  ∧ (∀ code w c1 c2 d,
       do_pipeline_start ops g (codec w) = (Ok tt, c1) →
       do_data_to_send ops c1 = (Ok d, c2) →
       _exec g code L w
       = try_except
           (bind (run_script g code (exec_cmdlet g c2 L))
              (λ _, _send_data ops))
           is_Exception
           (λ _, act (log_exception
                        "Unhandled exception in Python worker thread"))
           (mkWorld c2 (pipelines w)
              (trace w ++ [codec_call (pipeline_start g);
                           codec_call data_to_send]))).
Proof.
  unfold Server.exec_cmdlet, exec_parameters.
  rewrite exec_parameters_fold. cbn [cmdlet_args cmdlet_params app].
  split; [done|]. split.
  - intros name. rewrite lookup_bound_parameters, lookup_empty.
    by destruct (named_value L name).
  - intros code w c1 c2 d Hstart Hsend.
    unfold Server._exec, try_except.
    rewrite (bind_call_Ok _ _ _ _ _ _ Hstart).
    rewrite (bind_call_Ok _ _ _ _ d c2) by exact Hsend.
    rewrite bind_get_codec. cbn [codec pipelines trace].
    unfold Server.exec_cmdlet, exec_parameters.
    rewrite exec_parameters_fold. by rewrite <- app_assoc.
Qed.

(** C8 (as amended).  When the script raises an exception that is an
    [Exception] but not a [SyntaxError], the executor logs it, calls the
    pipeline's [write_error] with category NotSpecified, reason
    "UncaughtPythonException" and fully-qualified error id
    "UncaughtPythonException", the exception's text as message, and then
    calls [complete()]. *)
Theorem uncaught_exception_reported g code cmdlet e w w1 c2 c3 :
  exec code cmdlet
    (mkWorld (codec w) (pipelines w) (trace w ++ [exec_script code cmdlet]))
  = (Raises e, w1) →
  is_Exception e = true → is_SyntaxError e = false →
  let args := uncaught_exception_args format_exc e in
  do_pipeline_write_error ops g args (codec w1) = (Ok tt, c2) →
  do_pipeline_complete ops g c2 = (Ok tt, c3) →
  run_script g code cmdlet w
  = (Returns tt,
     mkWorld c3 (pipelines w1)
       (trace w1
          ++ [log_exception "Exception when running code";
              codec_call (pipeline_write_error g args);
              codec_call (pipeline_complete g)]))
  ∧ Category (we_category_info args) = NotSpecified
  ∧ Reason (we_category_info args) = Some "UncaughtPythonException"
  ∧ we_fully_qualified_error_id args = Some "UncaughtPythonException"
  ∧ Message (we_exception args) = exc_str e.
Proof.
  intros Hexec Hexc Hsyn args Hwrite Hcomplete.
  split; [|done].
  assert (Hexit : is_SystemExit e = false).
  { unfold is_Exception, is_SystemExit in *. by destruct (exc_class e). }
  unfold Server.run_script, try_except.
  unfold bind at 1. unfold act at 1. unfold bind at 1. rewrite Hexec.
  rewrite Hsyn, Hexit, Hexc. cbn [orb].
  unfold bind, act, call. cbn [codec pipelines trace].
  fold args. rewrite Hwrite. cbn [codec pipelines trace].
  rewrite Hcomplete. cbn [codec pipelines trace].
  by rewrite <- !app_assoc.
Qed.

End ExecutorFacts.

(** ** Host calls *)

Section HostFacts.

Import Host.





End HostFacts.

(** ** Framing *)

Section FramingFacts.

Import Server Framing.

(** The read loop hands the framed raw elements to its handler, in order,
    until the handler stops it. *)
Lemma run_loop_framed {C} (handle : bytes → M (C:=C) bool) reads buffer w :
  run_loop handle reads buffer w
  = feed handle (framed reads buffer).1 (framed reads buffer).2 w.
Proof.
  revert buffer w. induction reads as [|data reads IH]; intros buffer w.
  - reflexivity.
  - cbn [run_loop framed]. destruct (decide (data = [])); [reflexivity|].
    destruct (index LF data) as [end_idx|]; [|apply IH].
    destruct (framed reads [drop (S end_idx) data]) as [later state] eqn:E.
    cbn [fst snd feed]. unfold bind.
    destruct (handle _ w) as [[[|]|e|] w1]; try reflexivity.
    rewrite IH, E. reflexivity.
Qed.

Lemma index_split c data i :
  index c data = Some i →
  data = take i data ++ c :: drop (S i) data ∧ count c (take i data) = 0%nat.
Proof.
  revert i. induction data as [|x data IH]; intros i; cbn [index]; [done|].
  destruct (decide (x = c)) as [->|Hne].
  - intros [= <-]. by split.
  - destruct (index c data) as [j|] eqn:E; [|done]. intros [= <-].
    destruct (IH j eq_refl) as [Hd Hc]. cbn [take drop]. split.
    + cbn. by rewrite <- Hd.
    + rewrite count_cons, Hc. by rewrite decide_False.
Qed.

Lemma index_None c data : index c data = None → count c data = 0%nat.
Proof.
  induction data as [|x data IH]; cbn [index]; [done|].
  destruct (decide (x = c)); [done|].
  destruct (index c data); [done|]. intros _.
  rewrite count_cons, IH by done. by rewrite decide_False.
Qed.

Lemma packets_of_stream_run run rest current :
  count LF run = 0%nat →
  packets_of_stream (run ++ rest) current
  = packets_of_stream rest (current ++ run).
Proof.
  revert current. induction run as [|c run IH]; intros current Hc.
  - by rewrite app_nil_r.
  - rewrite count_cons in Hc. cbn [app packets_of_stream].
    destruct (decide (c = LF)); [lia|].
    rewrite IH by lia. by rewrite <- app_assoc.
Qed.

(** When no read holds more than one line feed, the loop frames exactly
    the packets of the stream, however the stream is cut. *)
Lemma framed_one_LF_per_read reads buffer :
  Forall (λ data, data ≠ [] ∧ (count LF data ≤ 1)%nat) reads →
  count LF (concat buffer) = 0%nat →
  (framed reads buffer).1
  = packets_of_stream (concat reads) (concat buffer).
Proof.
  intros Hreads. revert buffer.
  induction Hreads as [|data reads [Hne Hone] _ IH]; intros buffer Hbuf.
  - reflexivity.
  - cbn [framed concat]. rewrite decide_False by done.
    destruct (index LF data) as [i|] eqn:E.
    + destruct (index_split _ _ _ E) as [Hd Hc].
      assert (Htail : count LF (drop (S i) data) = 0%nat).
      { rewrite Hd, count_app, count_cons, Hc in Hone.
        rewrite decide_True in Hone by done. lia. }
      destruct (framed reads [drop (S i) data]) as [later state] eqn:EF.
      cbn [fst]. rewrite Hd at 2. rewrite <- app_assoc.
      rewrite packets_of_stream_run by done.
      cbn [app packets_of_stream]. rewrite decide_True by done.
      f_equal. rewrite packets_of_stream_run by done.
      specialize (IH [drop (S i) data]). rewrite EF in IH. cbn in IH.
      rewrite app_nil_r in IH. by apply IH.
    + rewrite IH.
      * rewrite concat_app. cbn [concat]. rewrite app_nil_r.
        by rewrite packets_of_stream_run by by apply index_None.
      * rewrite concat_app, count_app, Hbuf. cbn [concat].
        rewrite app_nil_r. by apply index_None.
Qed.

End FramingFacts.

(** ** Runs on concrete packets *)

Section ScenarioFacts.

Import Server Trace Fixture Scenario Framing ExecutorSpec.

(** A pipeline-scoped Command is handled to its end and acknowledged
    exactly once. *)
Lemma process_acks_Command_P1 :
  (process_packet 1 Command_P1 world0).1 ≠ OutOfFuel
  ∧ ∃ delta,
      trace (process_packet 1 Command_P1 world0).2 = trace world0 ++ delta
      ∧ acks delta = [ps_guid_packet "CommandAck" (Some P1)].
Proof.
  assert (Hev : ∀ payload c,
            do_receive_data toy_ops payload (codec world0) = (Ok tt, c) →
            ∃ n, ServerLogic.events_end toy_ops c n ∧ (n < 1)%nat).
  { intros payload c [= <-]. exists 0%nat. split; [|lia].
    by eapply ServerLogic.events_end_now. }
  pose proof (process_acks_exactly_once toy_ops fromstring UUID_of_str
                b64decode 1 (encode Command_P1)
                (mkElement "Command"
                   ({["PSGuid" := "00000000-0000-0000-0000-000000000001"]}
                    : gmap string string) None)
                "00000000-0000-0000-0000-000000000001" P1 world0) as H.
  destruct H as [Hends Hacks];
    [vm_compute; reflexivity..|set_solver|exact Hev|].
  split; [exact Hends|]. apply Hacks. vm_compute. reflexivity.
Defined.

(** C1, as claimed, fails: a Signal addressed to the runspace pool is
    processed without error and no SignalAck is written. *)
Lemma Signal_to_pool_gets_no_ack :
  (process_packet 1 Signal_pool world0).1 = Returns tt
  ∧ sends (trace (process_packet 1 Signal_pool world0).2) = []
  ∧ acks (trace (process_packet 1 Signal_pool world0).2)
    ≠ [ps_guid_packet "SignalAck" None].
Proof. vm_compute. repeat split; congruence. Qed.

(** C3.  One read that holds two complete packets: the loop hands the
    first to the handler and keeps the second, line feed included, in its
    buffer; the next packet is then glued to it.  Cut at the line feeds,
    the same stream is handed over as its three packets. *)
Theorem read_loop_merges_packets {C} (handle : bytes → M (C:=C) bool) w :
  let A := encode "<A/>" in
  let B := encode "<B/>" in
  let D := encode "<D/>" in
  let batched := [A ++ [LF] ++ B ++ [LF]; D ++ [LF]] in
  let line_by_line := [A ++ [LF]; B ++ [LF]; D ++ [LF]] in
  concat batched = concat line_by_line
  ∧ packets_of_stream (concat batched) [] = [A; B; D]
  ∧ run_loop handle line_by_line [] w
    = feed handle [A; B; D] (Reading [[]]) w
  ∧ run_loop handle batched [] w
    = feed handle [A; B ++ [LF] ++ D] (Reading [[]]) w
  ∧ run_loop handle [A ++ [LF] ++ B ++ [LF]] [] w
    = feed handle [A] (Reading [B ++ [LF]]) w.
Proof.
  cbv zeta. rewrite !run_loop_framed. repeat split.
Qed.

(** The same on the server: Command and Signal for [P1] arrive in one
    read.  Only the Command is processed; the Signal stays in the buffer
    and no SignalAck is written. *)
Example batched_packets_on_the_server :
  read_loop 1 [chunk Command_P1 ++ chunk Signal_P1] world0
  = (Returns (Reading [chunk Signal_P1]),
     (read_loop 1 [chunk Command_P1] world0).2)
  ∧ acks (trace (read_loop 1 [chunk Command_P1 ++ chunk Signal_P1] world0).2)
    = [ps_guid_packet "CommandAck" (Some P1)]
  ∧ acks (trace (read_loop 1 [chunk Command_P1; chunk Signal_P1] world0).2)
    = [ps_guid_packet "CommandAck" (Some P1);
       ps_guid_packet "SignalAck" (Some P1)].
Proof. vm_compute. repeat split. Qed.

(** A whole session, one packet per read: Command, Data and Close for
    [P1], then Close for the pool.  Each packet gets its ack, in order; the
    event released by the Data packet goes to the queue of [P1]; the pool's
    closing payload is written before its CloseAck. *)
Example session_acks :
  let final :=
    (read_loop 2
       [chunk Command_P1; chunk Data_P1; chunk Close_P1; chunk Close_pool]
       world_session).2 in
  acks (trace final)
  = [ps_guid_packet "CommandAck" (Some P1);
     ps_guid_packet "DataAck" (Some P1);
     ps_guid_packet "CloseAck" (Some P1);
     ps_guid_packet "CloseAck" None]
  ∧ sends (trace final)
    = [ps_guid_packet "CommandAck" (Some P1);
       ps_guid_packet "DataAck" (Some P1);
       ps_guid_packet "CloseAck" (Some P1);
       ps_data_packet (encode "pool-closed") st_default None;
       ps_guid_packet "CloseAck" None]
  ∧ queue_puts (trace final)
    = [(Some P1, Some create_pipeline); (Some P1, None); (None, None)]
  ∧ pipelines final = ∅.
Proof. vm_compute. repeat split. Qed.

(** C4 at a packet whose GUID does not parse, the pool being Opened. *)
Lemma read_loop_failure_on_bad_guid :
  read_loop 1 [chunk Close_bad_guid; chunk Command_P1] world0
  = (Returns Exited,
     mkWorld
       (mkToy RP_Broken pool_guid ∅ [] [])
       ∅
       [log_exception "Unknown exception during message processing";
        codec_call
          (set_broken
             (process_failure_record toy_ops format_exc
                (mkExc ValueError "badly formed hexadecimal UUID string")
                codec0));
        codec_call data_to_send;
        conn_send
          (ps_data_packet (encode "pool-broken") st_default None)]).
Proof.
  refine (proj1 (proj2
    (read_loop_failure_policy toy_ops fromstring UUID_of_str b64decode
       format_exc 1 (chunk Close_bad_guid) [chunk Command_P1] []
       (String.length Close_bad_guid)
       (mkExc ValueError "badly formed hexadecimal UUID string")
       world0 world0 _ _ _ _))
    _
    (mkToy RP_Broken pool_guid ∅ []
       [mkPayload (encode "pool-broken") st_default None])
    (mkToy RP_Broken pool_guid ∅ [] [])
    (Some (mkPayload (encode "pool-broken") st_default None)) _ _).
  - discriminate.
  - vm_compute. reflexivity.
  - vm_compute. reflexivity.
  - reflexivity.
  - set_solver.
  - reflexivity.
  - reflexivity.
Defined.

(** C5, as claimed, fails: an element with an unknown tag is accepted. *)
Lemma unknown_tag_is_accepted :
  process_packet 1 Bogus_P1 world0 = (Returns tt, world0)
  ∧ ¬ ∃ e, (process_packet 1 Bogus_P1 world0).1 = Raises e.
Proof. split; [by vm_compute|]. intros [e H]. vm_compute in H. congruence. Qed.

(** Neither is every body that is not base64 refused: the lenient decoder
    skips characters outside the alphabet. *)
Example non_alphabet_body_is_accepted :
  (process_packet 1 Data_not_base64 world0).1 = Returns tt
  ∧ acks (trace (process_packet 1 Data_not_base64 world0).2)
    = [ps_guid_packet "DataAck" None].
Proof. vm_compute. split; reflexivity. Qed.

Example decode_failures :
  (∃ e, (process_packet 1 "<Close />" world0).1 = Raises e
        ∧ exc_class e = KeyError)
  ∧ (∃ e, (process_packet 1 Close_bad_guid world0).1 = Raises e
          ∧ exc_class e = ValueError)
  ∧ (∃ e, (process_packet 1
             "<Data PSGuid='00000000-0000-0000-0000-000000000000'>A</Data>"
             world0).1 = Raises e
          ∧ exc_class e = BinasciiError)
  ∧ (∃ e, (process_packet 1 "<Close PSGuid=" world0).1 = Raises e
          ∧ exc_class e = ParseError).
Proof. repeat split; eexists; vm_compute; split; reflexivity. Qed.

(** C6 at a live, Running pipeline. *)
Lemma close_pipeline_P1 :
  process_packet 1 Close_P1 world_live
  = (Returns tt,
     mkWorld (mkToy RP_Opened pool_guid ∅ [] []) ∅
       [codec_call (pipeline_begin_stop P1);
        codec_call (pipeline_close P1);
        codec_call data_to_send;
        queue_put (Some P1) None;
        thread_join (pipeline_thread P1);
        conn_send (ps_guid_packet "CloseAck" (Some P1))]).
Proof.
  refine (eq_trans (proj1
    (close_pipeline_sequence toy_ops fromstring UUID_of_str b64decode
       1 (encode Close_P1)
       (mkElement "Close"
          {["PSGuid" := "00000000-0000-0000-0000-000000000001"]} None)
       "00000000-0000-0000-0000-000000000001" P1
       (mkPipelineThread P1 true) world_live
       (mkToy RP_Opened pool_guid {[P1 := Stopping]} [] [pending])
       (mkToy RP_Opened pool_guid ∅ [] [pending])
       (mkToy RP_Opened pool_guid ∅ [] [])
       (Some pending) _ _ _ _ _ _ _ _ _)) _).
  - vm_compute. reflexivity.
  - reflexivity.
  - vm_compute. reflexivity.
  - vm_compute. reflexivity.
  - intros g t H. change (pipelines world_live)
      with ({[P1 := mkPipelineThread P1 true]} : gmap UUID PipelineThread)
      in H.
    apply lookup_singleton_Some in H as [<- <-]. by repeat split.
  - vm_compute. reflexivity.
  - vm_compute. reflexivity.
  - vm_compute. reflexivity.
  - vm_compute. reflexivity.
  - vm_compute. reflexivity.
Defined.

(** C6, as claimed, fails: the payload the codec held for the pipeline is
    taken by the close sequence and never written; CloseAck is the only
    packet on the wire. *)
Lemma close_drops_pending_data :
  toy_outbound (codec world_live) = [pending]
  ∧ (process_packet 1 Close_P1 world_live).1 = Returns tt
  ∧ toy_outbound (codec (process_packet 1 Close_P1 world_live).2) = []
  ∧ sends (trace (process_packet 1 Close_P1 world_live).2)
    = [ps_guid_packet "CloseAck" (Some P1)]
  ∧ ps_data_packet (payload_data pending) (payload_stream_type pending)
      (payload_pipeline_id pending)
    ∉ sends (trace (process_packet 1 Close_P1 world_live).2).
Proof.
  repeat split; try (vm_compute; reflexivity).
  intros H. vm_compute in H.
  apply elem_of_cons in H as [H|H]; [discriminate H|].
  by apply elem_of_nil in H.
Qed.


Example host_call_outcomes :
  Host._send_data_with_response 7 [waiting; waiting] = Host.host_blocked
  ∧ Host._send_data_with_response 7 [waiting; Host.mkShared ∅ Stopping]
    = Host.host_raises (mkExc SystemExit "") ∅
  ∧ Host._send_data_with_response 7
      [Host.mkShared
         {[7%Z := PyErrorRecord
                    (mkErrorRecord (mkNETException "denied" None)
                       (mkErrorCategoryInfo NotSpecified None None None None)
                       None)]}
         Running]
    = Host.host_raises
        (mkExc PlainException "Received error from host call: denied") ∅.
Proof. vm_compute. repeat split. Qed.

(** C8 at a script that raises [ValueError]. *)
Lemma uncaught_exception_reported_toy :
  run_raising_script world_live
  = (Returns tt,
     mkWorld
       (mkToy RP_Opened pool_guid {[P1 := Completed]} []
          [pending;
           mkPayload (encode "error-record") st_default (Some P1);
           mkPayload (encode "pipeline-completed") st_default (Some P1)])
       {[P1 := mkPipelineThread P1 true]}
       [exec_script "raise ValueError('boom')"
          (mkPSCmdlet P1 runspace_host [] ∅);
        log_exception "Exception when running code";
        codec_call
          (pipeline_write_error P1
             (uncaught_exception_args format_exc (mkExc ValueError "boom")));
        codec_call (pipeline_complete P1)]).
Proof.
  refine (eq_trans (proj1
    (uncaught_exception_reported toy_ops format_exc raising_script P1
       "raise ValueError('boom')" (mkPSCmdlet P1 runspace_host [] ∅)
       (mkExc ValueError "boom") world_live
       (mkWorld codec_live {[P1 := mkPipelineThread P1 true]}
          [exec_script "raise ValueError('boom')"
             (mkPSCmdlet P1 runspace_host [] ∅)])
       (mkToy RP_Opened pool_guid {[P1 := Running]} []
          [pending; mkPayload (encode "error-record") st_default (Some P1)])
       (mkToy RP_Opened pool_guid {[P1 := Completed]} []
          [pending;
           mkPayload (encode "error-record") st_default (Some P1);
           mkPayload (encode "pipeline-completed") st_default (Some P1)])
       _ _ _ _ _)) _).
  - reflexivity.
  - reflexivity.
  - reflexivity.
  - vm_compute. reflexivity.
  - vm_compute. reflexivity.
  - vm_compute. reflexivity.
Defined.

(** C8, as claimed, fails: no [write_error] call carries the reason or
    the error id "UncaughtScriptException". *)
Lemma uncaught_exception_is_not_named_script :
  (run_raising_script world_live).1 = Returns tt
  ∧ ¬ ∃ message stack_trace,
        codec_call
          (pipeline_write_error P1
             (spec_uncaught_exception_args message stack_trace))
        ∈ trace (run_raising_script world_live).2.
Proof.
  split; [by vm_compute|].
  intros (m & st & H). vm_compute in H.
  repeat (apply elem_of_cons in H as [H|H]; [discriminate H|]).
  by apply elem_of_nil in H.
Qed.

(** C9, as claimed, fails: the value of a named pair is a positional
    argument too. *)
Lemma named_value_is_positional :
  cmdlet_args
    (exec_cmdlet (λ _ _, false) P1 codec0 [(Some "Name", PyStr "x")])
  = [PyStr "x"]
  ∧ unnamed_values [(Some "Name", PyStr "x")] = []
  ∧ cmdlet_args
      (exec_cmdlet (λ _ _, false) P1 codec0 [(Some "Name", PyStr "x")])
    ≠ unnamed_values [(Some "Name", PyStr "x")].
Proof. vm_compute. repeat split; congruence. Qed.

Example exec_cmdlet_example :
  let L := [(None, PyInt 1); (Some "Path", PyStr "a"); (None, PyInt 2);
            (Some "Path", PyStr "b")] in
  let cmdlet := exec_cmdlet (λ _ _, false) P1 codec0 L in
  cmdlet_args cmdlet = [PyInt 1; PyStr "a"; PyInt 2; PyStr "b"]
  ∧ cmdlet_params cmdlet = {["Path" := PyStr "b"]}.
Proof. vm_compute. split; reflexivity. Qed.

End ScenarioFacts.
Section TransportEdges.

Import Server Trace ServerLogic Framing Events.

Context {C : Type} (ops : Ops C).
Variable fromstring : bytes → Result Element.
Variable UUID_of_str : string → Result UUID.
Variable b64decode : string → Result bytes.
Variable format_exc : PyExc → string.

Local Abbreviation _process :=
  (Server._process ops fromstring UUID_of_str b64decode).
Local Abbreviation _process_data := (Server._process_data ops b64decode).
Local Abbreviation process_guarded :=
  (Server.process_guarded ops fromstring UUID_of_str b64decode format_exc).
Local Abbreviation run :=
  (Server.run ops fromstring UUID_of_str b64decode format_exc).

Implicit Types (w : World (C:=C)).

Lemma process_guarded_keeps_table_ok fuel raw w r w' :
  table_ok (pipelines w) →
  process_guarded fuel raw w = (r, w') → table_ok (pipelines w').
Proof.
  intros Hok. unfold Server.process_guarded, try_except.
  destruct (bind (_process fuel raw) (λ _, ret true) w) as [[b|e|] w1] eqn:E.
  - intros [= <- <-]. apply bind_returns in E as (a & w2 & E1 & [= _ <-]).
    by eapply process_keeps_table_ok.
  - apply bind_inv in E as [(a & w2 & _ & [=])|[(e' & E1 & _)|[_ [=]]]].
    pose proof (process_keeps_table_ok _ _ _ _ _ _ _ _ _ Hok E1) as Hok1.
    destruct (is_Exception e); [|by intros [= <- <-]].
    intros E2.
    assert (Hsame : same_table
              (bind (act (C:=C) (log_exception
                       "Unknown exception during message processing"))
                 (λ _, bind get_codec (λ c,
                    if decide (pool_state ops c ∈ [RP_Opened; RP_Broken])
                    then
                      bind (call (set_broken
                                    (process_failure_record ops format_exc e c))
                              (do_set_broken ops
                                 (process_failure_record ops format_exc e c)))
                        (λ _, bind (call data_to_send (do_data_to_send ops))
                           (λ resp,
                              bind match resp with
                                   | Some resp => data resp
                                   | None => ret tt
                                   end (λ _, ret false)))
                    else raise e)))).
    { apply same_table_bind; [apply same_table_act|intros _].
      apply same_table_bind;
        [apply same_table_pure; intros ?; eexists; reflexivity|intros c].
      destruct (decide _).
      - apply same_table_bind; [apply same_table_call|intros _].
        apply same_table_bind; [apply same_table_call|intros resp].
        apply same_table_bind.
        + destruct resp; [apply same_table_act|].
          apply same_table_pure; intros ?; eexists; reflexivity.
        + intros _. apply same_table_pure; intros ?; eexists; reflexivity.
      - apply same_table_pure; intros ?; eexists; reflexivity. }
    by rewrite (Hsame _ _ _ E2).
  - intros [= <- <-].
    apply bind_inv in E as [(a & w2 & _ & [=])|[(e' & _ & [=])|[E1 _]]].
    by eapply process_keeps_table_ok.
Qed.

Lemma run_loop_keeps_table_ok fuel reads buffer w r w' :
  table_ok (pipelines w) →
  run_loop (process_guarded fuel) reads buffer w = (r, w') →
  table_ok (pipelines w').
Proof.
  revert buffer w. induction reads as [|data reads IH]; intros buffer w Hok.
  - by intros [= <- <-].
  - cbn [run_loop]. destruct (decide (data = [])); [by intros [= <- <-]|].
    destruct (index LF data) as [i|]; [|by apply IH].
    unfold bind at 1.
    destruct (process_guarded fuel _ w) as [[b|e|] w1] eqn:E;
      pose proof (process_guarded_keeps_table_ok _ _ _ _ _ Hok E) as Hok1.
    + destruct b; [by apply IH|by intros [= <- <-]].
    + by intros [= <- <-].
    + by intros [= <- <-].
Qed.

(** X1.  Started from an empty pipeline table, run keeps the table well-
    formed whatever it reads and however it ends: every thread in the table
    has been started, is filed under its own pipeline id, and that id is not
    the all-zero GUID. *)
Theorem run_keeps_table_ok fuel reads w r w' :
  pipelines w = ∅ →
  run fuel reads w = (r, w') →
  ∀ g t, pipelines w' !! g = Some t →
    pt_pipeline_id t = g ∧ pt_started t = true ∧ g ≠ zero.
Proof.
  intros Hempty. unfold Server.run, bind, act. intros E.
  eapply run_loop_keeps_table_ok; [|exact E].
  cbn [pipelines]. rewrite Hempty. by intros g t Hg.
Qed.

(** X3.  A Command for a pipeline whose started thread is already in the
    table raises RuntimeError('threads can only be started once') from the
    second start(): the codec pipeline has been constructed, the table is
    unchanged and no CommandAck is written. *)
Theorem duplicate_command_raises g t w c1 :
  pipelines w !! g = Some t → pt_started t = true →
  do_ServerPipeline ops g (codec w) = (Ok tt, c1) →
  _process_command ops (Some g) w
  = (Raises (mkExc RuntimeError "threads can only be started once"),
     mkWorld c1 (pipelines w) (trace w ++ [codec_call (ServerPipeline g)])).
Proof.
  intros Ht Hstarted Hnew.
  unfold _process_command. rewrite (bind_call_Ok _ _ _ _ _ _ Hnew).
  unfold bind at 1. unfold get_pipelines. cbn [pipelines codec trace].
  rewrite Ht. cbn [default from_option id].
  unfold bind at 1. unfold set_pipelines. cbn [pipelines codec trace].
  unfold bind at 1. unfold PipelineThread_start. rewrite Hstarted.
  unfold raise. by rewrite insert_id.
Qed.

(** X2.  A Command for a pipeline id that is not in the table constructs the
    codec pipeline, files a new thread under the id, starts it and writes
    CommandAck for the id, in this order. *)
Theorem command_starts_pipeline g w c1 :
  pipelines w !! g = None →
  do_ServerPipeline ops g (codec w) = (Ok tt, c1) →
  _process_command ops (Some g) w
  = (Returns tt,
     mkWorld c1 (<[g := mkPipelineThread g true]> (pipelines w))
       (trace w ++ [codec_call (ServerPipeline g);
                    thread_start (pipeline_thread g);
                    conn_send (ps_guid_packet "CommandAck" (Some g))])).
Proof.
  intros Hg Hnew.
  unfold _process_command. rewrite (bind_call_Ok _ _ _ _ _ _ Hnew).
  unfold bind at 1. unfold get_pipelines. cbn [pipelines codec trace].
  rewrite Hg. cbn [default from_option id].
  unfold PipelineThread_start, command_ack, _write.
  cbn [pt_started pt_pipeline_id].
  unfold bind, set_pipelines, get_pipelines, act.
  cbn [pipelines codec trace].
  by rewrite insert_insert_eq, <- !app_assoc.
Qed.

(** X6.  A Signal for a live pipeline calls begin_stop, takes one payload
    from the codec with data_to_send and drops it, and then writes SignalAck
    for the pipeline; the table is unchanged. *)
Theorem signal_pipeline_sequence g t w c1 c2 d :
  pipelines w !! g = Some t → pt_pipeline_id t = g →
  do_pipeline_begin_stop ops g (codec w) = (Ok tt, c1) →
  do_data_to_send ops c1 = (Ok d, c2) →
  _process_signal ops (Some g) w
  = (Returns tt,
     mkWorld c2 (pipelines w)
       (trace w ++ [codec_call (pipeline_begin_stop g);
                    codec_call data_to_send;
                    conn_send (ps_guid_packet "SignalAck" (Some g))])).
Proof.
  intros Ht Hid Hstop Hsend.
  unfold _process_signal. unfold bind at 1. unfold get_pipelines.
  rewrite Ht. unfold PipelineThread_stop, signal_ack, _write. rewrite Hid.
  unfold bind, call, act, ret. rewrite Hstop. cbn [pipelines codec trace].
  rewrite Hsend. cbn [pipelines codec trace]. by rewrite <- !app_assoc.
Qed.

(** X4.  Close and Signal for a pipeline id that is not in the table raise
    KeyError and do nothing else. A Data packet without body for such an id
    hands the payload to the codec and raises KeyError at the first event
    the codec releases: the event is taken from the codec, nothing is queued
    and no DataAck is written. *)
Theorem unknown_pipeline_raises g w :
  pipelines w !! g = None →
  _process_close ops (Some g) w = (Raises (KeyError_UUID g), w)
  ∧ _process_signal ops (Some g) w = (Raises (KeyError_UUID g), w)
  ∧ (∀ fuel stream_type c1 event c2,
       let payload :=
         mkPayload []
           (if decide (stream_type = "PromptResponse")
            then st_prompt_response else st_default)
           (Some g) in
       do_receive_data ops payload (codec w) = (Ok tt, c1) →
       do_next_event ops c1 = (Ok (Some event), c2) →
       _process_data (S fuel) None stream_type (Some g) w
       = (Raises (KeyError_UUID g),
          mkWorld c2 (pipelines w)
            (trace w ++ [codec_call (receive_data payload);
                         codec_call next_event]))).
Proof.
  intros Hg. split; [|split].
  - unfold _process_close, bind, get_pipelines. by rewrite Hg.
  - unfold _process_signal, bind, get_pipelines. by rewrite Hg.
  - intros fuel stream_type c1 event c2 payload Hrecv Hnext.
    unfold Server._process_data. unfold bind at 1. unfold ret at 1.
    cbv zeta. fold payload. rewrite (bind_call_Ok _ _ _ _ _ _ Hrecv).
    assert (Hdrain : ∀ tr,
      drain_events ops (S fuel) (Some g) (mkWorld c1 (pipelines w) tr)
      = (Raises (KeyError_UUID g),
         mkWorld c2 (pipelines w) (tr ++ [codec_call next_event]))).
    { intros tr. cbn [drain_events].
      rewrite (bind_call_Ok _ _ _ _ (Some event) c2) by exact Hnext.
      unfold bind, get_pipelines. cbn [pipelines codec trace].
      by rewrite Hg. }
    unfold bind. rewrite Hdrain. by rewrite <- !app_assoc.
Qed.

Lemma drain_events_from fuel pipeline_id es w c' :
  events_from ops (codec w) es c' →
  (∀ g, pipeline_id = Some g → es ≠ [] → is_Some (pipelines w !! g)) →
  (length es < fuel)%nat →
  drain_events ops fuel pipeline_id w
  = (Returns tt,
     mkWorld c' (pipelines w) (trace w ++ drained pipeline_id es)).
Proof.
  intros Hev. remember (codec w) as c eqn:Hc. revert fuel w Hc.
  induction Hev as [c c' E|c e c1 es c' E _ IH]; intros fuel w -> Hp Hfuel.
  - destruct fuel as [|fuel]; [cbn in Hfuel; lia|].
    cbn [drain_events]. unfold bind, call. rewrite E. reflexivity.
  - destruct fuel as [|fuel]; [cbn in Hfuel; lia|].
    cbn [drain_events]. rewrite (bind_call_Ok _ _ _ _ _ _ E).
    assert (Hput :
      (match pipeline_id with
       | Some g =>
           bind get_pipelines
             (λ p, match p !! g with
                   | None => raise (KeyError_UUID g)
                   | Some _ => act (queue_put (Some g) (Some e))
                   end)
       | None => act (queue_put None (Some e))
       end)
        (mkWorld c1 (pipelines w) (trace w ++ [codec_call next_event]))
      = (Returns tt,
         mkWorld c1 (pipelines w)
           ((trace w ++ [codec_call next_event])
              ++ [queue_put pipeline_id (Some e)]))).
    { destruct pipeline_id as [g|]; [|reflexivity].
      unfold bind, get_pipelines. cbn [pipelines codec trace].
      destruct (Hp g eq_refl) as [t Ht]; [done|]. by rewrite Ht. }
    unfold bind at 1. rewrite Hput.
    rewrite (IH fuel (mkWorld c1 _ _) eq_refl).
    + cbn [pipelines codec trace]. unfold drained. cbn [flat_map].
      by rewrite <- !app_assoc.
    + intros g Hg _. cbn [pipelines]. by apply Hp.
    + cbn in Hfuel. lia.
Qed.

(** X5.  _process_data decodes the body (a missing or empty body is b''),
    reads every Stream value other than PromptResponse as the default
    stream, hands the payload to the codec, puts every event the codec then
    releases on the queue of the packet's pipeline (the runspace queue for
    the pool), in order, and writes DataAck last; the pipeline has to be in
    the table only if an event is released. *)
Theorem data_events_routed
    fuel body psrp_data stream_type pipeline_id es w c1 c2 :
  match body with
  | None | Some "" => psrp_data = []
  | Some text => b64decode text = Ok psrp_data
  end →
  let payload :=
    mkPayload psrp_data
      (if decide (stream_type = "PromptResponse")
       then st_prompt_response else st_default)
      pipeline_id in
  do_receive_data ops payload (codec w) = (Ok tt, c1) →
  events_from ops c1 es c2 →
  (∀ g, pipeline_id = Some g → es ≠ [] → is_Some (pipelines w !! g)) →
  (length es < fuel)%nat →
  _process_data fuel body stream_type pipeline_id w
  = (Returns tt,
     mkWorld c2 (pipelines w)
       (trace w ++ [codec_call (receive_data payload)]
          ++ drained pipeline_id es
          ++ [conn_send (ps_guid_packet "DataAck" pipeline_id)])).
Proof.
  intros Hbody payload Hrecv Hev Hp Hfuel.
  unfold Server._process_data.
  assert (Hdec :
    (match body with
     | None | Some "" => ret []
     | Some data => lift (b64decode data)
     end) w = (Returns psrp_data, w)).
  { destruct body as [[|a text]|]; by rewrite Hbody. }
  unfold bind at 1. rewrite Hdec. cbv zeta. fold payload.
  rewrite (bind_call_Ok _ _ _ _ _ _ Hrecv).
  unfold bind at 1.
  rewrite (drain_events_from fuel pipeline_id es _ c2); try done.
  unfold data_ack, _write, act. cbn [pipelines codec trace].
  by rewrite <- !app_assoc.
Qed.

(** X7.  Close for the runspace pool closes the pool, writes the payload
    data_to_send returns (if any) as a Data packet, puts the sentinel on the
    runspace queue, joins the runspace thread and writes CloseAck for the
    zero GUID, in this order; unlike in a pipeline close the pending payload
    is sent. *)
Theorem pool_close_sequence w c1 c2 d :
  do_pool_close ops (codec w) = (Ok tt, c1) →
  do_data_to_send ops c1 = (Ok d, c2) →
  _process_close ops None w
  = (Returns tt,
     mkWorld c2 (pipelines w)
       (trace w ++ [codec_call pool_close; codec_call data_to_send]
          ++ match d with
             | Some d =>
                 [conn_send
                    (ps_data_packet (payload_data d) (payload_stream_type d)
                       (payload_pipeline_id d))]
             | None => []
             end
          ++ [queue_put None None;
              thread_join runspace_thread;
              conn_send (ps_guid_packet "CloseAck" None)])).
Proof.
  intros Hclose Hsend.
  unfold _process_close, RunspaceThread_close, close_ack, Server.data, _write.
  unfold bind, call, act, ret. rewrite Hclose. cbn [pipelines codec trace].
  rewrite Hsend.
  destruct d as [d|]; cbn [pipelines codec trace]; by rewrite <- !app_assoc.
Qed.

End TransportEdges.

Section ExecutorPaths.

Import Server Trace.

Context {C : Type} (ops : Ops C).
Variable format_exc : PyExc → string.
Variable uses_pipeline_host : UUID → C → bool.
Variable exec : string → PSCmdlet → M (C:=C) unit.

Local Abbreviation run_script := (Server.run_script ops format_exc exec).
Local Abbreviation _exec :=
  (Server._exec ops format_exc uses_pipeline_host exec).
Local Abbreviation exec_cmdlet := (Server.exec_cmdlet uses_pipeline_host).

Implicit Types (w : World (C:=C)).

(** X19.  When the script raises a SyntaxError, the executor logs it and
    moves the pipeline to Failed with _change_state(Failed, record,
    emit=True), the ErrorRecord having category ParserError, reason and
    fully-qualified error id InvalidPythonSyntax and the exception's text as
    message; complete() is not called. *)
Theorem syntax_error_fails_pipeline g code cmdlet e w w1 c2 :
  exec code cmdlet
    (mkWorld (codec w) (pipelines w) (trace w ++ [exec_script code cmdlet]))
  = (Raises e, w1) →
  is_SyntaxError e = true →
  let err := invalid_syntax_record format_exc e in
  do_pipeline_change_state ops g Failed err true (codec w1) = (Ok tt, c2) →
  run_script g code cmdlet w
  = (Returns tt,
     mkWorld c2 (pipelines w1)
       (trace w1
          ++ [log_exception "Attempted to run code with invalid syntax";
              codec_call (pipeline_change_state g Failed err true)]))
  ∧ Category (CategoryInfo err) = ParserError
  ∧ Reason (CategoryInfo err) = Some "InvalidPythonSyntax"
  ∧ FullyQualifiedErrorId err = Some "InvalidPythonSyntax"
  ∧ Message (Exception err) = exc_str e.
Proof.
  intros Hexec Hsyn err Hchange. split; [|done].
  unfold Server.run_script, try_except.
  unfold bind at 1. unfold act at 1. unfold bind at 1. rewrite Hexec.
  rewrite Hsyn. cbn [orb].
  unfold bind, act, call. cbn [codec pipelines trace].
  fold err. rewrite Hchange. cbn [codec pipelines trace].
  by rewrite <- !app_assoc.
Qed.

(** X20.  When the script unwinds through SystemExit, the executor calls the
    pipeline's stop() and nothing else: no error is written and complete()
    is not called. *)
Theorem system_exit_stops_pipeline g code cmdlet e w w1 c2 :
  exec code cmdlet
    (mkWorld (codec w) (pipelines w) (trace w ++ [exec_script code cmdlet]))
  = (Raises e, w1) →
  is_SystemExit e = true →
  do_pipeline_stop ops g (codec w1) = (Ok tt, c2) →
  run_script g code cmdlet w
  = (Returns tt,
     mkWorld c2 (pipelines w1) (trace w1 ++ [codec_call (pipeline_stop g)])).
Proof.
  intros Hexec Hexit Hstop.
  assert (Hsyn : is_SyntaxError e = false).
  { unfold is_SyntaxError, is_SystemExit in *. by destruct (exc_class e). }
  unfold Server.run_script, try_except.
  unfold bind at 1. unfold act at 1. unfold bind at 1. rewrite Hexec.
  rewrite Hsyn, Hexit. cbn [orb].
  unfold call. cbn [codec pipelines trace]. by rewrite Hstop.
Qed.

(** X21.  When start() succeeds and the script runs to its end, _exec calls
    start(), takes one payload from the codec and drops it, runs the script
    with the facade built from the raw parameters, calls complete(), and
    takes one payload from the codec which it writes if there is one. *)
Theorem script_success_completes g code L w c1 c2 d0 w1 c3 c4 d :
  do_pipeline_start ops g (codec w) = (Ok tt, c1) →
  do_data_to_send ops c1 = (Ok d0, c2) →
  let cmdlet := exec_cmdlet g c2 L in
  exec code cmdlet
    (mkWorld c2 (pipelines w)
       (trace w ++ [codec_call (pipeline_start g); codec_call data_to_send;
                    exec_script code cmdlet]))
  = (Returns tt, w1) →
  do_pipeline_complete ops g (codec w1) = (Ok tt, c3) →
  do_data_to_send ops c3 = (Ok d, c4) →
  _exec g code L w
  = (Returns tt,
     mkWorld c4 (pipelines w1)
       (trace w1
          ++ [codec_call (pipeline_complete g); codec_call data_to_send]
          ++ match d with
             | Some d =>
                 [conn_send
                    (ps_data_packet (payload_data d) (payload_stream_type d)
                       (payload_pipeline_id d))]
             | None => []
             end)).
Proof.
  intros Hstart Hsend0 cmdlet Hexec Hcomplete Hsend.
  unfold Server._exec, try_except.
  rewrite (bind_call_Ok _ _ _ _ _ _ Hstart).
  rewrite (bind_call_Ok _ _ _ _ d0 c2) by exact Hsend0.
  rewrite bind_get_codec. cbn [codec pipelines trace]. fold cmdlet.
  unfold bind at 1. unfold Server.run_script, try_except.
  unfold bind at 1. unfold act at 1. cbn [codec pipelines trace].
  unfold bind at 1. rewrite <- !app_assoc. cbn [app]. rewrite Hexec.
  unfold call at 1. rewrite Hcomplete.
  unfold _send_data, bind, call. cbn [codec pipelines trace]. rewrite Hsend.
  unfold Server.data, _write, act, ret.
  destruct d as [d|]; cbn [codec pipelines trace]; by rewrite <- !app_assoc.
Qed.


End ExecutorPaths.
Section RoundTripFacts.

Import Fixture.

(** Checking a property of the numbers below a bound by running it. *)
Lemma forall_below (p : N → bool) (k : nat) :
  forallb p (map N.of_nat (seq 0 k)) = true →
  ∀ n, n < N.of_nat k → p n = true.
Proof.
  intros H n Hn. rewrite forallb_forall in H. apply H.
  rewrite <- (N2Nat.id n). apply in_map, in_seq. lia.
Qed.

Lemma forall_below2 (p : N → N → bool) (k : nat) :
  forallb (λ a, forallb (p a) (map N.of_nat (seq 0 k)))
    (map N.of_nat (seq 0 k)) = true →
  ∀ a b, a < N.of_nat k → b < N.of_nat k → p a b = true.
Proof.
  intros H a b Ha Hb.
  apply (forall_below (p a) k); [|done].
  by apply (forall_below (λ a, forallb (p a) (map N.of_nat (seq 0 k))) k).
Qed.

Lemma to_N_lt_256 (a : byte) : Byte.to_N a < 256.
Proof. pose proof (Byte.to_N_bounded a). lia. Qed.

Lemma sextet_read_back n :
  n < 64 → b64_value (Base64.enc n) = Some n ∧ Base64.enc n ≠ PAD.
Proof.
  intros Hn.
  pose proof (forall_below
    (λ n, bool_decide (b64_value (Base64.enc n) = Some n)
          && bool_decide (Base64.enc n ≠ PAD)) 64 eq_refl n Hn) as H.
  apply andb_true_iff in H as [H1 H2].
  by apply bool_decide_eq_true in H1, H2.
Qed.

Lemma a2b_base64_first n rest lc pads acc :
  n < 64 →
  a2b_base64 (Base64.enc n :: rest) 0 lc pads acc
  = a2b_base64 rest 1 n 0 acc.
Proof.
  intros Hn. destruct (sextet_read_back n Hn) as [Hv Hp].
  cbn [a2b_base64]. rewrite decide_False by done. by rewrite Hv.
Qed.

Lemma a2b_base64_second n rest lc pads acc :
  n < 64 →
  a2b_base64 (Base64.enc n :: rest) 1 lc pads acc
  = a2b_base64 rest 2 (N.land n 15) 0
      (acc ++ [default x00
                 (Byte.of_N
                    (N.land (N.lor (N.shiftl lc 2) (N.shiftr n 4)) 255))]).
Proof.
  intros Hn. destruct (sextet_read_back n Hn) as [Hv Hp].
  cbn [a2b_base64]. rewrite decide_False by done. by rewrite Hv.
Qed.

Lemma a2b_base64_third n rest lc pads acc :
  n < 64 →
  a2b_base64 (Base64.enc n :: rest) 2 lc pads acc
  = a2b_base64 rest 3 (N.land n 3) 0
      (acc ++ [default x00
                 (Byte.of_N
                    (N.land (N.lor (N.shiftl lc 4) (N.shiftr n 2)) 255))]).
Proof.
  intros Hn. destruct (sextet_read_back n Hn) as [Hv Hp].
  cbn [a2b_base64]. rewrite decide_False by done. by rewrite Hv.
Qed.

Lemma a2b_base64_fourth n rest lc pads acc :
  n < 64 →
  a2b_base64 (Base64.enc n :: rest) 3 lc pads acc
  = a2b_base64 rest 0 0 0
      (acc ++ [default x00
                 (Byte.of_N (N.land (N.lor (N.shiftl lc 6) n) 255))]).
Proof.
  intros Hn. destruct (sextet_read_back n Hn) as [Hv Hp].
  cbn [a2b_base64]. rewrite decide_False by done. by rewrite Hv.
Qed.

Lemma octet_of_to_N (a : byte) :
  default x00 (Byte.of_N (N.land (Byte.to_N a) 255)) = a.
Proof.
  change 255 with (N.ones 8). rewrite N.land_ones.
  rewrite N.mod_small by apply to_N_lt_256. by rewrite Byte.of_to_N.
Qed.

Ltac by_running1 a Ha :=
  match goal with
  | |- ?l = ?r =>
      let p := eval pattern a in (N.eqb l r) in
      match p with
      | ?f _ =>
          apply N.eqb_eq;
          refine (forall_below f 256 _ a Ha); vm_compute; reflexivity
      end
  | |- ?l < ?r =>
      let p := eval pattern a in (N.ltb l r) in
      match p with
      | ?f _ =>
          apply N.ltb_lt;
          refine (forall_below f 256 _ a Ha); vm_compute; reflexivity
      end
  end.

Ltac by_running2 a b Ha Hb :=
  match goal with
  | |- ?l = ?r =>
      let p := eval pattern a, b in (N.eqb l r) in
      match p with
      | ?f _ _ =>
          apply N.eqb_eq;
          refine (forall_below2 f 256 _ a b Ha Hb); vm_compute; reflexivity
      end
  | |- ?l < ?r =>
      let p := eval pattern a, b in (N.ltb l r) in
      match p with
      | ?f _ _ =>
          apply N.ltb_lt;
          refine (forall_below2 f 256 _ a b Ha Hb); vm_compute; reflexivity
      end
  end.

(** The 6-bit groups of three octets, and of a final one or two. *)
Lemma sextets_lt a b :
  a < 256 → b < 256 →
  N.shiftr a 2 < 64
  ∧ N.lor (N.shiftl (N.land a 3) 4) (N.shiftr b 4) < 64
  ∧ N.lor (N.shiftl (N.land a 15) 2) (N.shiftr b 6) < 64
  ∧ N.land a 63 < 64
  ∧ N.shiftl (N.land a 3) 4 < 64
  ∧ N.shiftl (N.land a 15) 2 < 64.
Proof.
  intros Ha Hb.
  split; [by_running1 a Ha|]. split; [by_running2 a b Ha Hb|].
  split; [by_running2 a b Ha Hb|]. split; [by_running1 a Ha|].
  split; by_running1 a Ha.
Qed.

(** Reassembling the octets from the 6-bit groups. *)
Lemma octet1_back a b :
  a < 256 → b < 256 →
  N.lor (N.shiftl (N.shiftr a 2) 2)
    (N.shiftr (N.lor (N.shiftl (N.land a 3) 4) (N.shiftr b 4)) 4)
  = a.
Proof. intros Ha Hb. by_running2 a b Ha Hb. Qed.

Lemma octet1_back_final a :
  a < 256 →
  N.lor (N.shiftl (N.shiftr a 2) 2) (N.shiftr (N.shiftl (N.land a 3) 4) 4)
  = a.
Proof. intros Ha. by_running1 a Ha. Qed.

Lemma sextet2_low a b :
  a < 256 → b < 256 →
  N.land (N.lor (N.shiftl (N.land a 3) 4) (N.shiftr b 4)) 15 = N.shiftr b 4.
Proof. intros Ha Hb. by_running2 a b Ha Hb. Qed.

Lemma sextet3_high b c :
  b < 256 → c < 256 →
  N.shiftr (N.lor (N.shiftl (N.land b 15) 2) (N.shiftr c 6)) 2 = N.land b 15.
Proof. intros Hb Hc. by_running2 b c Hb Hc. Qed.

Lemma sextet3_high_final b :
  b < 256 → N.shiftr (N.shiftl (N.land b 15) 2) 2 = N.land b 15.
Proof. intros Hb. by_running1 b Hb. Qed.

Lemma sextet3_low b c :
  b < 256 → c < 256 →
  N.land (N.lor (N.shiftl (N.land b 15) 2) (N.shiftr c 6)) 3 = N.shiftr c 6.
Proof. intros Hb Hc. by_running2 b c Hb Hc. Qed.

Lemma octet2_back b :
  b < 256 → N.lor (N.shiftl (N.shiftr b 4) 4) (N.land b 15) = b.
Proof. intros Hb. by_running1 b Hb. Qed.

Lemma octet3_back c :
  c < 256 → N.lor (N.shiftl (N.shiftr c 6) 6) (N.land c 63) = c.
Proof. intros Hc. by_running1 c Hc. Qed.

(** [a2b_base64] undoes [b64encode]. *)
Lemma a2b_base64_b64encode d acc :
  a2b_base64 (Base64.b64encode d) 0 0 0 acc = Ok (acc ++ d).
Proof.
  revert acc.
  induction d as [|a|a b|a b c rest IH] using octet_groups_ind; intros acc.
  - by rewrite app_nil_r.
  - cbn [Base64.b64encode].
    pose proof (to_N_lt_256 a) as Ha.
    destruct (sextets_lt _ _ Ha Ha) as (H1 & _ & _ & _ & H2 & _).
    rewrite a2b_base64_first, a2b_base64_second by done.
    rewrite octet1_back_final, (octet_of_to_N a) by done.
    reflexivity.
  - cbn [Base64.b64encode].
    pose proof (to_N_lt_256 a) as Ha. pose proof (to_N_lt_256 b) as Hb.
    destruct (sextets_lt _ _ Ha Hb) as (H1 & H2 & _ & _ & _ & _).
    destruct (sextets_lt _ _ Hb Hb) as (_ & _ & _ & _ & _ & H3).
    rewrite a2b_base64_first, a2b_base64_second, a2b_base64_third by done.
    rewrite octet1_back, (octet_of_to_N a) by done.
    rewrite sextet2_low, sextet3_high_final, octet2_back by done.
    rewrite (octet_of_to_N b) by done.
    rewrite <- app_assoc. reflexivity.
  - cbn [Base64.b64encode].
    pose proof (to_N_lt_256 a) as Ha. pose proof (to_N_lt_256 b) as Hb.
    pose proof (to_N_lt_256 c) as Hc.
    destruct (sextets_lt _ _ Ha Hb) as (H1 & H2 & _ & _ & _ & _).
    destruct (sextets_lt _ _ Hb Hc) as (_ & _ & H3 & _ & _ & _).
    destruct (sextets_lt _ _ Hc Hc) as (_ & _ & _ & H4 & _ & _).
    rewrite a2b_base64_first, a2b_base64_second, a2b_base64_third,
      a2b_base64_fourth by done.
    rewrite octet1_back, (octet_of_to_N a) by done.
    rewrite sextet2_low, sextet3_high, octet2_back by done.
    rewrite (octet_of_to_N b) by done.
    rewrite sextet3_low, octet3_back, (octet_of_to_N c) by done.
    rewrite IH, <- !app_assoc. reflexivity.
Qed.

Lemma b64encode_chars d :
  Forall (λ c, c ∈ PAD :: Base64.alphabet) (Base64.b64encode d).
Proof.
  assert (He : ∀ n, Base64.enc n ∈ PAD :: Base64.alphabet).
  { intros n. destruct (enc_alphabet_or_pad n) as [H| ->];
      [by right|by left]. }
  induction d as [|a|a b|a b c rest IH] using octet_groups_ind;
    cbn [Base64.b64encode];
    repeat first [apply Forall_nil_2 | assumption
                 | apply Forall_cons_2; [first [apply He | by left]|]].
Qed.

Lemma alphabet_ascii :
  Forall (λ c, (Byte.to_N c <? 128) = true) (PAD :: Base64.alphabet).
Proof. forall_literal. Qed.

(** [base64.b64decode] undoes [base64.b64encode]. *)
Lemma b64decode_b64encode d :
  b64decode (string_of_list_byte (Base64.b64encode d)) = Ok d.
Proof.
  unfold b64decode, encode. rewrite list_byte_of_string_of_list_byte.
  rewrite (proj2 (forallb_forall _ _)).
  - apply (a2b_base64_b64encode d []).
  - intros c Hc%list_elem_of_In.
    pose proof (b64encode_chars d) as H. rewrite Forall_forall in H.
    pose proof alphabet_ascii as HA. rewrite Forall_forall in HA. auto.
Qed.

Lemma guid_digits g :
  filter (λ c, c ≠ HYPHEN) (guid_8_4_4_4_12 g)
  = Hex.fixed Hex.lower_digits 32 (uuid_int g).
Proof.
  assert (Hf : ∀ w v, filter (λ c, c ≠ HYPHEN) (Hex.fixed Hex.lower_digits w v)
                      = Hex.fixed Hex.lower_digits w v).
  { intros w v. apply filter_all.
    eapply Forall_impl; [apply fixed_in; reflexivity|].
    intros c Hc. revert c Hc. apply Forall_forall. forall_literal. }
  unfold guid_8_4_4_4_12. rewrite !filter_app, !Hf, hex32_groups.
  reflexivity.
Qed.

(** [uuid.UUID] reads back what [str] writes. *)
Lemma UUID_of_str_str g :
  UUID_of_str (string_of_list_byte (lower (Uuid.str g))) = Ok g.
Proof.
  unfold UUID_of_str, encode. rewrite list_byte_of_string_of_list_byte.
  rewrite str_grouped, lower_guid, guid_digits, length_fixed.
  rewrite decide_True by done.
  rewrite <- guid_digits, guid_value. cbn [mbind option_bind].
  by rewrite UUID_of_int_uuid_int.
Qed.

End RoundTripFacts.

Section WireRoundTrip.

Import Server Trace Fixture.

Context {C : Type} (ops : Ops C).
Variable fromstring : bytes → Result Element.

Local Abbreviation _process :=
  (Server._process ops fromstring UUID_of_str b64decode).

(** X8.  What ps_data_packet writes, _process reads back: when the XML
    parser returns the element of the packet ps_data_packet(data,
    stream_type, ps_guid), _process hands the codec exactly the payload
    (data, stream_type, pipeline id), the pipeline id being None for None
    and for the zero GUID; uuid.UUID reads the GUID text back and
    base64.b64decode undoes b64encode. *)
Theorem data_packet_read_back fuel raw data stream_type ps_guid w :
  fromstring raw = Ok (Wire.data_element data stream_type ps_guid) →
  let pipeline_id := pipeline_scope (or_zero ps_guid) in
  let payload := mkPayload data stream_type pipeline_id in
  _process fuel raw w
  = bind (call (receive_data payload) (do_receive_data ops payload))
      (λ _, bind (drain_events ops fuel pipeline_id)
              (λ _, data_ack pipeline_id))
      w.
Proof.
  intros Hel pipeline_id payload.
  rewrite (process_dispatch ops fromstring UUID_of_str b64decode fuel raw
             (Wire.data_element data stream_type ps_guid)
             (string_of_list_byte (lower (Uuid.str (or_zero ps_guid))))
             (or_zero ps_guid) w Hel);
    [|cbn [attrib Wire.data_element];
      by rewrite lookup_insert_ne, lookup_singleton_eq
     |apply UUID_of_str_str].
  cbn [tag Wire.data_element]. rewrite decide_False, decide_False, decide_True by done.
  fold pipeline_id. unfold Server._process_data.
  assert (Hbody :
    (match text (Wire.data_element data stream_type ps_guid) with
     | None | Some "" => ret []
     | Some text => lift (b64decode text)
     end) w = (Returns data, w)).
  { cbn [text Wire.data_element].
    pose proof (b64decode_b64encode data) as Hd.
    destruct (Base64.b64encode data) as [|c body] eqn:E.
    - destruct data as [|a [|b [|c rest]]]; [done|discriminate E..].
    - rewrite Hd.
      by destruct (string_of_list_byte (c :: body)) eqn:E'. }
  unfold bind at 1. rewrite Hbody.
  assert (Hst :
    (if decide (default "" (attrib (Wire.data_element data stream_type ps_guid)
                           !! "Stream") = "PromptResponse")
     then st_prompt_response else st_default) = stream_type).
  { cbn [attrib Wire.data_element]. rewrite lookup_insert_eq.
    by destruct stream_type. }
  cbv zeta. rewrite Hst. reflexivity.
Qed.

End WireRoundTrip.

Section WireUnambiguous.

Import Trace.

Lemma b64encode_inj d1 d2 :
  Base64.b64encode d1 = Base64.b64encode d2 → d1 = d2.
Proof.
  intros H. pose proof (a2b_base64_b64encode d1 []) as H1.
  rewrite H, a2b_base64_b64encode in H1. by injection H1.
Qed.

(** X9.  The packets the server writes determine what they were built from:
    equal Data packets have equal payload, stream type and GUID (None
    counting as the zero GUID), equal ack packets have the same tag and
    GUID, and a Data packet is never equal to an ack packet. *)
Theorem packets_unambiguous :
  (∀ d1 s1 g1 d2 s2 g2,
     ps_data_packet d1 s1 g1 = ps_data_packet d2 s2 g2 →
     d1 = d2 ∧ s1 = s2 ∧ or_zero g1 = or_zero g2)
  ∧ (∀ t1 g1 t2 g2,
       t1 ∈ ack_tags → t2 ∈ ack_tags →
       ps_guid_packet t1 g1 = ps_guid_packet t2 g2 →
       t1 = t2 ∧ or_zero g1 = or_zero g2)
  ∧ (∀ d s g t g',
       t ∈ ack_tags → ps_data_packet d s g ≠ ps_guid_packet t g').
Proof.
  split; [|split].
  - intros d1 s1 g1 d2 s2 g2. rewrite !ps_data_packet_spec.
    unfold spec_data_packet. intros H. apply app_inv_head in H.
    assert (Hs : s1 = s2) by (destruct s1, s2; [done|discriminate H..|done]).
    subst s2. do 2 apply app_inv_head in H.
    assert (Hg : guid_8_4_4_4_12 (default zero g1)
                 = guid_8_4_4_4_12 (default zero g2)).
    { apply (f_equal (take 36)) in H.
      by rewrite !(take_app_length' _ _ 36 (eq_sym (length_guid _))) in H. }
    rewrite Hg in H. do 2 apply app_inv_head in H.
    rewrite !(app_assoc _ (encode "</Data>")) in H.
    apply app_inv_tail, app_inv_tail in H.
    split; [by apply b64encode_inj|]. split; [done|].
    by apply guid_text_inj.
  - intros t1 g1 t2 g2 H1 H2 H. by apply ack_packet_inj.
  - intros d s g t g' Ht H.
    pose proof (data_packet_is_no_ack d s g) as Hd.
    rewrite H, ack_packet_is_ack in Hd by done. discriminate.
Qed.

End WireUnambiguous.

(** ** The connections *)

Section ConnectionFacts.

Import Server Framing Connections.

Lemma index_take c (data : bytes) i :
  index c data = Some i → index c (take (S i) data) = Some i.
Proof.
  revert i. induction data as [|x data IH]; intros i; cbn [index]; [done|].
  destruct (decide (x = c)) as [->|Hne].
  - intros [= <-]. cbn [take index]. by rewrite decide_True.
  - destruct (index c data) as [j|] eqn:E; [|done]. intros [= <-].
    change (take (S (S j)) (x :: data)) with (x :: take (S j) data).
    cbn [index]. rewrite decide_False by done. by rewrite (IH j).
Qed.

Lemma count_after_index c (data : bytes) i :
  index c data = Some i → count c data = S (count c (drop (S i) data)).
Proof.
  intros H. destruct (index_split _ _ _ H) as [Hd Hc].
  rewrite Hd at 1. rewrite count_app, count_cons, Hc.
  by rewrite decide_True.
Qed.

Lemma packets_of_stream_no_LF stream current :
  index LF stream = None → packets_of_stream stream current = [].
Proof.
  intros H%index_None.
  rewrite <- (app_nil_r stream), packets_of_stream_run by done. reflexivity.
Qed.

(** The reads of [StdioConnection] are framed into the packets of the
    input. *)
Lemma framed_stdio n stdin buffer :
  (count LF stdin + 2 ≤ n)%nat →
  framed (StdioConnection_reads n stdin) buffer
  = (packets_of_stream stdin (concat buffer), Exited).
Proof.
  revert stdin buffer. induction n as [|n IH]; intros stdin buffer Hn; [lia|].
  cbn [StdioConnection_reads]. unfold StdioConnection_read, readline.
  destruct (index LF stdin) as [i|] eqn:E.
  - assert (Hne : take (S i) stdin ≠ []).
    { destruct stdin; [done|]. discriminate. }
    cbn [framed]. rewrite decide_False by done.
    rewrite (index_take _ _ _ E).
    rewrite (IH (drop (S i) stdin)).
    + destruct (index_split _ _ _ E) as [Hd Hc].
      pose proof (packets_of_stream_run (take i stdin)
                    (LF :: drop (S i) stdin) (concat buffer) Hc) as Hp.
      rewrite <- Hd in Hp. rewrite Hp.
      cbn [packets_of_stream]. rewrite decide_True by done.
      rewrite take_take, Nat.min_l by lia.
      rewrite (drop_ge (take (S i) stdin)) by (rewrite length_take; lia).
      reflexivity.
    + rewrite (count_after_index _ _ _ E) in Hn. lia.
  - destruct n as [|n]; [lia|].
    destruct (decide (stdin = [])) as [->|Hne].
    + cbn [framed]. by rewrite decide_True.
    + cbn [StdioConnection_reads]. unfold StdioConnection_read, readline.
      cbn [index framed]. rewrite decide_False by done. rewrite E.
      rewrite decide_True by done.
      by rewrite packets_of_stream_no_LF.
Qed.

(** X10.  Over StdioConnection, whose read returns one line of standard
    input whatever length is asked for, the read loop hands its handler
    exactly the line-feed-terminated packets of the input, in order, and
    exits at the end of input; bytes after the last line feed are dropped. *)
Theorem stdio_read_loop {C} (handle : bytes → M (C:=C) bool) stdin n w :
  (count LF stdin + 2 ≤ n)%nat →
  run_loop handle (StdioConnection_reads n stdin) [] w
  = feed handle (packets_of_stream stdin []) Exited w.
Proof.
  intros Hn. by rewrite run_loop_framed, framed_stdio.
Qed.

Lemma framed_keeps_reading reads buffer :
  Forall (λ data, data ≠ []) reads →
  ∃ buffer', (framed reads buffer).2 = Reading buffer'.
Proof.
  intros H. revert buffer.
  induction H as [|data reads Hne _ IH]; intros buffer; [by eexists|].
  cbn [framed]. rewrite decide_False by done.
  destruct (index LF data) as [i|]; [|apply IH].
  destruct (IH [drop (S i) data]) as [b Hb].
  destruct (framed reads [drop (S i) data]) as [later state]. by exists b.
Qed.

(** X11.  When every read is non-empty and holds at most one line feed, the
    read loop hands its handler exactly the packets of the byte stream, in
    order, however the stream is cut into reads, and is left waiting for the
    next read. *)
Theorem read_loop_frames_packets
    {C} (handle : bytes → M (C:=C) bool) reads w :
  Forall (λ data, data ≠ [] ∧ (count LF data ≤ 1)%nat) reads →
  ∃ buffer,
    run_loop handle reads [] w
    = feed handle (packets_of_stream (concat reads) []) (Reading buffer) w.
Proof.
  intros H.
  destruct (framed_keeps_reading reads []) as [buffer Hb].
  { eapply Forall_impl; [exact H|]. by intros data [? _]. }
  exists buffer.
  by rewrite run_loop_framed, Hb, (framed_one_LF_per_read reads []).
Qed.

End ConnectionFacts.

Section PipeConnectionFacts.

Import Connections.

Context {S : Type} (sys : SocketOps S).

(** X12.  read and send on a PipeConnection that has just been constructed,
    or whose __exit__ has returned, raise Exception('Connection has not been
    opened') without any call on a socket. *)
Theorem pipe_connection_outside_with :
  let closed := mkExc PlainException "Connection has not been opened" in
  (∀ name s self s',
     PipeConnection_init sys name s = (Ok self, s') →
     ∀ length data,
       PipeConnection_read sys length (self, s') = (Raise closed, (self, s'))
       ∧ PipeConnection_send sys data (self, s')
         = (Raise closed, (self, s')))
  ∧ (∀ st st',
       PipeConnection_exit sys st = (Ok tt, st') →
       ∀ length data,
         PipeConnection_read sys length st' = (Raise closed, st')
         ∧ PipeConnection_send sys data st' = (Raise closed, st')).
Proof.
  intros closed.
  assert (Hclosed : ∀ self s length data,
    _conn self = None →
    PipeConnection_read sys length (self, s) = (Raise closed, (self, s))
    ∧ PipeConnection_send sys data (self, s) = (Raise closed, (self, s))).
  { intros self s length data Hc.
    unfold PipeConnection_read, PipeConnection_send, _get_conn, io_bind,
      get_self. cbn [fst]. by rewrite Hc. }
  split.
  - intros name s self s'. unfold PipeConnection_init.
    destruct (do_socket sys s) as [[sock|e] s1]; [|done].
    intros [= <- <-] length data. by apply Hclosed.
  - intros [self s] [self' s']. unfold PipeConnection_exit.
    unfold io_bind at 1. unfold get_self at 1. cbn [fst].
    unfold io_bind at 1.
    destruct (match _conn self with
              | Some conn => syscall (do_close sys conn)
              | None => io_ret tt
              end (self, s)) as [[[]|e] [self1 s1]] eqn:E1; [|done].
    unfold io_bind at 1. unfold set_conn at 1.
    unfold io_bind at 1. unfold get_self at 1. cbn [fst _sock _conn _name].
    unfold syscall.
    destruct (do_close sys (_sock self1) s1) as [[[]|e] s2]; [|done].
    intros [= <- <-] length data. by apply Hclosed.
Qed.

(** X13.  On POSIX, when os.unlink of the pipe name raises, __enter__ goes
    on exactly as it does on nt (where nothing is unlinked) if the exception
    is a FileNotFoundError, and otherwise lets it propagate before any
    socket is made, leaving the object unchanged. *)
Theorem enter_unlinks_socket_file os_name self s e s1 :
  os_name ≠ "nt" →
  do_unlink sys (_name self) s = (Raise e, s1) →
  PipeConnection_enter sys os_name (self, s)
  = if is_FileNotFoundError e
    then PipeConnection_enter sys "nt" (self, s1)
    else (Raise e, (self, s1)).
Proof.
  intros Hos Hunlink. unfold PipeConnection_enter.
  unfold io_bind at 1. unfold get_self at 1. cbn [fst].
  unfold io_bind at 1. rewrite bool_decide_eq_true_2 by done.
  unfold ignore_FileNotFoundError, syscall at 1. rewrite Hunlink.
  destruct (is_FileNotFoundError e); [|done].
  unfold io_bind at 5. unfold get_self at 1. cbn [fst].
  unfold io_bind at 5. rewrite bool_decide_eq_false_2 by (by intros []).
  reflexivity.
Qed.

End PipeConnectionFacts.

(** ** The event loops of the threads *)

Section ThreadFacts.

Import Server Threads.

Context {C : Type} (ops : Ops C).
Variable dedent : string → string.

Implicit Types (w : World (C:=C)).

Lemma bind_times_S {A} n (m : M (C:=C) unit) (k : unit → M A) w :
  bind (times (S n) m) k w = bind m (λ _, bind (times n m) k) w.
Proof. cbn [times]. unfold bind. by destruct (m w) as [[[]|e|] w1]. Qed.

Lemma bind_cong {A B} (m : M (C:=C) A) (k k' : A → M B) w :
  (∀ a w1, k a w1 = k' a w1) → bind m k w = bind m k' w.
Proof. intros H. unfold bind. by destruct (m w) as [[a|e|] w1]. Qed.

Lemma bind_times_O {A} (m : M (C:=C) unit) (k : unit → M A) w :
  bind (times 0 m) k w = k tt w.
Proof. reflexivity. Qed.

(** X14.  RunspaceThread.run handles the events put on its queue in order up
    to the first sentinel: after each event it takes one payload from the
    codec and writes it if there is one; the sentinel ends the loop without
    such a flush and items queued after it are never handled; without a
    sentinel the thread is left waiting. The host results it has stored are
    those of the RunspacePoolHostResponse events, applied in order. *)
Theorem runspace_thread_loop es rest _host_result w :
  let after :=
    foldl (λ hr event, RunspaceThread_handle event hr) _host_result es in
  RunspaceThread_run ops (map Some es ++ None :: rest) _host_result w
  = bind (times (length es) (_send_data ops)) (λ _, ret (Ended, after)) w
  ∧ RunspaceThread_run ops (map Some es) _host_result w
    = bind (times (length es) (_send_data ops)) (λ _, ret (Waiting, after)) w.
Proof.
  revert _host_result w.
  induction es as [|event es IH]; intros hr w; [by split|].
  cbn [map app RunspaceThread_run length foldl].
  rewrite !bind_times_S.
  split; apply bind_cong; intros [] w1; apply IH.
Qed.

(** X15.  PipelineThread.run handles the events put on its queue in order up
    to the first sentinel, calling _send_data once after each event; the
    sentinel sets pipeline_complete and ends the loop without a flush, and
    items queued after it are never handled; without a sentinel the thread
    is left waiting with the variables the events have produced. *)
Theorem pipeline_thread_loop es rest st w :
  let after := foldl (λ st event, PipelineThread_handle dedent event st) st es in
  PipelineThread_run ops dedent (map Some es ++ None :: rest) st w
  = bind (times (length es) (_send_data ops))
      (λ _, ret (Ended,
                 mkLocals (pipeline_input after) true (_host_result after)
                   (workers after)))
      w
  ∧ PipelineThread_run ops dedent (map Some es) st w
    = bind (times (length es) (_send_data ops)) (λ _, ret (Waiting, after)) w.
Proof.
  revert st w.
  induction es as [|event es IH]; intros st w; [by split|].
  cbn [map app PipelineThread_run length foldl].
  rewrite !bind_times_S.
  split; apply bind_cong; intros [] w1; apply IH.
Qed.

End ThreadFacts.

Section HostResponseFacts.

Import Server Threads.

Variable dedent : string → string.

Lemma after_wait_stored call_id m state value :
  m !! call_id = Some value →
  Host._send_data_with_response call_id [Host.mkShared m state]
  = match value with
    | PyErrorRecord er =>
        Host.host_raises
          (mkExc PlainException
             ("Received error from host call: " +:+ Message (Exception er)))
          (delete call_id m)
    | _ => Host.host_returns value (delete call_id m)
    end.
Proof.
  intros Hm.
  unfold Host._send_data_with_response, Host.wait_for,
    Host.response_or_not_running.
  cbn [Host._result Host.pipeline_state].
  rewrite bool_decide_eq_true_2 by (by rewrite Hm).
  cbn [orb]. unfold Host.after_wait. cbn [Host._result]. rewrite Hm.
  by destruct value.
Qed.

(** X16.  Once a thread has handled a host response event for call id ci,
    whatever it handled before, a host call waiting for ci ends at once with
    the event's error if it has one and else its result: the entry is
    removed from the result map and the value returned, or an Exception
    'Received error from host call: <message>' raised when the value is an
    ErrorRecord. *)
Theorem host_response_releases_call es ci result error state :
  let value := host_response_value result error in
  let outcome m :=
    match value with
    | PyErrorRecord er =>
        Host.host_raises
          (mkExc PlainException
             ("Received error from host call: " +:+ Message (Exception er)))
          (delete ci m)
    | _ => Host.host_returns value (delete ci m)
    end in
  (∀ _host_result,
     let m :=
       foldl (λ hr event, RunspaceThread_handle event hr) _host_result
         (es ++ [RunspacePoolHostResponseEvent ci result error]) in
     Host._send_data_with_response ci [Host.mkShared m state] = outcome m)
  ∧ (∀ st,
       let m :=
         _host_result
           (foldl (λ st event, PipelineThread_handle dedent event st) st
              (es ++ [PipelineHostResponseEvent ci result error])) in
       Host._send_data_with_response ci [Host.mkShared m state] = outcome m).
Proof.
  intros value outcome. split.
  - intros hr m. apply after_wait_stored.
    unfold m. rewrite foldl_app. cbn [foldl RunspaceThread_handle].
    apply lookup_insert_eq.
  - intros st m. apply after_wait_stored.
    unfold m. rewrite foldl_app. cbn [foldl PipelineThread_handle _host_result].
    apply lookup_insert_eq.
Qed.

End HostResponseFacts.

Section IteratorFacts.

Import Server Threads.

Variable dedent : string → string.

Lemma yielded_snoc results r :
  yielded (results ++ [r])
  = yielded results ++ match r with Yield v => [v] | _ => [] end.
Proof.
  unfold yielded. rewrite omap_app. by destruct r.
Qed.

Lemma inputs_of_handle event queue st :
  pipeline_input (PipelineThread_handle dedent event st)
    ++ inputs_of queue
  = pipeline_input st ++ inputs_of (Some event :: queue).
Proof.
  destruct event; cbn [PipelineThread_handle start_pwsh_pipeline
                       pipeline_input inputs_of]; try done.
  by rewrite <- app_assoc.
Qed.

Lemma pipeline_input_handle event st :
  pipeline_input st
  `prefix_of` pipeline_input (PipelineThread_handle dedent event st).
Proof.
  destruct event; cbn [PipelineThread_handle start_pwsh_pipeline
                       pipeline_input]; try done.
  by apply prefix_app_r.
Qed.

Lemma race_step_invariant total m r :
  race_invariant total r → race_invariant total (race_step dedent m r).
Proof.
  intros [Hq Hg]. destruct m; unfold race_step.
  - destruct (race_ended r) eqn:Hended; [by split; [rewrite Hended|]|].
    destruct (race_queue r) as [|[event|] queue'] eqn:Hqueue.
    + by split; [rewrite Hended, Hqueue|].
    + split; cbn [race_ended race_locals race_queue race_generator
                  race_results].
      * by rewrite inputs_of_handle.
      * pose proof (pipeline_input_handle event (race_locals r))
          as [more Hmore].
        destruct (race_generator r) as [idx|].
        -- destruct Hg as [Hy Hidx]. rewrite Hmore. split.
           ++ by rewrite take_app_le.
           ++ rewrite length_app. lia.
        -- rewrite Hmore. by apply prefix_app_r.
    + split; cbn [race_ended race_locals race_queue race_generator
                  race_results pipeline_input].
      * cbn [inputs_of] in Hq. rewrite app_nil_r in Hq. by rewrite Hq.
      * done.
  - destruct (pipeline_iter_next (race_locals r) (race_generator r))
      as [result gen] eqn:Hnext.
    split; cbn [race_ended race_locals race_queue race_generator
                race_results]; [done|].
    unfold pipeline_iter_next in Hnext. rewrite yielded_snoc.
    destruct (race_generator r) as [idx|].
    + destruct Hg as [Hy Hidx].
      destruct (pipeline_input (race_locals r) !! idx) as [value|] eqn:Hv.
      * injection Hnext as <- <-. split.
        -- rewrite Hy. by rewrite (take_S_r _ _ _ Hv).
        -- by apply lookup_lt_Some in Hv.
      * destruct (pipeline_complete (race_locals r));
          injection Hnext as <- <-; rewrite app_nil_r.
        -- rewrite Hy. apply prefix_take.
        -- by split.
    + injection Hnext as <- <-. by rewrite app_nil_r.
Qed.

Lemma race_invariant_all total schedule r :
  race_invariant total r → race_invariant total (race dedent schedule r).
Proof.
  unfold race. revert r.
  induction schedule as [|m schedule IH]; intros r Hr; [done|].
  cbn [foldl]. by apply IH, race_step_invariant.
Qed.

(** X17.  However the worker's next() calls interleave with the pipeline
    thread handling its queue, the values the input iterator has yielded are
    a prefix of the input already stored when it was created followed by the
    data of the PipelineInput events queued before the first sentinel: input
    reaches the script in order, without gaps or repetition. *)
Theorem iterator_yields_input_in_order schedule queue st :
  let r := race dedent schedule (mkRace queue false st (Some 0%nat) []) in
  yielded (race_results r) `prefix_of` pipeline_input st ++ inputs_of queue.
Proof.
  intros r.
  assert (Hr : race_invariant (pipeline_input st ++ inputs_of queue) r).
  { apply race_invariant_all. split; [done|].
    cbn [race_generator race_results race_locals]. split; [done|lia]. }
  destruct Hr as [Hq Hg].
  assert (Hin : pipeline_input (race_locals r)
                `prefix_of` pipeline_input st ++ inputs_of queue).
  { destruct (race_ended r); [done|]. rewrite <- Hq. by apply prefix_app_r. }
  etrans; [|exact Hin].
  destruct (race_generator r) as [idx|]; [|done].
  destruct Hg as [-> _]. apply prefix_take.
Qed.

Lemma nexts_from st k idx :
  (idx + k = length (pipeline_input st))%nat →
  nexts (S k) st (Some idx)
  = map Yield (drop idx (pipeline_input st))
      ++ [if pipeline_complete st then StopIteration else Blocked].
Proof.
  revert idx. induction k as [|k IH]; intros idx Hk.
  - cbn [nexts pipeline_iter_next].
    rewrite lookup_ge_None_2, drop_ge by lia.
    by destruct (pipeline_complete st).
  - destruct (lookup_lt_is_Some_2 (pipeline_input st) idx) as [v Hv]; [lia|].
    change (nexts (S (S k)) st (Some idx))
      with (let '(result, gen') := pipeline_iter_next st (Some idx) in
            result :: nexts (S k) st gen').
    cbn [pipeline_iter_next]. rewrite Hv.
    rewrite (IH (S idx)) by lia.
    by rewrite (drop_S _ _ _ Hv).
Qed.

(** X18.  With the variables of the pipeline thread unchanged,
    len(pipeline_input)+1 calls of next() on a fresh input iterator yield
    every stored value in order and then end the iteration if
    pipeline_complete is set, and block if it is not. *)
Theorem iterator_reaches_end st :
  nexts (S (length (pipeline_input st))) st (Some 0%nat)
  = map Yield (pipeline_input st)
      ++ [if pipeline_complete st then StopIteration else Blocked].
Proof. by rewrite (nexts_from st _ 0). Qed.

End IteratorFacts.

(** ** The facades *)

Section FacadeFacts.

Import Server Facade.

Context {C : Type} (ops : Ops C) (fops : FacadeOps C).
Variable str_of : PyValue → string.
Variable type_name : PyValue → string.
Variable format_exc : PyExc → string.

Local Abbreviation write_host := (Facade.write_host ops fops).
Local Abbreviation write_output := (Facade.write_output ops fops).
Local Abbreviation write_error :=
  (Facade.write_error ops fops str_of type_name).

Implicit Types (w : World (C:=C)).

Lemma exit_if_stopping_Stopping g w :
  Codec.pipeline_state ops g (codec w) = Stopping →
  exit_if_stopping ops g w = (Raises (mkExc SystemExit ""), w).
Proof.
  intros H. unfold exit_if_stopping, bind, get_codec.
  by rewrite decide_True.
Qed.

Lemma exit_if_stopping_other g w :
  Codec.pipeline_state ops g (codec w) ≠ Stopping →
  exit_if_stopping ops g w = (Returns tt, w).
Proof.
  intros H. unfold exit_if_stopping, bind, get_codec.
  by rewrite decide_False.
Qed.

(** X23.  While the pipeline state is Stopping, write_host, write_output and
    write_error raise SystemExit before anything is asked of the codec or
    written; a script whose write_output does so is ended by the executor
    with pipeline.stop(). *)
Theorem writes_exit_when_stopping cmdlet w :
  let g := cmdlet_pipeline cmdlet in
  Codec.pipeline_state ops g (codec w) = Stopping →
  (∀ msg, write_host cmdlet msg w = (Raises (mkExc SystemExit ""), w))
  ∧ (∀ data, write_output cmdlet data w = (Raises (mkExc SystemExit ""), w))
  ∧ (∀ message category error_id target_object recommended_action
       category_reason category_target_name category_target_type,
       write_error cmdlet message category error_id target_object
         recommended_action category_reason category_target_name
         category_target_type w
       = (Raises (mkExc SystemExit ""), w))
  ∧ (∀ code data c2,
       do_pipeline_stop ops g (codec w) = (Ok tt, c2) →
       run_script ops format_exc (λ _ cmdlet, write_output cmdlet data)
         g code cmdlet w
       = (Returns tt,
          mkWorld c2 (pipelines w)
            (trace w ++ [exec_script code cmdlet;
                         codec_call (pipeline_stop g)]))).
Proof.
  intros g Hstate.
  assert (Hexit : ∀ tr,
    exit_if_stopping ops g (mkWorld (codec w) (pipelines w) tr)
    = (Raises (mkExc SystemExit ""), mkWorld (codec w) (pipelines w) tr)).
  { intros tr. by apply exit_if_stopping_Stopping. }
  assert (Hw : exit_if_stopping ops g w = (Raises (mkExc SystemExit ""), w))
    by by apply exit_if_stopping_Stopping.
  split; [|split; [|split]].
  - intros msg. unfold Facade.write_host, bind. fold g. by rewrite Hw.
  - intros data. unfold Facade.write_output, bind. fold g. by rewrite Hw.
  - intros. unfold Facade.write_error, bind. fold g. by rewrite Hw.
  - intros code data c2 Hstop.
    unfold run_script, try_except.
    unfold bind at 1. unfold act at 1. unfold bind at 1.
    unfold Facade.write_output at 1. unfold bind at 1. fold g.
    rewrite Hexit. cbn [is_SyntaxError is_SystemExit exc_class orb].
    unfold call. cbn [codec pipelines trace]. rewrite Hstop.
    by rewrite <- app_assoc.
Qed.

(** X24.  write_output on a pipeline that is not Stopping hands the value to
    the codec and at once takes one payload from the codec and writes it to
    the connection if there is one. *)
Theorem write_output_sends_at_once cmdlet data w c1 c2 d :
  let g := cmdlet_pipeline cmdlet in
  Codec.pipeline_state ops g (codec w) ≠ Stopping →
  do_pipeline_write_output fops g data (codec w) = (Ok tt, c1) →
  do_data_to_send ops c1 = (Ok d, c2) →
  write_output cmdlet data w
  = (Returns tt,
     mkWorld c2 (pipelines w)
       (trace w ++ [codec_call data_to_send]
          ++ match d with
             | Some d =>
                 [conn_send
                    (ps_data_packet (payload_data d) (payload_stream_type d)
                       (payload_pipeline_id d))]
             | None => []
             end)).
Proof.
  intros g Hstate Hwrite Hsend.
  unfold Facade.write_output. unfold bind at 1. fold g.
  rewrite exit_if_stopping_other by done.
  unfold bind at 1. unfold codec_op. rewrite Hwrite.
  unfold _send_data, bind, call. cbn [codec pipelines trace]. rewrite Hsend.
  unfold Server.data, _write, act, ret.
  destruct d as [d|]; cbn [codec pipelines trace]; by rewrite <- ?app_assoc.
Qed.


End FacadeFacts.

(** ** The entry point and the pipe name *)

Section MainFacts.

Import Main.

(** X26.  get_pipe_name raises whenever psutil is missing; with psutil it
    always returns a name on nt, and on POSIX it returns a name exactly when
    the FILETIME of the create time is in the range of struct.pack('>Q'), 0
    <= ft < 2**64. *)
Theorem get_pipe_name_fails_exactly os_name TMPDIR pid process_name td :
  (∃ e, get_pipe_name false os_name TMPDIR pid process_name td = Raise e)
  ∧ (os_name = "nt" →
     ∃ name, get_pipe_name true os_name TMPDIR pid process_name td = Ok name)
  ∧ (os_name ≠ "nt" →
     (∃ name, get_pipe_name true os_name TMPDIR pid process_name td = Ok name)
     ↔ (0 ≤ start_time_ft td < 2 ^ 64)%Z).
Proof.
  split; [by eexists|]. split.
  - intros ->. by eexists.
  - intros Hos. unfold get_pipe_name. cbn [negb].
    rewrite bool_decide_eq_false_2 by done.
    destruct (decide (0 ≤ start_time_ft td < 2 ^ 64)%Z) as [Hin|Hout].
    + destruct (pack_Q_be_in_range _ Hin) as (p & Hp & _). rewrite Hp.
      split; [done|]. intros _. by eexists.
    + destruct (pack_Q_be_out_of_range _ Hout) as (e & He). rewrite He.
      split; [|done]. by intros [name [=]].
Qed.

(** X27.  main uses stdin/stdout unless --pipe is given; with --pipe and a
    non-empty --pipe-name it listens on that name without calling
    get_pipe_name, so psutil is not needed; with --pipe and no or an empty
    --pipe-name the name is the one get_pipe_name derives, and main fails
    when psutil is missing. *)
Theorem main_connection_choice
    args HAS_PSUTIL os_name TMPDIR pid process_name td :
  let conn :=
    main_connection args HAS_PSUTIL os_name TMPDIR pid process_name td in
  (pipe args = false → conn = Ok StdioConnection)
  ∧ (pipe args = true →
     ∀ name, pipe_name args = Some name → name ≠ "" →
       conn = Ok (PipeConnection name))
  ∧ (pipe args = true →
     pipe_name args = None ∨ pipe_name args = Some "" →
     conn
     = match get_pipe_name HAS_PSUTIL os_name TMPDIR pid process_name td with
       | Ok name => Ok (PipeConnection name)
       | Raise e => Raise e
       end
     ∧ (HAS_PSUTIL = false → ∃ e, conn = Raise e)).
Proof.
  intros conn. unfold conn, main_connection. split; [|split].
  - by intros ->.
  - intros -> name -> Hname. by rewrite bool_decide_eq_false_2.
  - intros -> Hname.
    assert (Hsame :
      match pipe_name args with
      | Some name =>
          if bool_decide (name = "")
          then get_pipe_name HAS_PSUTIL os_name TMPDIR pid process_name td
          else Ok name
      | None => get_pipe_name HAS_PSUTIL os_name TMPDIR pid process_name td
      end
      = get_pipe_name HAS_PSUTIL os_name TMPDIR pid process_name td).
    { by destruct Hname as [-> | ->]. }
    rewrite Hsame. split; [done|]. intros ->. by eexists.
Qed.

End MainFacts.

(** ** Runs of the parts above on concrete input *)

Section MoreScenarioFacts.

Import Server Trace Fixture Scenario Framing Events Wire Connections
  Threads Facade Examples.

(** After a Command for [P1] the table holds its started thread. *)
Lemma run_keeps_table_ok_session :
  let final :=
    (run toy_ops fromstring UUID_of_str b64decode format_exc 2
       [chunk Command_P1] world_session).2 in
  pipelines final !! P1 = Some (mkPipelineThread P1 true)
  ∧ pt_pipeline_id (mkPipelineThread P1 true) = P1
  ∧ pt_started (mkPipelineThread P1 true) = true
  ∧ P1 ≠ zero.
Proof.
  split; [vm_compute; reflexivity|].
  eapply (run_keeps_table_ok toy_ops fromstring UUID_of_str b64decode
            format_exc 2 [chunk Command_P1] world_session).
  - reflexivity.
  - apply surjective_pairing.
  - vm_compute. reflexivity.
Defined.

(** A second Command for the live pipeline [P1]. *)
Lemma duplicate_command_P1 :
  _process_command toy_ops (Some P1) world_live
  = (Raises (mkExc RuntimeError "threads can only be started once"),
     mkWorld (mkToy RP_Opened pool_guid {[P1 := NotStarted]} [] [pending])
       {[P1 := mkPipelineThread P1 true]}
       [codec_call (ServerPipeline P1)]).
Proof.
  refine (eq_trans
    (duplicate_command_raises toy_ops P1 (mkPipelineThread P1 true)
       world_live
       (mkToy RP_Opened pool_guid {[P1 := NotStarted]} [] [pending])
       _ _ _) _).
  - vm_compute. reflexivity.
  - reflexivity.
  - vm_compute. reflexivity.
  - vm_compute. reflexivity.
Defined.

(** On the server, the second Command breaks the pool and ends the loop. *)
Example duplicate_command_breaks_the_pool :
  let r := read_loop 1 [chunk Command_P1; chunk Command_P1] world0 in
  r.1 = Returns Exited
  ∧ toy_state (codec r.2) = RP_Broken
  ∧ acks (trace r.2) = [ps_guid_packet "CommandAck" (Some P1)].
Proof. vm_compute. repeat split. Qed.

(** Close and Signal for [P1] when no pipeline is live. *)
Lemma unknown_pipeline_P1 :
  _process_close toy_ops (Some P1) world0 = (Raises (KeyError_UUID P1), world0)
  ∧ _process_signal toy_ops (Some P1) world0
    = (Raises (KeyError_UUID P1), world0).
Proof.
  pose proof (unknown_pipeline_raises toy_ops b64decode P1 world0 eq_refl)
    as (Hclose & Hsignal & _).
  by split.
Defined.

(** A Data packet for [P1] when no pipeline is live: the event the codec
    releases is taken from it and lost, and no DataAck is written. *)
Example data_for_unknown_pipeline :
  let r := process_packet 1 Data_P1 world_session in
  (∃ e, r.1 = Raises e ∧ exc_class e = KeyError)
  ∧ toy_events (codec r.2) = []
  ∧ queue_puts (trace r.2) = []
  ∧ sends (trace r.2) = [].
Proof. vm_compute. split; [by eexists|done]. Qed.

(** The first Command for [P1]. *)
Lemma command_starts_P1 :
  _process_command toy_ops (Some P1) world0
  = (Returns tt,
     mkWorld (mkToy RP_Opened pool_guid {[P1 := NotStarted]} [] [])
       {[P1 := mkPipelineThread P1 true]}
       [codec_call (ServerPipeline P1);
        thread_start (pipeline_thread P1);
        conn_send (ps_guid_packet "CommandAck" (Some P1))]).
Proof.
  refine (eq_trans
    (command_starts_pipeline toy_ops P1 world0
       (mkToy RP_Opened pool_guid {[P1 := NotStarted]} [] []) _ _) _).
  - reflexivity.
  - vm_compute. reflexivity.
  - vm_compute. reflexivity.
Defined.

(** A Signal for the live pipeline [P1]: the pending payload is taken
    from the codec and dropped. *)
Lemma signal_P1 :
  _process_signal toy_ops (Some P1) world_live
  = (Returns tt,
     mkWorld (mkToy RP_Opened pool_guid {[P1 := Stopping]} [] [])
       {[P1 := mkPipelineThread P1 true]}
       [codec_call (pipeline_begin_stop P1);
        codec_call data_to_send;
        conn_send (ps_guid_packet "SignalAck" (Some P1))]).
Proof.
  refine (eq_trans
    (signal_pipeline_sequence toy_ops P1 (mkPipelineThread P1 true)
       world_live
       (mkToy RP_Opened pool_guid {[P1 := Stopping]} [] [pending])
       (mkToy RP_Opened pool_guid {[P1 := Stopping]} [] [])
       (Some pending) _ _ _ _) _).
  - vm_compute. reflexivity.
  - reflexivity.
  - vm_compute. reflexivity.
  - vm_compute. reflexivity.
  - vm_compute. reflexivity.
Defined.

(** A Data packet for [P1] that releases two events. *)
Lemma data_events_routed_P1 :
  _process_data toy_ops b64decode 3 (Some "aGkh") "Default" (Some P1)
    world_with_input
  = (Returns tt,
     mkWorld (mkToy RP_Opened pool_guid {[P1 := Running]} [] [])
       {[P1 := mkPipelineThread P1 true]}
       [codec_call
          (receive_data (mkPayload (encode "hi!") st_default (Some P1)));
        codec_call next_event;
        queue_put (Some P1) (Some (PipelineInputEvent (PyInt 1)));
        codec_call next_event;
        queue_put (Some P1) (Some EndOfPipelineInputEvent);
        codec_call next_event;
        conn_send (ps_guid_packet "DataAck" (Some P1))]).
Proof.
  refine (eq_trans
    (data_events_routed toy_ops b64decode 3 (Some "aGkh") (encode "hi!")
       "Default" (Some P1)
       [PipelineInputEvent (PyInt 1); EndOfPipelineInputEvent]
       world_with_input (codec world_with_input)
       (mkToy RP_Opened pool_guid {[P1 := Running]} [] [])
       _ _ _ _ _) _).
  - vm_compute. reflexivity.
  - reflexivity.
  - eapply events_from_cons; [reflexivity|].
    eapply events_from_cons; [reflexivity|].
    by eapply events_from_nil.
  - intros g [= <-] _. by eexists.
  - cbn. lia.
  - vm_compute. reflexivity.
Defined.

(** Closing the pool when nothing is pending. *)
Lemma pool_close_world0 :
  _process_close toy_ops None world0
  = (Returns tt,
     mkWorld (mkToy RP_Closed pool_guid ∅ [] []) ∅
       [codec_call pool_close; codec_call data_to_send;
        conn_send (ps_data_packet (encode "pool-closed") st_default None);
        queue_put None None;
        thread_join runspace_thread;
        conn_send (ps_guid_packet "CloseAck" None)]).
Proof.
  refine (eq_trans
    (pool_close_sequence toy_ops world0
       (mkToy RP_Closed pool_guid ∅ []
          [mkPayload (encode "pool-closed") st_default None])
       (mkToy RP_Closed pool_guid ∅ [] [])
       (Some (mkPayload (encode "pool-closed") st_default None)) _ _) _);
    reflexivity.
Defined.

(** The packet the server would write for the payload [hi!] of [P1],
    read back by the server. *)
Lemma data_packet_read_back_P1 :
  process_packet 1
    (string_of_list_byte
       (unframed (ps_data_packet (encode "hi!") st_default (Some P1))))
    world_live
  = (Returns tt,
     mkWorld codec_live {[P1 := mkPipelineThread P1 true]}
       [codec_call
          (receive_data (mkPayload (encode "hi!") st_default (Some P1)));
        codec_call next_event;
        conn_send (ps_guid_packet "DataAck" (Some P1))]).
Proof.
  unfold process_packet.
  refine (eq_trans
    (data_packet_read_back toy_ops fromstring 1 _ (encode "hi!") st_default
       (Some P1) world_live _) _).
  - vm_compute. reflexivity.
  - vm_compute. reflexivity.
Defined.

(** A script that does not parse. *)
Lemma syntax_error_toy :
  run_script toy_ops format_exc unparsable_script P1 "1 +" P1_cmdlet
    world_running
  = (Returns tt,
     mkWorld
       (mkToy RP_Opened pool_guid {[P1 := Failed]} []
          [mkPayload (encode "pipeline-state") st_default (Some P1)])
       {[P1 := mkPipelineThread P1 true]}
       [exec_script "1 +" P1_cmdlet;
        log_exception "Attempted to run code with invalid syntax";
        codec_call
          (pipeline_change_state P1 Failed
             (invalid_syntax_record format_exc
                (mkExc SyntaxError "invalid syntax (<string>, line 1)"))
             true)]).
Proof.
  refine (eq_trans (proj1
    (syntax_error_fails_pipeline toy_ops format_exc unparsable_script P1
       "1 +" P1_cmdlet (mkExc SyntaxError "invalid syntax (<string>, line 1)")
       world_running
       (mkWorld (codec world_running) (pipelines world_running)
          [exec_script "1 +" P1_cmdlet])
       (mkToy RP_Opened pool_guid {[P1 := Failed]} []
          [mkPayload (encode "pipeline-state") st_default (Some P1)])
       _ _ _)) _).
  - reflexivity.
  - reflexivity.
  - vm_compute. reflexivity.
  - vm_compute. reflexivity.
Defined.

(** A script that exits. *)
Lemma system_exit_toy :
  run_script toy_ops format_exc exiting_script P1 "exit()" P1_cmdlet
    world_running
  = (Returns tt,
     mkWorld
       (mkToy RP_Opened pool_guid {[P1 := Stopped]} []
          [mkPayload (encode "pipeline-stopped") st_default (Some P1)])
       {[P1 := mkPipelineThread P1 true]}
       [exec_script "exit()" P1_cmdlet; codec_call (pipeline_stop P1)]).
Proof.
  refine (eq_trans
    (system_exit_stops_pipeline toy_ops format_exc exiting_script P1
       "exit()" P1_cmdlet (mkExc SystemExit "") world_running
       (mkWorld (codec world_running) (pipelines world_running)
          [exec_script "exit()" P1_cmdlet])
       (mkToy RP_Opened pool_guid {[P1 := Stopped]} []
          [mkPayload (encode "pipeline-stopped") st_default (Some P1)])
       _ _ _) _).
  - reflexivity.
  - reflexivity.
  - vm_compute. reflexivity.
  - vm_compute. reflexivity.
Defined.

(** A script that writes one value and ends. *)
Lemma script_success_toy :
  _exec toy_ops format_exc (uses_pipeline_host (toy_fops None None))
    (writing_script (toy_fops None None)) P1 "cmdlet.write_output(2)" []
    world_running
  = (Returns tt,
     mkWorld (mkToy RP_Opened pool_guid {[P1 := Completed]} [] [])
       {[P1 := mkPipelineThread P1 true]}
       [codec_call (pipeline_start P1); codec_call data_to_send;
        exec_script "cmdlet.write_output(2)" P1_cmdlet;
        codec_call data_to_send;
        conn_send (ps_data_packet (encode "output") st_default (Some P1));
        codec_call (Codec.pipeline_complete P1); codec_call data_to_send;
        conn_send
          (ps_data_packet (encode "pipeline-completed") st_default
             (Some P1))]).
Proof.
  refine (eq_trans
    (script_success_completes toy_ops format_exc
       (uses_pipeline_host (toy_fops None None))
       (writing_script (toy_fops None None)) P1 "cmdlet.write_output(2)" []
       world_running (codec world_running) (codec world_running) None
       (mkWorld (codec world_running) (pipelines world_running)
          [codec_call (pipeline_start P1); codec_call data_to_send;
           exec_script "cmdlet.write_output(2)" P1_cmdlet;
           codec_call data_to_send;
           conn_send (ps_data_packet (encode "output") st_default (Some P1))])
       (mkToy RP_Opened pool_guid {[P1 := Completed]} []
          [mkPayload (encode "pipeline-completed") st_default (Some P1)])
       (mkToy RP_Opened pool_guid {[P1 := Completed]} [] [])
       (Some (mkPayload (encode "pipeline-completed") st_default (Some P1)))
       _ _ _ _ _) _).
  - vm_compute. reflexivity.
  - reflexivity.
  - vm_compute. reflexivity.
  - vm_compute. reflexivity.
  - reflexivity.
  - vm_compute. reflexivity.
Defined.

(** When [start()] fails the script does not run and nothing is sent. *)
Example failed_start_is_only_logged :
  let broken := mkOps ToyCodec
    (do_receive_data toy_ops) (do_next_event toy_ops)
    (do_data_to_send toy_ops) (do_pool_close toy_ops)
    (do_set_broken toy_ops) (pool_state toy_ops) (runspace_pool_id toy_ops)
    (do_ServerPipeline toy_ops) (Codec.pipeline_state toy_ops)
    (λ _ c, (Raise (mkExc (Exception_other "InvalidPipelineState") "state"), c))
    (do_pipeline_complete toy_ops) (do_pipeline_stop toy_ops)
    (do_pipeline_begin_stop toy_ops) (do_pipeline_close toy_ops)
    (do_pipeline_write_error toy_ops) (do_pipeline_change_state toy_ops) in
  _exec broken format_exc (λ _ _, false) raising_script P1 "1" [] world_running
  = (Returns tt,
     mkWorld (codec world_running) (pipelines world_running)
       [codec_call (pipeline_start P1);
        log_exception "Unhandled exception in Python worker thread"]).
Proof. vm_compute. reflexivity. Qed.

(** Standard input with two packets and an unterminated tail. *)
Lemma stdio_read_loop_session :
  run_loop (process_guarded toy_ops fromstring UUID_of_str b64decode
              format_exc 1)
    (StdioConnection_reads 4
       (chunk Command_P1 ++ chunk Signal_P1 ++ encode "<Close"))
    [] world0
  = feed (process_guarded toy_ops fromstring UUID_of_str b64decode
            format_exc 1)
      [encode Command_P1; encode Signal_P1] Exited world0.
Proof.
  refine (eq_trans
    (stdio_read_loop
       (process_guarded toy_ops fromstring UUID_of_str b64decode format_exc 1)
       (chunk Command_P1 ++ chunk Signal_P1 ++ encode "<Close") 4 world0 _)
    _).
  - vm_compute. lia.
  - vm_compute. reflexivity.
Defined.

(** Over standard input the two packets are both processed, whereas one
    read holding both would leave the second in the buffer. *)
Example stdio_processes_each_packet :
  acks (trace (run_loop
                 (process_guarded toy_ops fromstring UUID_of_str b64decode
                    format_exc 1)
                 (StdioConnection_reads 3 (chunk Command_P1 ++ chunk Signal_P1))
                 [] world0).2)
  = [ps_guid_packet "CommandAck" (Some P1);
     ps_guid_packet "SignalAck" (Some P1)].
Proof. vm_compute. reflexivity. Qed.

(** Reads that cut the packets anywhere but hold one line feed at most. *)
Lemma read_loop_frames_split_packets :
  ∃ buffer,
    run_loop (process_guarded toy_ops fromstring UUID_of_str b64decode
                format_exc 1)
      [encode "<Command PSGuid='00000000-0000-"; 
       encode "0000-0000-000000000001' />" ++ [LF] ++ encode "<Signal ";
       encode "PSGuid='00000000-0000-0000-0000-000000000001' />" ++ [LF]]
      [] world0
    = feed (process_guarded toy_ops fromstring UUID_of_str b64decode
              format_exc 1)
        [encode Command_P1; encode Signal_P1] (Reading buffer) world0.
Proof.
  destruct (read_loop_frames_packets
    (process_guarded toy_ops fromstring UUID_of_str b64decode format_exc 1)
    [encode "<Command PSGuid='00000000-0000-"; 
     encode "0000-0000-000000000001' />" ++ [LF] ++ encode "<Signal ";
     encode "PSGuid='00000000-0000-0000-0000-000000000001' />" ++ [LF]]
    world0) as [buffer H].
  - repeat first
      [ apply Forall_nil_2
      | apply Forall_cons_2; [split; [discriminate|vm_compute; lia]|] ].
  - exists buffer. exact H.
Defined.

(** A stale socket file is removed; a missing one is no error. *)
Lemma enter_without_socket_file :
  PipeConnection_enter toy_sys "posix"
    (mkPipeConnection "/tmp/pipe" 0 None, mkToySys [] 1 [])
  = (Ok tt,
     (mkPipeConnection "/tmp/pipe" 1 (Some 2),
      mkToySys ["/tmp/pipe"] 3
        [sys_unlink "/tmp/pipe"; sys_socket 1; sys_bind 1 "/tmp/pipe";
         sys_listen 1 1; sys_accept 1 2])).
Proof.
  refine (eq_trans
    (enter_unlinks_socket_file toy_sys "posix"
       (mkPipeConnection "/tmp/pipe" 0 None) (mkToySys [] 1 [])
       (mkExc (Exception_other "FileNotFoundError") "/tmp/pipe")
       (mkToySys [] 1 [sys_unlink "/tmp/pipe"]) _ _) _).
  - discriminate.
  - reflexivity.
  - vm_compute. reflexivity.
Defined.

Example pipe_connection_life :
  let fresh := mkToySys ["/tmp/pipe"] 0 [] in
  let s1 := (PipeConnection_init toy_sys "/tmp/pipe" fresh).2 in
  let self := mkPipeConnection "/tmp/pipe" 0 None in
  (PipeConnection_init toy_sys "/tmp/pipe" fresh).1 = Ok self
  ∧ (PipeConnection_enter toy_sys "posix" (self, s1)).1 = Ok tt
  ∧ (∃ e, (PipeConnection_enter toy_sys "nt" (self, s1)).1 = Raise e)
  ∧ toy_log
      (io_bind (PipeConnection_enter toy_sys "posix")
         (λ _, io_bind (PipeConnection_send toy_sys (encode "x"))
                 (λ _, PipeConnection_exit toy_sys)) (self, s1)).2.2
    = [sys_socket 0; sys_unlink "/tmp/pipe"; sys_socket 1;
       sys_bind 1 "/tmp/pipe"; sys_listen 1 1; sys_accept 1 2;
       sys_sendall 2 (encode "x"); sys_close 2; sys_close 1].
Proof. vm_compute. repeat split. by eexists. Qed.

(** Writing while [P1] is being stopped. *)
Lemma writes_exit_toy :
  write_output toy_ops (toy_fops None None) P1_cmdlet (PyInt 2) world_stopping
  = (Raises (mkExc SystemExit ""), world_stopping)
  ∧ run_script toy_ops format_exc (writing_script (toy_fops None None)) P1
      "cmdlet.write_output(2)" P1_cmdlet world_stopping
    = (Returns tt,
       mkWorld
         (mkToy RP_Opened pool_guid {[P1 := Stopped]} []
            [mkPayload (encode "pipeline-stopped") st_default (Some P1)])
         {[P1 := mkPipelineThread P1 true]}
         [exec_script "cmdlet.write_output(2)" P1_cmdlet;
          codec_call (pipeline_stop P1)]).
Proof.
  pose proof (writes_exit_when_stopping toy_ops (toy_fops None None)
                (λ _, "") (λ _, "") format_exc P1_cmdlet world_stopping
                eq_refl) as (_ & Hout & _ & Hrun).
  split; [apply Hout|].
  refine (eq_trans (Hrun "cmdlet.write_output(2)" (PyInt 2) _ _) _);
    vm_compute; reflexivity.
Defined.

(** Output of a running pipeline goes out at once. *)
Lemma write_output_toy :
  write_output toy_ops (toy_fops None None) P1_cmdlet (PyInt 2) world_running
  = (Returns tt,
     mkWorld (codec world_running) (pipelines world_running)
       [codec_call data_to_send;
        conn_send (ps_data_packet (encode "output") st_default (Some P1))]).
Proof.
  refine (eq_trans
    (write_output_sends_at_once toy_ops (toy_fops None None) P1_cmdlet
       (PyInt 2) world_running
       (mkToy RP_Opened pool_guid {[P1 := Running]} []
          [mkPayload (encode "output") st_default (Some P1)])
       (codec world_running)
       (Some (mkPayload (encode "output") st_default (Some P1))) _ _ _) _).
  - vm_compute. discriminate.
  - vm_compute. reflexivity.
  - vm_compute. reflexivity.
  - reflexivity.
Defined.


Example print_with_ui_toy :
  write_host toy_ops (toy_fops None (Some host_with_ui)) P1_cmdlet "hello"
    world_running
  = (Returns tt,
     mkWorld (codec world_running) (pipelines world_running)
       [codec_call data_to_send;
        conn_send
          (ps_data_packet (encode "host-line:hello") st_default (Some P1))]).
Proof. vm_compute. reflexivity. Qed.

(** The threads' loops: a response for call 7 on the runspace queue, the
    sentinel, and an event that comes too late. *)
Example runspace_thread_example :
  RunspaceThread_run toy_ops
    [Some (RunspacePoolHostResponseEvent 7 (PyStr "secret") None);
     None;
     Some (RunspacePoolHostResponseEvent 8 (PyStr "late") None)]
    ∅ world0
  = (Returns (Ended, {[7%Z := PyStr "secret"]}),
     mkWorld codec0 ∅ [codec_call data_to_send]).
Proof. vm_compute. reflexivity. Qed.

(** A pipeline whose script may read input: the worker is started with
    the dedented script, two values arrive, then the end of input. *)
Example pipeline_thread_example :
  (PipelineThread_run toy_ops (λ s, s)
     [Some (CreatePipelineEvent false "for x in cmdlet.input: pass"
              [(Some "Name", PyStr "x")]);
      Some (PipelineInputEvent (PyInt 1));
      Some (PipelineInputEvent (PyInt 2));
      Some EndOfPipelineInputEvent]
     (Locals_init ∅) world0).1
  = Returns
      (Waiting,
       mkLocals [PyInt 1; PyInt 2] true ∅
         [("for x in cmdlet.input: pass", [(Some "Name", PyStr "x")])]).
Proof. vm_compute. reflexivity. Qed.

(** A worker that asks for input before any has arrived blocks, then gets
    the values in order; one that is created without input stops at once
    and never sees a value that arrives later. *)
Example iterator_races :
  let with_input :=
    mkRace [Some (PipelineInputEvent (PyInt 1));
            Some (PipelineInputEvent (PyInt 2));
            Some EndOfPipelineInputEvent]
      false (mkLocals [] false ∅ []) (Some 0%nat) [] in
  let without_input :=
    mkRace [Some (PipelineInputEvent (PyInt 1))]
      false (mkLocals [] true ∅ []) (Some 0%nat) [] in
  race_results
    (race (λ s, s)
       [next_move; thread_move; next_move; thread_move; thread_move;
        next_move; next_move]
       with_input)
  = [Blocked; Yield (PyInt 1); Yield (PyInt 2); StopIteration]
  ∧ race_results
      (race (λ s, s) [next_move; thread_move; next_move] without_input)
    = [StopIteration; StopIteration].
Proof. vm_compute. split; reflexivity. Qed.

End MoreScenarioFacts.
